(** * ytkb: tree reconciliation, push planning and download, verified

    A shallow embedding of the Go sources of ytkb (package [api], package
    [markdown], package [filesystem] and package [cmd]) together with the
    properties of its tree builder, reconciler, push planner and downloader.

    Conventions of the embedding:
    - a Go [string] is a Rocq [string] (a sequence of bytes);
    - a Go [map[string]T] is a [gmap string T]; the order in which [range]
      visits a map is left open by the language and is an explicit
      enumeration supplied by the runtime ([range_map]);
    - a Go [error] is its message; a call returning [(T, error)] returns
      [result T];
    - library functions whose exact behaviour is outside the repository
      (Unicode trimming and lowering, path cleaning, the YAML codec, the
      unstable [sort.Slice]) are fields of the class [GoRuntime]; the facts
      the language and library documentation guarantee about them are the
      class [GoRuntimeLaws];
    - the outside world (file system, remote service, standard input) is a
      record [World] of answers; what a command does to the world is the
      list of [event]s it emits. *)

From stdpp Require Import gmap strings list fin_maps pretty sorting.
From Stdlib Require Import Ascii ZArith Lia.

Open Scope string_scope.
Open Scope list_scope.
Open Scope nat_scope.

(** ** Errors and results *)

Definition error := string.

Inductive result (A : Type) : Type :=
| Ok (a : A)
| Err (e : error).
Arguments Ok {A} a.
Arguments Err {A} e.

(** ** Bytes used by the sources *)

Definition nl : string := String "010"%char "".
Definition dquote : string := String "034"%char "".
Definition backslash : string := String "092"%char "".

(** ** Package [strings] and [bufio]: the byte-exact functions *)

Module strings.

Fixpoint HasPrefix (s pre : string) {struct pre} : bool :=
  match pre, s with
  | EmptyString, _ => true
  | String c pre', String d s' => if Ascii.eqb c d then HasPrefix s' pre' else false
  | String _ _, EmptyString => false
  end.

(** [strings.Index]: the position of the first occurrence of [sep], [None]
    standing for the result -1. *)
Fixpoint Index (s sep : string) : option nat :=
  if HasPrefix s sep then Some 0
  else match s with
       | EmptyString => None
       | String _ s' => S <$> Index s' sep
       end.

(** The slice expressions [s[n:]] and [s[:n]]. *)
Fixpoint from (n : nat) (s : string) : string :=
  match n, s with
  | 0, _ => s
  | S n', String _ s' => from n' s'
  | S _, EmptyString => EmptyString
  end.

Fixpoint upto (n : nat) (s : string) : string :=
  match n, s with
  | 0, _ => EmptyString
  | S n', String c s' => String c (upto n' s')
  | S _, EmptyString => EmptyString
  end.

(** [s[a:b]] *)
Definition slice (a b : nat) (s : string) : string := upto (b - a) (from a s).

(** [strings.ReplaceAll(s, string(c), new)] for a one-byte pattern. *)
Fixpoint ReplaceAll (s : string) (c : ascii) (new : string) : string :=
  match s with
  | EmptyString => EmptyString
  | String d s' =>
      if Ascii.eqb d c then new +:+ ReplaceAll s' c new
      else String d (ReplaceAll s' c new)
  end.

(** [strings.TrimSuffix(s, "/")] *)
Fixpoint TrimSuffixSlash (s : string) : string :=
  match s with
  | EmptyString => EmptyString
  | String c EmptyString => if Ascii.eqb c "/"%char then EmptyString else s
  | String c s' => String c (TrimSuffixSlash s')
  end.

(** [bufio.Reader.ReadString('\n')] on the bytes still to be read: the
    line with its delimiter, or what is left together with [io.EOF]. *)
Fixpoint ReadString (input : string) : string * option error :=
  match input with
  | EmptyString => (EmptyString, Some "EOF")
  | String c rest =>
      if Ascii.eqb c "010"%char then (String c EmptyString, None)
      else let '(line, e) := ReadString rest in (String c line, e)
  end.

End strings.

(** ** Package [api]: the data model of the remote catalog *)

Module api.

Record Article : Type := mkArticle {
  ID : string;
  Title : string;
  Content : string;
  ParentID : option string;
  Order : Z;
  URL : string
}.

#[global] Instance Article_eq_dec : EqDecision Article.
Proof. solve_decision. Defined.

(** The shape decoded from the service ([ArticleResponse] in
    [ListArticles]); [Parent] is the optional [parentArticle] object. *)
Record ArticleResponse : Type := mkArticleResponse {
  rID : string;
  rSummary : string;
  rContent : string;
  rParent : option string;
  rProjectID : string;
  rProjectName : string
}.

Record Config : Type := mkConfig {
  Token : string;
  cfgURL : string;
  KBKey : string
}.

(** An HTTP answer: status code, raw body, and what the JSON decoder makes
    of the body. *)
Record Response : Type := mkResponse {
  StatusCode : nat;
  Body : string;
  Decoded : result (list ArticleResponse)
}.

Definition articlesURL (baseURL : string) : string :=
  baseURL +:+ "/api/articles?fields=id,summary,content,parentArticle(id),project(id,name)&$top=1000".

(** The body of the conversion loop of [ListArticles] for one response
    element: [None] is the [continue] of the project filter. *)
Definition convert (cfg : Config) (baseURL : string) (ar : ArticleResponse)
  : option Article :=
  if bool_decide (KBKey cfg ≠ "")
     && bool_decide (rProjectID ar ≠ KBKey cfg)
     && bool_decide (rProjectName ar ≠ KBKey cfg)
  then None
  else
    let parentID :=
      match rParent ar with
      | Some pid => if bool_decide (pid ≠ "") then Some pid else None
      | None => None
      end in
    Some {| ID := rID ar;
            Title := rSummary ar;
            Content := rContent ar;
            ParentID := parentID;
            Order := 0%Z;
            URL := baseURL +:+ "/articles/" +:+ rID ar |}.

Fixpoint convertAll (cfg : Config) (baseURL : string)
    (ars : list ArticleResponse) : list Article :=
  match ars with
  | [] => []
  | ar :: rest =>
      match convert cfg baseURL ar with
      | Some a => a :: convertAll cfg baseURL rest
      | None => convertAll cfg baseURL rest
      end
  end.

(** What becomes of the GET request: [http.NewRequest] refuses the URL, or
    [client.Do] fails, or an answer arrives. *)
Inductive Exchange : Type :=
| RequestRefused (e : error)
| DoFailed (e : error)
| Answered (resp : Response).

(** [Client.ListArticles], given what becomes of its GET request. *)
Definition ListArticles (cfg : Config) (http : string → Exchange)
  : result (list Article) :=
  let baseURL := strings.TrimSuffixSlash (cfgURL cfg) in
  let url := articlesURL baseURL in
  match http url with
  | RequestRefused e => Err e
  | DoFailed e => Err ("failed to make request to " +:+ url +:+ ": " +:+ e)
  | Answered resp =>
      if bool_decide (StatusCode resp ≠ 200)
      then Err ("API error: " +:+ pretty (StatusCode resp) +:+ " - " +:+ Body resp)
      else match Decoded resp with
           | Err e => Err ("failed to decode response: " +:+ e)
           | Ok articleResponses => Ok (convertAll cfg baseURL articleResponses)
           end
  end.

End api.

(** ** Package [markdown]: types *)

Module markdown.

Record Frontmatter : Type := mkFrontmatter {
  ID : string;
  Title : string;
  URL : string
}.

Record MarkdownFile : Type := mkMarkdownFile {
  Frontmatter_ : Frontmatter;
  Content : string
}.

#[global] Instance Frontmatter_eq_dec : EqDecision Frontmatter.
Proof. solve_decision. Defined.

#[global] Instance MarkdownFile_eq_dec : EqDecision MarkdownFile.
Proof. solve_decision. Defined.

End markdown.

(** ** The runtime: library functions and the enumeration order of maps *)

(** The places of the sources where a map is ranged over. A call of
    [buildTreeNode] or [downloadArticleRecursive] is named by the identifiers
    of the articles of its enclosing calls, innermost first. *)
Inductive site : Type :=
| SiteDiffStatus
| SiteDiffNewLocal
| SiteChildren (stack : list string)
| SitePushCollect
| SitePushDeleted.

Class GoRuntime : Type := {
  strings_TrimSpace : string → string;
  strings_ToLower : string → string;
  filepath_Dir : string → string;
  filepath_Join : string → string → string;
  yaml_Marshal : markdown.Frontmatter → result string;
  yaml_Unmarshal : string → result markdown.Frontmatter;
  sort_Slice : ∀ A : Type, (A → A → bool) → list A → list A;
  range_map : ∀ V : Type, site → gmap string V → list (string * V)
}.
Arguments sort_Slice {_ A} less l.
Arguments range_map {_ V} s m.

(** What the language specification and the documentation of [sort]
    guarantee: [range] visits every entry of the map once, and [sort.Slice]
    returns a rearrangement of the slice that is ordered by a key whenever
    the comparison is "smaller key". Nothing is promised about elements with
    equal keys. *)
Class GoRuntimeLaws (R : GoRuntime) : Prop := {
  range_map_perm : ∀ V (s : site) (m : gmap string V),
    range_map s m ≡ₚ map_to_list m;
  sort_Slice_perm : ∀ A (less : A → A → bool) (l : list A),
    sort_Slice less l ≡ₚ l;
  sort_Slice_sorted : ∀ A (key : A → Z) (l : list A),
    StronglySorted (λ x y, (key x ≤ key y)%Z)
                   (sort_Slice (λ x y, (key x <? key y)%Z) l)
}.

(** ** Package [markdown]: the codec *)

Module markdown_codec.
Section codec.
Context {R : GoRuntime}.
Import markdown.

Definition delimiter : string := "---" +:+ nl.

Definition ParseMarkdown (content : string) : result MarkdownFile :=
  match strings.Index content delimiter with
  | None => Err "no frontmatter found"
  | Some frontmatterStart =>
      match strings.Index (strings.from (frontmatterStart + 4) content) delimiter with
      | None => Err "invalid frontmatter: no closing delimiter"
      | Some frontmatterEnd =>
          let frontmatterText :=
            strings.slice (frontmatterStart + 4)
                          (frontmatterStart + 4 + frontmatterEnd) content in
          let bodyStart := frontmatterStart + 4 + frontmatterEnd + 4 in
          match yaml_Unmarshal frontmatterText with
          | Err e => Err ("failed to parse frontmatter: " +:+ e)
          | Ok frontmatter =>
              let body :=
                if bodyStart <? String.length content
                then strings.from bodyStart content
                else "" in
              Ok {| Frontmatter_ := frontmatter; Content := body |}
          end
      end
  end.

Definition WriteMarkdown (fm : Frontmatter) (content : string) : result string :=
  match yaml_Marshal fm with
  | Err e => Err e
  | Ok yamlData => Ok (delimiter +:+ yamlData +:+ delimiter +:+ content)
  end.

End codec.
End markdown_codec.

(** ** Package [filesystem] *)

Module filesystem.

Definition invalidChars : list ascii :=
  [ "/"%char; "092"%char; "<"%char; ">"%char; ":"%char;
    "034"%char; "|"%char; "?"%char; "*"%char ].

Definition SanitizeFilename (name : string) : string :=
  fold_left (λ result char, strings.ReplaceAll result char "_") invalidChars name.

End filesystem.

(** ** The outside world and the events a command emits *)

Record World : Type := mkWorld {
  (** [filesystem.FindMarkdownFiles(".")] *)
  FindMarkdownFiles : result (list string);
  (** [filesystem.ReadMarkdownFile] *)
  ReadMarkdownFile : string → result string;
  (** [filesystem.WriteMarkdownFile]: [None] is the nil error *)
  WriteMarkdownFile : string → string → option error;
  (** what becomes of a GET request *)
  http_get : string → api.Exchange;
  (** [Client.UpdateArticle] *)
  UpdateArticle : string → string → string → result api.Article;
  (** the bytes waiting on standard input *)
  Stdin : string
}.

(** Everything the commands can do to the world: the calls of the
    [api.Client] methods, the file operations of package [filesystem], and
    the three standard streams. *)
Inductive event : Type :=
| ApiListKnowledgeBases
| ApiListArticles
| ApiGetArticle (articleID : string)
| ApiCreateArticle (title content : string) (parentID : option string)
| ApiUpdateArticle (articleID title content : string)
| FsWalk (basePath : string)
| FsRead (filePath : string)
| FsWrite (filePath content : string)
| Stdout (text : string)
| Stderr (text : string)
| StdinReadLine.

#[global] Instance event_eq_dec : EqDecision event.
Proof. solve_decision. Defined.

(** ** Package [cmd] *)

Inductive ArticleStatus : Type :=
| StatusUnchanged
| StatusModified
| StatusNewLocal
| StatusDeleted.

#[global] Instance ArticleStatus_eq_dec : EqDecision ArticleStatus.
Proof. solve_decision. Defined.

#[warnings="-register-all"]
Inductive ArticleNode : Type := mkNode {
  ID : string;
  Title : string;
  Status : ArticleStatus;
  Children : list ArticleNode;
  Path : string
}.

Module cmd.
Section commands.
Context {R : GoRuntime}.
Import markdown_codec.

(** *** Shared blocks *)

(** The index loops [m[articles[i].ID] = &articles[i]]. *)
Definition indexByID (articles : list api.Article) : gmap string api.Article :=
  fold_left (λ m a, <[api.ID a := a]> m) articles ∅.

(** The root filter [ParentID == nil || *ParentID == ""]. *)
Definition isRoot (a : api.Article) : bool :=
  match api.ParentID a with
  | None => true
  | Some p => bool_decide (p = "")
  end.

(** The child test [ParentID != nil && *ParentID == article.ID]. *)
Definition isChildOf (article child : api.Article) : bool :=
  bool_decide (api.ParentID child = Some (api.ID article)).

Definition lessOrder (a b : api.Article) : bool :=
  (api.Order a <? api.Order b)%Z.

(** The blocks "find children" and "sort children", the same in
    [buildTreeNode] and in [downloadArticleRecursive]. *)
Definition findChildren (stack : list string) (article : api.Article)
    (articlesByID : gmap string api.Article) : list api.Article :=
  filter (λ child, isChildOf article child = true)
         (snd <$> range_map (SiteChildren stack) articlesByID).

Definition sortedChildren (stack : list string) (article : api.Article)
    (articlesByID : gmap string api.Article) : list api.Article :=
  sort_Slice lessOrder (findChildren stack article articlesByID).

Definition sortedRoots (articles : list api.Article) : list api.Article :=
  sort_Slice lessOrder (filter (λ a, isRoot a = true) articles).

(** *** diff *)

(** The loop "load local files" of [runDiff]. *)
Definition loadLocalStep
    (w : World)
    (acc : gmap string markdown.MarkdownFile * gmap string string
           * gmap string markdown.MarkdownFile)
    (filePath : string) :=
  let '(localByID, localPaths, localByPath) := acc in
  match ReadMarkdownFile w filePath with
  | Err _ => acc
  | Ok content =>
      match ParseMarkdown content with
      | Err _ => acc
      | Ok md =>
          let id := markdown.ID (markdown.Frontmatter_ md) in
          if bool_decide (id ≠ "")
          then (<[id := md]> localByID, <[id := filePath]> localPaths, localByPath)
          else (localByID, localPaths, <[filePath := md]> localByPath)
      end
  end.

Definition loadLocal (w : World) (localFiles : list string) :=
  fold_left (loadLocalStep w) localFiles (∅, ∅, ∅).

(** The loop "check server articles" of [runDiff]. *)
Definition statusStep
    (localByID : gmap string markdown.MarkdownFile)
    (localPaths : gmap string string)
    (acc : gmap string ArticleStatus * gmap string string * gmap string string)
    (entry : string * api.Article) :=
  let '(articleStatus, articleTitles, articlePaths) := acc in
  let '(id, article) := entry in
  let articleTitles := <[id := api.Title article]> articleTitles in
  match localByID !! id with
  | Some localMD =>
      let localContent := strings_TrimSpace (markdown.Content localMD) in
      let serverContent := strings_TrimSpace (api.Content article) in
      let articleStatus :=
        if bool_decide (localContent ≠ serverContent)
        then <[id := StatusModified]> articleStatus
        else <[id := StatusUnchanged]> articleStatus in
      let articlePaths :=
        match localPaths !! id with
        | Some path => <[id := path]> articlePaths
        | None => articlePaths
        end in
      (articleStatus, articleTitles, articlePaths)
  | None => (<[id := StatusDeleted]> articleStatus, articleTitles, articlePaths)
  end.

Definition checkServerArticles
    (localByID : gmap string markdown.MarkdownFile)
    (localPaths : gmap string string)
    (serverByID : gmap string api.Article) :=
  fold_left (statusStep localByID localPaths)
            (range_map SiteDiffStatus serverByID) (∅, ∅, ∅).

(** [buildTreeNode]. The recursion of the source has no bound of its own;
    [fuel] bounds its depth and [None] means the bound was reached. *)
Fixpoint buildTreeNode (fuel : nat) (stack : list string)
    (article : api.Article)
    (articlesByID : gmap string api.Article)
    (articleStatus : gmap string ArticleStatus)
    (articleTitles articlePaths : gmap string string)
    : option ArticleNode :=
  match fuel with
  | 0 => None
  | S fuel' =>
      let here := api.ID article :: stack in
      let children := sortedChildren here article articlesByID in
      childNodes ← mapM (λ child, buildTreeNode fuel' here child articlesByID
                                    articleStatus articleTitles articlePaths)
                        children;
      Some {| ID := api.ID article;
              Title := api.Title article;
              Status := default StatusUnchanged (articleStatus !! api.ID article);
              Children := childNodes;
              Path := default "" (articlePaths !! api.ID article) |}
  end.

(** The blocks "find root articles", "sort root articles" and "build tree
    nodes" of [runDiff]. *)
Definition buildRootNodes (fuel : nat) (serverArticles : list api.Article)
    (articleStatus : gmap string ArticleStatus)
    (articleTitles articlePaths : gmap string string)
    : option (list ArticleNode) :=
  let articlesByID := indexByID serverArticles in
  mapM (λ article, buildTreeNode fuel [] article articlesByID
                     articleStatus articleTitles articlePaths)
       (sortedRoots serverArticles).

(** [findNodeByPath]. The source returns a pointer into the forest; the
    pointer is the address of the node: the positions to follow from the
    list of roots down through the [Children] slices. *)
Definition matchesDir (node : ArticleNode) (targetPath : string) : bool :=
  bool_decide (Path node ≠ "")
  && bool_decide (filepath_Dir (Path node) = targetPath).

Fixpoint findInNode (node : ArticleNode) (targetPath : string)
    : option (list nat) :=
  if matchesDir node targetPath then Some []
  else
    (fix findInNodes (nodes : list ArticleNode) (i : nat) : option (list nat) :=
       match nodes with
       | [] => None
       | child :: rest =>
           match findInNode child targetPath with
           | Some addr => Some (i :: addr)
           | None => findInNodes rest (S i)
           end
       end) (Children node) 0.

Fixpoint findNodesFrom (nodes : list ArticleNode) (i : nat)
    (targetPath : string) : option (list nat) :=
  match nodes with
  | [] => None
  | node :: rest =>
      match findInNode node targetPath with
      | Some addr => Some (i :: addr)
      | None => findNodesFrom rest (S i) targetPath
      end
  end.

Definition findNodeByPath (nodes : list ArticleNode) (targetPath : string)
    : option (list nat) :=
  findNodesFrom nodes 0 targetPath.

(** Dereferencing an address. *)
Fixpoint nodeAt (nodes : list ArticleNode) (addr : list nat)
    : option ArticleNode :=
  match addr with
  | [] => None
  | i :: addr' =>
      match nodes !! i with
      | None => None
      | Some node =>
          match addr' with
          | [] => Some node
          | _ => nodeAt (Children node) addr'
          end
      end
  end.

Definition withChildren (node : ArticleNode) (children : list ArticleNode)
    : ArticleNode :=
  {| ID := ID node; Title := Title node; Status := Status node;
     Children := children; Path := Path node |}.

(** [parentNode.Children = append(parentNode.Children, node)] through the
    pointer [parentNode]. *)
Fixpoint appendChild (nodes : list ArticleNode) (addr : list nat)
    (new : ArticleNode) : list ArticleNode :=
  match addr with
  | [] => nodes
  | i :: addr' =>
      match nodes !! i with
      | None => nodes
      | Some node =>
          match addr' with
          | [] => <[i := withChildren node (Children node ++ [new])]> nodes
          | _ => <[i := withChildren node (appendChild (Children node) addr' new)]> nodes
          end
      end
  end.

Definition newLocalNode (path : string) (md : markdown.MarkdownFile)
    : ArticleNode :=
  {| ID := "";
     Title := markdown.Title (markdown.Frontmatter_ md);
     Status := StatusNewLocal;
     Children := [];
     Path := path |}.

(** One round of the loop "add new local articles" of [runDiff]. *)
Definition addNewLocal (rootNodes : list ArticleNode)
    (entry : string * markdown.MarkdownFile) : list ArticleNode :=
  let '(path, md) := entry in
  let dir := filepath_Dir path in
  let node := newLocalNode path md in
  if bool_decide (dir = ".") then rootNodes ++ [node]
  else
    match findNodeByPath rootNodes dir with
    | Some parentNode => appendChild rootNodes parentNode node
    | None => rootNodes ++ [node]
    end.

Definition addNewLocals (rootNodes : list ArticleNode)
    (localByPath : gmap string markdown.MarkdownFile) : list ArticleNode :=
  fold_left addNewLocal (range_map SiteDiffNewLocal localByPath) rootNodes.

Definition lessTitle (a b : ArticleNode) : bool :=
  String.ltb (Title a) (Title b).

(** [runDiff], up to the forest handed to [displayTree]. [None]: the
    recursion bound of [buildTreeNode] was reached. *)
Definition runDiff (fuel : nat) (cfg : api.Config) (w : World)
    : option (result (list ArticleNode)) :=
  match FindMarkdownFiles w with
  | Err e => Some (Err ("failed to find local files: " +:+ e))
  | Ok localFiles =>
      match api.ListArticles cfg (http_get w) with
      | Err e => Some (Err ("failed to list server articles: " +:+ e))
      | Ok serverArticles =>
          let '(localByID, localPaths, localByPath) := loadLocal w localFiles in
          let serverByID := indexByID serverArticles in
          let '(articleStatus, articleTitles, articlePaths) :=
            checkServerArticles localByID localPaths serverByID in
          rootNodes ← buildRootNodes fuel serverArticles
                        articleStatus articleTitles articlePaths;
          let rootNodes := addNewLocals rootNodes localByPath in
          Some (Ok (sort_Slice lessTitle rootNodes))
      end
  end.

(** *** download *)

(** A [for] loop over a slice whose body may return an error: the loop
    stops at the first error. [None]: some round reached the recursion
    bound. *)
Fixpoint forEach {A : Type} (body : A → option (list event * option error))
    (l : list A) : option (list event * option error) :=
  match l with
  | [] => Some ([], None)
  | x :: rest =>
      match body x with
      | None => None
      | Some (ev, Some e) => Some (ev, Some e)
      | Some (ev, None) =>
          match forEach body rest with
          | None => None
          | Some (ev', r) => Some (ev ++ ev', r)
          end
      end
  end.

(** [downloadArticleRecursive]; [fuel] as in [buildTreeNode]. *)
Fixpoint downloadArticleRecursive (fuel : nat) (w : World)
    (stack : list string) (article : api.Article) (basePath : string)
    (articlesByID : gmap string api.Article)
    : option (list event * option error) :=
  match fuel with
  | 0 => None
  | S fuel' =>
      let sanitizedTitle := filesystem.SanitizeFilename (api.Title article) in
      let filePath := filepath_Join basePath (sanitizedTitle +:+ ".md") in
      let announce :=
        Stdout ("Downloading: " +:+ api.Title article +:+ " -> " +:+ filePath +:+ nl) in
      let frontmatter :=
        {| markdown.ID := api.ID article;
           markdown.Title := api.Title article;
           markdown.URL := api.URL article |} in
      match WriteMarkdown frontmatter (api.Content article) with
      | Err e => Some ([announce], Some ("failed to write markdown: " +:+ e))
      | Ok content =>
          match WriteMarkdownFile w filePath content with
          | Some e =>
              Some ([announce; FsWrite filePath content],
                    Some ("failed to write file " +:+ filePath +:+ ": " +:+ e))
          | None =>
              let here := api.ID article :: stack in
              let children := sortedChildren here article articlesByID in
              if 0 <? length children then
                let childDir := filepath_Join basePath sanitizedTitle in
                let folder :=
                  Stdout ("Creating folder for " +:+ api.Title article +:+ ": "
                          +:+ childDir +:+ " (with " +:+ pretty (length children)
                          +:+ " children)" +:+ nl) in
                match forEach (λ child, downloadArticleRecursive fuel' w here
                                          child childDir articlesByID)
                              children with
                | None => None
                | Some (ev, r) =>
                    Some ([announce; FsWrite filePath content; folder] ++ ev, r)
                end
              else Some ([announce; FsWrite filePath content], None)
          end
      end
  end.

(** The part of [runDownload] that follows a successful listing. *)
Definition downloadArticles (fuel : nat) (w : World)
    (articles : list api.Article) : option (list event * option error) :=
  if bool_decide (length articles = 0)
  then Some ([Stdout ("No articles found." +:+ nl)], None)
  else
    let articlesByID := indexByID articles in
    let rootArticles := sortedRoots articles in
    let found :=
      Stdout ("Found " +:+ pretty (length rootArticles) +:+ " root articles" +:+ nl) in
    let basePath := "." in
    match forEach (λ rootArticle, downloadArticleRecursive fuel w []
                                    rootArticle basePath articlesByID)
                  rootArticles with
    | None => None
    | Some (ev, Some e) => Some ([found] ++ ev, Some e)
    | Some (ev, None) =>
        Some ([found] ++ ev
              ++ [Stdout ("Downloaded " +:+ pretty (length articles)
                          +:+ " articles." +:+ nl)], None)
    end.

Definition runDownload (fuel : nat) (cfg : api.Config) (w : World)
    : option (list event * option error) :=
  let start :=
    [Stdout ("Downloading knowledge base articles..." +:+ nl); ApiListArticles] in
  match api.ListArticles cfg (http_get w) with
  | Err e => Some (start, Some ("failed to list articles: " +:+ e))
  | Ok articles =>
      match downloadArticles fuel w articles with
      | None => None
      | Some (ev, r) => Some (start ++ ev, r)
      end
  end.

(** *** push *)

Definition CannotPush (title : string) : error :=
  "cannot push article without ID: " +:+ title
  +:+ ". Articles must be created manually in YouTrack first".

Definition pushSinglePage (w : World) (filePath : string)
    : list event * option error :=
  let start := [Stdout ("Pushing " +:+ filePath +:+ "..." +:+ nl); FsRead filePath] in
  match ReadMarkdownFile w filePath with
  | Err e => (start, Some ("failed to read file: " +:+ e))
  | Ok content =>
      match ParseMarkdown content with
      | Err e => (start, Some ("failed to parse markdown: " +:+ e))
      | Ok md =>
          let fm := markdown.Frontmatter_ md in
          if bool_decide (markdown.ID fm = "")
          then (start, Some (CannotPush (markdown.Title fm)))
          else
            let call :=
              ApiUpdateArticle (markdown.ID fm) (markdown.Title fm)
                               (markdown.Content md) in
            match UpdateArticle w (markdown.ID fm) (markdown.Title fm)
                                (markdown.Content md) with
            | Err e => (start ++ [call], Some ("failed to update article: " +:+ e))
            | Ok _ =>
                (start ++ [call; Stdout ("Updated: " +:+ markdown.Title fm +:+ nl)],
                 None)
            end
      end
  end.

Record page : Type := mkPage {
  page_id : string;
  page_title : string;
  page_filePath : string
}.

(** The loop "build maps" of [pushAllChanges]. *)
Definition loadByIDStep (w : World)
    (acc : gmap string markdown.MarkdownFile * gmap string string)
    (filePath : string) :=
  let '(localByID, localPaths) := acc in
  match ReadMarkdownFile w filePath with
  | Err _ => acc
  | Ok content =>
      match ParseMarkdown content with
      | Err _ => acc
      | Ok md =>
          let id := markdown.ID (markdown.Frontmatter_ md) in
          if bool_decide (id ≠ "")
          then (<[id := md]> localByID, <[id := filePath]> localPaths)
          else acc
      end
  end.

Definition loadByID (w : World) (localFiles : list string) :=
  fold_left (loadByIDStep w) localFiles (∅, ∅).

(** The loop "collect pages to push". *)
Definition collectStep
    (localPaths : gmap string string)
    (serverByID : gmap string api.Article)
    (pagesToPush : list page)
    (entry : string * markdown.MarkdownFile) : list page :=
  let '(id, localMD) := entry in
  match serverByID !! id with
  | Some serverArticle =>
      let localContent := strings_TrimSpace (markdown.Content localMD) in
      let serverContent := strings_TrimSpace (api.Content serverArticle) in
      if bool_decide (localContent ≠ serverContent)
      then pagesToPush
           ++ [ {| page_id := id;
                   page_title := markdown.Title (markdown.Frontmatter_ localMD);
                   page_filePath := default "" (localPaths !! id) |} ]
      else pagesToPush
  | None => pagesToPush
  end.

Definition collectPages
    (localByID : gmap string markdown.MarkdownFile)
    (localPaths : gmap string string)
    (serverByID : gmap string api.Article) : list page :=
  fold_left (collectStep localPaths serverByID)
            (range_map SitePushCollect localByID) [].

(** The loop "skip new pages". *)
Definition newPagesStep (w : World) (serverByID : gmap string api.Article)
    (newPages : list string) (filePath : string) : list string :=
  match ReadMarkdownFile w filePath with
  | Err _ => newPages
  | Ok content =>
      match ParseMarkdown content with
      | Err _ => newPages
      | Ok md =>
          let id := markdown.ID (markdown.Frontmatter_ md) in
          let existsOnServer := bool_decide (is_Some (serverByID !! id)) in
          let isNew := bool_decide (id = "") || negb existsOnServer in
          if isNew then newPages ++ [filePath] else newPages
      end
  end.

Definition collectNewPages (w : World) (localFiles : list string)
    (serverByID : gmap string api.Article) : list string :=
  fold_left (newPagesStep w serverByID) localFiles [].

(** The printed plan. *)
Fixpoint planLines (i : nat) (pagesToPush : list page) : list event :=
  match pagesToPush with
  | [] => []
  | p :: rest =>
      Stdout ("  " +:+ pretty (i + 1) +:+ ". " +:+ page_title p
              +:+ " (" +:+ page_filePath p +:+ ")" +:+ nl)
      :: planLines (S i) rest
  end.

Definition skippedLines (newPages : list string) : list event :=
  if 0 <? length newPages then
    [Stdout (nl +:+ "⚠️  Skipped " +:+ pretty (length newPages)
             +:+ " new articles (creation not supported):" +:+ nl)]
    ++ ((λ path, Stdout ("   " +:+ path +:+ nl)) <$> newPages)
    ++ [Stdout ("   Create these articles manually in YouTrack first, then download to get their IDs." +:+ nl)]
  else [].

(** One round of the loop "process modified pages". [None]: the lookup
    [localByID[page.id]] yields the nil pointer and the round panics. *)
Definition pushPage (w : World)
    (localByID : gmap string markdown.MarkdownFile) (p : page)
    : option (list event) :=
  localMD ← localByID !! page_id p;
  let title := markdown.Title (markdown.Frontmatter_ localMD) in
  let call := ApiUpdateArticle (page_id p) title (markdown.Content localMD) in
  match UpdateArticle w (page_id p) title (markdown.Content localMD) with
  | Err e => Some [call; Stderr ("Failed to update " +:+ page_title p +:+ ": " +:+ e +:+ nl)]
  | Ok _ => Some [call; Stdout ("Updated: " +:+ page_title p +:+ nl)]
  end.

Definition pushPages (w : World)
    (localByID : gmap string markdown.MarkdownFile) (pagesToPush : list page)
    : option (list event) :=
  evs ← mapM (pushPage w localByID) pagesToPush;
  Some (concat evs).

(** The loop "process deleted pages (warn only)". *)
Definition deletedStep (localByID : gmap string markdown.MarkdownFile)
    (entry : string * api.Article) : list event :=
  let '(id, article) := entry in
  match localByID !! id with
  | Some _ => []
  | None =>
      [ Stdout ("⚠️  Page deleted locally: " +:+ api.Title article +:+ nl);
        Stdout ("   Delete manually at: " +:+ api.URL article +:+ nl) ]
  end.

Definition deletedWarnings
    (localByID : gmap string markdown.MarkdownFile)
    (serverByID : gmap string api.Article) : list event :=
  concat (deletedStep localByID <$> range_map SitePushDeleted serverByID).

Definition confirmed (response : string) : bool :=
  let response := strings_TrimSpace (strings_ToLower response) in
  negb (bool_decide (response ≠ "y") && bool_decide (response ≠ "yes")).

(** What [pushAllChanges] does before it looks at the differences: the
    walk, the listing, and the two passes that read every file. *)
Definition scannedEvents (localFiles : list string) : list event :=
  [FsWalk "."; ApiListArticles] ++ (FsRead <$> localFiles) ++ (FsRead <$> localFiles).

(** The block "show what will be pushed" and the prompt. *)
Definition planEvents (pagesToPush : list page) (newPages : list string)
    : list event :=
  [Stdout (nl +:+ "Pages to be pushed:" +:+ nl)]
  ++ planLines 0 pagesToPush
  ++ skippedLines newPages
  ++ [Stdout (nl +:+ "Proceed with push? (y/N): "); StdinReadLine].

(** [pushAllChanges]. [None]: a nil pointer was dereferenced. *)
Definition pushAllChanges (cfg : api.Config) (w : World)
    : option (list event * option error) :=
  match FindMarkdownFiles w with
  | Err e => Some ([FsWalk "."], Some ("failed to find local files: " +:+ e))
  | Ok localFiles =>
      match api.ListArticles cfg (http_get w) with
      | Err e =>
          Some ([FsWalk "."; ApiListArticles],
                Some ("failed to list server articles: " +:+ e))
      | Ok serverArticles =>
          let '(localByID, localPaths) := loadByID w localFiles in
          let serverByID := indexByID serverArticles in
          let pagesToPush := collectPages localByID localPaths serverByID in
          let newPages := collectNewPages w localFiles serverByID in
          let scanned := scannedEvents localFiles in
          if bool_decide (length pagesToPush = 0) && bool_decide (length newPages = 0)
          then Some (scanned ++ [Stdout ("No changes to push." +:+ nl)], None)
          else
            let plan := planEvents pagesToPush newPages in
            match strings.ReadString (Stdin w) with
            | (_, Some e) =>
                Some (scanned ++ plan, Some ("failed to read response: " +:+ e))
            | (response, None) =>
                if negb (confirmed response)
                then Some (scanned ++ plan ++ [Stdout ("Push cancelled." +:+ nl)], None)
                else
                  updates ← pushPages w localByID pagesToPush;
                  Some (scanned ++ plan
                        ++ [Stdout (nl +:+ "Pushing changes..." +:+ nl)]
                        ++ updates
                        ++ deletedWarnings localByID serverByID
                        ++ [Stdout (nl +:+ "Push complete." +:+ nl)], None)
            end
      end
  end.

Definition runPush (cfg : api.Config) (w : World) (args : list string)
    : option (list event * option error) :=
  match args with
  | filePath :: _ => Some (pushSinglePage w filePath)
  | [] => pushAllChanges cfg w
  end.

End commands.
End cmd.

(** ** Package [markdown]: rewriting the identifier of a file *)

Module markdown_files.
Section files.
Context {R : GoRuntime}.
Import markdown_codec.

(** [os.ReadFile] and [os.WriteFile(path, data, 0644)]; [None] is the nil
    error. *)
Variable os_ReadFile : string → result string.
Variable os_WriteFile : string → string → option error.

Definition readFile (path : string) : result string :=
  match os_ReadFile path with
  | Err e => Err e
  | Ok data => Ok data
  end.

Definition writeFile (path content : string) : option error :=
  os_WriteFile path content.

(** [UpdateFrontmatterID], with the file operations it performs. *)
Definition UpdateFrontmatterID (filePath articleID : string)
    : list event * option error :=
  match readFile filePath with
  | Err e => ([FsRead filePath], Some e)
  | Ok content =>
      match ParseMarkdown content with
      | Err e => ([FsRead filePath], Some e)
      | Ok md =>
          let frontmatter :=
            {| markdown.ID := articleID;
               markdown.Title := markdown.Title (markdown.Frontmatter_ md);
               markdown.URL := markdown.URL (markdown.Frontmatter_ md) |} in
          match WriteMarkdown frontmatter (markdown.Content md) with
          | Err e => ([FsRead filePath], Some e)
          | Ok newContent =>
              ([FsRead filePath; FsWrite filePath newContent],
               writeFile filePath newContent)
          end
      end
  end.

End files.
End markdown_files.

(** ** Package [filesystem]: looking for the parent of a file *)

Module filesystem_dirs.
Section dirs.
Context {R : GoRuntime}.

(** An [os.DirEntry], as far as the package looks at it. *)
Record DirEntry : Type := mkDirEntry {
  Name : string;
  IsDir : bool
}.

(** [os.ReadDir] *)
Variable os_ReadDir : string → result (list DirEntry).

(** [strings.HasSuffix]: [len(s) >= len(suffix) &&
    s[len(s)-len(suffix):] == suffix]. *)
Definition HasSuffix (s suffix : string) : bool :=
  (String.length suffix <=? String.length s)
  && bool_decide (strings.from (String.length s - String.length suffix) s = suffix).

(** The loop of [findMarkdownInDirectory] over the entries read. *)
Fixpoint firstMarkdown (dirPath : string) (entries : list DirEntry) : string :=
  match entries with
  | [] => ""
  | entry :: rest =>
      if negb (IsDir entry) && HasSuffix (Name entry) ".md"
      then filepath_Join dirPath (Name entry)
      else firstMarkdown dirPath rest
  end.

Definition findMarkdownInDirectory (dirPath : string) : string :=
  match os_ReadDir dirPath with
  | Err _ => ""
  | Ok entries => firstMarkdown dirPath entries
  end.

(** [GetParentIDFromPath]: [None] is the nil pointer. *)
Definition GetParentIDFromPath (filePath : string)
    (articlesByPath : gmap string string) : option string :=
  let dirPath := filepath_Dir filePath in
  if bool_decide (dirPath = ".") || bool_decide (dirPath = "") then None
  else
    let parentFile := findMarkdownInDirectory dirPath in
    if bool_decide (parentFile = "") then None
    else None.

End dirs.
End filesystem_dirs.

(** ** Package [cmd]: the printed tree of [diff] *)

Module cmd_display.
Section display.
Context {R : GoRuntime}.

(** The [switch] on [node.Status]; its [default] branch is not reached by
    the four constants of [ArticleStatus]. *)
Definition icon (status : ArticleStatus) : string :=
  match status with
  | StatusUnchanged => ""
  | StatusModified => "✴️"
  | StatusNewLocal => "❇️"
  | StatusDeleted => "❌"
  end.

Definition connector (isLastChild : bool) : string :=
  if isLastChild then "└── " else "├── ".

Definition isLastOf (rest : list ArticleNode) : bool :=
  match rest with
  | [] => true
  | _ :: _ => false
  end.

(** One round of the loop of [displayTree], for [node] followed by the
    nodes [rest]: [isLastChild] is [i == len(nodes)-1]. *)
Fixpoint displayNode (node : ArticleNode) (prefix : string)
    (isLast isLastChild : bool) : list event :=
  let currentPrefix :=
    if negb isLast then prefix +:+ "│   " else prefix +:+ "    " in
  Stdout (prefix +:+ connector isLastChild +:+ icon (Status node)
          +:+ " " +:+ Title node +:+ nl)
  :: (fix displayNodes (nodes : list ArticleNode) : list event :=
        match nodes with
        | [] => []
        | child :: rest =>
            displayNode child currentPrefix isLastChild (isLastOf rest)
            ++ displayNodes rest
        end) (Children node).

Fixpoint displayTree (nodes : list ArticleNode) (prefix : string)
    (isLast : bool) : list event :=
  match nodes with
  | [] => []
  | node :: rest =>
      displayNode node prefix isLast (isLastOf rest)
      ++ displayTree rest prefix isLast
  end.

(** [runDiff] with everything it does to the world; [cmd.runDiff] is the
    forest it hands to [displayTree]. *)
Definition runDiff (fuel : nat) (cfg : api.Config) (w : World)
    : option (list event * option error) :=
  let start :=
    [Stdout ("Comparing local files with server..." +:+ nl); FsWalk "."] in
  match FindMarkdownFiles w with
  | Err e => Some (start, Some ("failed to find local files: " +:+ e))
  | Ok localFiles =>
      match api.ListArticles cfg (http_get w) with
      | Err e =>
          Some (start ++ [ApiListArticles],
                Some ("failed to list server articles: " +:+ e))
      | Ok serverArticles =>
          let '(localByID, localPaths, localByPath) :=
            cmd.loadLocal w localFiles in
          let serverByID := cmd.indexByID serverArticles in
          let '(articleStatus, articleTitles, articlePaths) :=
            cmd.checkServerArticles localByID localPaths serverByID in
          rootNodes ← cmd.buildRootNodes fuel serverArticles
                        articleStatus articleTitles articlePaths;
          let rootNodes := cmd.addNewLocals rootNodes localByPath in
          let rootNodes := sort_Slice cmd.lessTitle rootNodes in
          Some (start ++ [ApiListArticles] ++ (FsRead <$> localFiles)
                ++ [Stdout (nl +:+ "Article Tree:" +:+ nl)]
                ++ displayTree rootNodes "" true, None)
      end
  end.

End display.
End cmd_display.

(** ** Package [config]: choosing the knowledge base *)

Module config.
Section config.
Context {R : GoRuntime}.

Record KnowledgeBase : Type := mkKnowledgeBase {
  Key : string;
  Name : string
}.

(** The [project] object of an element of the articles response. *)
Record Project : Type := mkProject {
  pID : string;
  pName : string
}.

(** An HTTP answer: status code, raw body, and what the JSON decoder makes
    of the body as a list of knowledge bases and as a list of articles with
    their project. *)
Record Response : Type := mkResponse {
  StatusCode : nat;
  Body : string;
  DecodedBases : result (list KnowledgeBase);
  DecodedProjects : result (list Project)
}.

Inductive Exchange : Type :=
| RequestRefused (e : error)
| DoFailed (e : error)
| Answered (resp : Response).

(** The order in which [range projectMap] visits the map. *)
Variable range_projects : gmap string string → list (string * string).

(** [fmt.Sscanf(s, "%d", &result)] *)
Variable fmt_Sscanf_int : string → result Z.

(** [os.WriteFile(name, data, 0644)]; [None] is the nil error. *)
Variable os_WriteFile : string → string → option error.

(** The loop "extract unique projects". *)
Definition projectStep (projectMap : gmap string string) (article : Project)
    : gmap string string :=
  if bool_decide (pID article ≠ "") && bool_decide (pName article ≠ "")
  then <[pID article := pName article]> projectMap
  else projectMap.

(** [apiClientWrapper.ListKnowledgeBases], given what becomes of its GET
    requests. *)
Definition ListKnowledgeBases (cfg : api.Config) (http : string → Exchange)
    : result (list KnowledgeBase) :=
  let baseURL := strings.TrimSuffixSlash (api.cfgURL cfg) in
  let url := baseURL +:+ "/api/knowledgeBases" in
  match http url with
  | RequestRefused e => Err ("failed to create request: " +:+ e)
  | DoFailed e => Err ("failed to make request to " +:+ url +:+ ": " +:+ e)
  | Answered resp =>
      if bool_decide (StatusCode resp = 200)
      then match DecodedBases resp with
           | Err e => Err ("failed to decode response: " +:+ e)
           | Ok bases => Ok bases
           end
      else
        let url := baseURL +:+ "/api/articles?fields=project(id,name)&$top=1000" in
        match http url with
        | RequestRefused e => Err ("failed to create request: " +:+ e)
        | DoFailed e => Err ("failed to make request to " +:+ url +:+ ": " +:+ e)
        | Answered resp =>
            if bool_decide (StatusCode resp ≠ 200)
            then Err ("API returned status " +:+ pretty (StatusCode resp)
                      +:+ ": " +:+ Body resp)
            else match DecodedProjects resp with
                 | Err e => Err ("failed to decode response: " +:+ e)
                 | Ok articles =>
                     let projectMap := fold_left projectStep articles ∅ in
                     Ok ((λ entry : string * string,
                            {| Key := entry.1; Name := entry.2 |})
                           <$> range_projects projectMap)
                 end
        end
  end.

Definition withKBKey (cfg : api.Config) (kbKey : string) : api.Config :=
  {| api.Token := api.Token cfg; api.cfgURL := api.cfgURL cfg; api.KBKey := kbKey |}.

(** The block "save to .env" that ends both prompts. *)
Definition saveKBKey (before : list event) (cfg : api.Config) (kbKey : string)
    : list event * api.Config * option error :=
  let cfg := withKBKey cfg kbKey in
  let envContent := "KB_KEY=" +:+ kbKey +:+ nl in
  match os_WriteFile ".env" envContent with
  | Some e =>
      (before ++ [FsWrite ".env" envContent], cfg,
       Some ("failed to save .env file: " +:+ e))
  | None =>
      (before ++ [FsWrite ".env" envContent; Stdout ("KB_KEY saved to .env" +:+ nl)],
       cfg, None)
  end.

(** [promptForKBKey]: the events, the configuration as the function leaves
    it, and the error returned. *)
Definition promptForKBKey (before : list event) (cfg : api.Config) (stdin : string)
    : list event * api.Config * option error :=
  let asked := before ++ [Stdout "Enter Knowledge Base KEY: "; StdinReadLine] in
  match strings.ReadString stdin with
  | (_, Some e) => (asked, cfg, Some ("failed to read KB_KEY: " +:+ e))
  | (kbKey, None) => saveKBKey asked cfg (strings_TrimSpace kbKey)
  end.

(** The lines of the list of knowledge bases. *)
Fixpoint baseLines (i : nat) (bases : list KnowledgeBase) : list event :=
  match bases with
  | [] => []
  | kb :: rest =>
      Stdout ("  " +:+ pretty (i + 1) +:+ ". " +:+ Name kb
              +:+ " (key: " +:+ Key kb +:+ ")" +:+ nl)
      :: baseLines (S i) rest
  end.

(** [selectKnowledgeBaseInteractive]. [None]: the index [bases[num-1]] is
    out of range and the function panics. *)
Definition selectKnowledgeBaseInteractive (cfg : api.Config)
    (http : string → Exchange) (stdin : string)
    : option (list event * api.Config * option error) :=
  let start :=
    [Stdout (".env file not found. Let's select a knowledge base." +:+ nl);
     ApiListKnowledgeBases] in
  match ListKnowledgeBases cfg http with
  | Err e =>
      Some (promptForKBKey
              (start ++ [Stdout ("Could not list knowledge bases: " +:+ e +:+ nl);
                         Stdout ("Please enter KB_KEY manually." +:+ nl)])
              cfg stdin)
  | Ok bases =>
      if bool_decide (length bases = 0)
      then Some (promptForKBKey
                   (start ++ [Stdout ("No knowledge bases found." +:+ nl)]) cfg stdin)
      else
        let asked :=
          start ++ [Stdout (nl +:+ "Available knowledge bases:" +:+ nl)]
          ++ baseLines 0 bases
          ++ [Stdout (nl +:+ "Enter number or KB_KEY: "); StdinReadLine] in
        match strings.ReadString stdin with
        | (_, Some e) => Some (asked, cfg, Some ("failed to read input: " +:+ e))
        | (input, None) =>
            let input := strings_TrimSpace input in
            match fmt_Sscanf_int input with
            | Ok num =>
                if bool_decide (0 < num)%Z
                   && bool_decide (num ≤ Z.of_nat (length bases))%Z
                then kb ← bases !! Z.to_nat (num - 1);
                     Some (saveKBKey asked cfg (Key kb))
                else Some (saveKBKey asked cfg input)
            | Err _ => Some (saveKBKey asked cfg input)
            end
        end
  end.

End config.
End config.

(** ** A reference runtime

    One concrete [GoRuntime], used to run the commands on examples. It is
    byte-exact on ASCII text: [TrimSpace] and [ToLower] treat the ASCII
    white space and letters, [Dir] and [Join] clean slash-separated paths
    the way [path/filepath] documents it, [sort.Slice] is the insertion sort
    that package [sort] runs on slices shorter than twelve elements, and a
    map is ranged over in the order of [map_to_list]. The YAML codec covers
    the fragment the examples use: a scalar made of letters, digits, [-],
    [_], [.], [/], inner blanks and colons followed by a byte that is not a
    blank, at most forty bytes long, that starts with a letter and is none
    of the words YAML reads as a boolean, null or number, is written plain
    ([key: value]); anything else is outside the fragment and is answered
    with an error. *)

Module GoModel.

Definition isSpace (c : ascii) : bool :=
  let n := nat_of_ascii c in
  (n =? 9) || (n =? 10) || (n =? 11) || (n =? 12) || (n =? 13) || (n =? 32).

Fixpoint trimLeft (s : string) : string :=
  match s with
  | String c s' => if isSpace c then trimLeft s' else s
  | EmptyString => EmptyString
  end.

Fixpoint trimRight (s : string) : string :=
  match s with
  | EmptyString => EmptyString
  | String c s' =>
      match trimRight s' with
      | EmptyString => if isSpace c then EmptyString else String c EmptyString
      | t => String c t
      end
  end.

Definition TrimSpace (s : string) : string := trimRight (trimLeft s).

Definition lowerByte (c : ascii) : ascii :=
  let n := nat_of_ascii c in
  if (65 <=? n) && (n <=? 90) then ascii_of_nat (n + 32) else c.

Fixpoint ToLower (s : string) : string :=
  match s with
  | EmptyString => EmptyString
  | String c s' => String (lowerByte c) (ToLower s')
  end.

(** *** Paths *)

(** The elements of a path between slashes, the last one included. *)
Fixpoint splitSlash (s : string) (cur : string) : list string :=
  match s with
  | EmptyString => [cur]
  | String c s' =>
      if Ascii.eqb c "/"%char then cur :: splitSlash s' EmptyString
      else splitSlash s' (cur +:+ String c EmptyString)
  end.

(** [out] holds the elements kept so far, innermost first. *)
Fixpoint cleanElems (rooted : bool) (elems out : list string) : list string :=
  match elems with
  | [] => reverse out
  | e :: rest =>
      if bool_decide (e = "") || bool_decide (e = ".") then cleanElems rooted rest out
      else if bool_decide (e = "..") then
        match out with
        | top :: out' =>
            if bool_decide (top = "..") then cleanElems rooted rest (e :: out)
            else cleanElems rooted rest out'
        | [] => if rooted then cleanElems rooted rest out
                else cleanElems rooted rest (e :: out)
        end
      else cleanElems rooted rest (e :: out)
  end.

Fixpoint joinSlash (elems : list string) : string :=
  match elems with
  | [] => ""
  | [e] => e
  | e :: rest => e +:+ "/" +:+ joinSlash rest
  end.

Definition Clean (path : string) : string :=
  let rooted := strings.HasPrefix path "/" in
  let body := joinSlash (cleanElems rooted (splitSlash path "") []) in
  if rooted then "/" +:+ body
  else if bool_decide (body = "") then "." else body.

(** The part of a path up to and including its last slash. *)
Definition dirPart (path : string) : string :=
  match reverse (splitSlash path "") with
  | [] => ""
  | _ :: init => joinSlash (reverse ("" :: init))
  end.

Definition Dir (path : string) : string := Clean (dirPart path).

Definition Join (a b : string) : string :=
  if bool_decide (a = "") && bool_decide (b = "") then ""
  else if bool_decide (a = "") then Clean b
  else if bool_decide (b = "") then Clean a
  else Clean (a +:+ "/" +:+ b).

(** *** The YAML fragment *)

Definition isLetter (c : ascii) : bool :=
  let n := nat_of_ascii c in
  ((65 <=? n) && (n <=? 90)) || ((97 <=? n) && (n <=? 122)).

Definition isPlainByte (c : ascii) : bool :=
  let n := nat_of_ascii c in
  isLetter c || ((48 <=? n) && (n <=? 57))
  || (n =? 45) || (n =? 95) || (n =? 32) || (n =? 46) || (n =? 47).

(** A colon is plain when a byte other than a blank follows it. *)
Fixpoint allPlain (s : string) : bool :=
  match s with
  | EmptyString => true
  | String c s' =>
      if Ascii.eqb c ":"%char then
        match s' with
        | EmptyString => false
        | String d _ => negb (isSpace d) && allPlain s'
        end
      else isPlainByte c && allPlain s'
  end.

Definition reservedWords : list string :=
  ["true"; "false"; "yes"; "no"; "on"; "off"; "y"; "n"; "null"; "nan"; "inf"].

Definition plainScalar (s : string) : bool :=
  match s with
  | EmptyString => false
  | String c _ =>
      isLetter c && allPlain s && (String.length s <=? 40)
      && bool_decide (TrimSpace s = s)
      && bool_decide (ToLower s ∉ reservedWords)
  end.

Definition field (key value : string) : result string :=
  if plainScalar value then Ok (key +:+ ": " +:+ value +:+ nl)
  else Err ("yaml: scalar outside the modelled fragment: " +:+ value).

(** A field tagged [omitempty] is left out when it is empty. *)
Definition fieldOmitEmpty (key value : string) : result string :=
  if bool_decide (value = "") then Ok "" else field key value.

Definition Marshal (fm : markdown.Frontmatter) : result string :=
  match fieldOmitEmpty "id" (markdown.ID fm),
        field "title" (markdown.Title fm),
        fieldOmitEmpty "url" (markdown.URL fm) with
  | Ok i, Ok t, Ok u => Ok (i +:+ t +:+ u)
  | Err e, _, _ | _, Err e, _ | _, _, Err e => Err e
  end.

Fixpoint splitLines (s : string) (cur : string) : list string :=
  match s with
  | EmptyString => [cur]
  | String c s' =>
      if Ascii.eqb c "010"%char then cur :: splitLines s' EmptyString
      else splitLines s' (cur +:+ String c EmptyString)
  end.

Definition setField (fm : markdown.Frontmatter) (line : string)
    : result markdown.Frontmatter :=
  if bool_decide (line = "") then Ok fm
  else if strings.HasPrefix line "id: " && plainScalar (strings.from 4 line)
  then Ok {| markdown.ID := strings.from 4 line;
             markdown.Title := markdown.Title fm;
             markdown.URL := markdown.URL fm |}
  else if strings.HasPrefix line "title: " && plainScalar (strings.from 7 line)
  then Ok {| markdown.ID := markdown.ID fm;
             markdown.Title := strings.from 7 line;
             markdown.URL := markdown.URL fm |}
  else if strings.HasPrefix line "url: " && plainScalar (strings.from 5 line)
  then Ok {| markdown.ID := markdown.ID fm;
             markdown.Title := markdown.Title fm;
             markdown.URL := strings.from 5 line |}
  else Err ("yaml: line outside the modelled fragment: " +:+ line).

Definition Unmarshal (text : string) : result markdown.Frontmatter :=
  fold_left (λ acc line, match acc with
                         | Ok fm => setField fm line
                         | Err e => Err e
                         end)
            (splitLines text "")
            (Ok {| markdown.ID := ""; markdown.Title := ""; markdown.URL := "" |}).

(** *** Sorting: [insertionSortLessFunc] of package [sort] *)

(** [sorted] is the part of the slice already in order, last element
    first; the new element moves towards the front while it is smaller
    than its neighbour. *)
Fixpoint insertBack {A} (less : A → A → bool) (x : A) (sorted : list A) : list A :=
  match sorted with
  | [] => [x]
  | y :: rest => if less x y then y :: insertBack less x rest else x :: y :: rest
  end.

Definition insertionSort {A} (less : A → A → bool) (l : list A) : list A :=
  reverse (fold_left (λ sorted x, insertBack less x sorted) l []).

#[global] Instance runtime : GoRuntime := {|
  strings_TrimSpace := TrimSpace;
  strings_ToLower := ToLower;
  filepath_Dir := Dir;
  filepath_Join := Join;
  yaml_Marshal := Marshal;
  yaml_Unmarshal := Unmarshal;
  sort_Slice := @insertionSort;
  range_map := λ V _ m, map_to_list m
|}.

End GoModel.

(** * Properties *)

(** ** The reference runtime obeys the laws *)

Section insertion_sort.
Context {A : Type} (less : A → A → bool).

Lemma insertBack_perm (x : A) (sorted : list A) :
  GoModel.insertBack less x sorted ≡ₚ x :: sorted.
Proof.
  induction sorted as [|y rest IH]; simpl; [done|].
  destruct (less x y); [|done].
  rewrite IH. apply Permutation_swap.
Qed.

Lemma insertion_fold_perm (l sorted : list A) :
  fold_left (λ acc x, GoModel.insertBack less x acc) l sorted ≡ₚ l ++ sorted.
Proof.
  revert sorted. induction l as [|x l IH]; intros sorted; simpl; [done|].
  rewrite IH, insertBack_perm. by rewrite Permutation_middle.
Qed.

Lemma insertionSort_perm (l : list A) : GoModel.insertionSort less l ≡ₚ l.
Proof.
  unfold GoModel.insertionSort.
  rewrite reverse_Permutation, insertion_fold_perm. by rewrite app_nil_r.
Qed.
End insertion_sort.

Section insertion_sort_key.
Context {A : Type} (key : A → Z).

Let less (x y : A) : bool := (key x <? key y)%Z.
Let descending (x y : A) : Prop := (key y ≤ key x)%Z.
Let ascending (x y : A) : Prop := (key x ≤ key y)%Z.

Lemma insertBack_descending (x : A) (sorted : list A) :
  StronglySorted descending sorted →
  StronglySorted descending (GoModel.insertBack less x sorted).
Proof.
  induction 1 as [|y rest Hrest IH Hy]; simpl.
  - repeat constructor.
  - unfold less at 1. destruct (Z.ltb_spec (key x) (key y)) as [Hlt|Hge].
    + constructor; [done|].
      rewrite insertBack_perm. constructor; [unfold descending; lia | done].
    + constructor; [by constructor|].
      constructor; [done|].
      eapply Forall_impl; [exact Hy|]. unfold descending. intros; lia.
Qed.

Lemma insertion_fold_descending (l sorted : list A) :
  StronglySorted descending sorted →
  StronglySorted descending
    (fold_left (λ acc x, GoModel.insertBack less x acc) l sorted).
Proof.
  revert sorted. induction l as [|x l IH]; intros sorted Hs; simpl; [done|].
  apply IH, insertBack_descending, Hs.
Qed.

Lemma descending_reverse (l : list A) :
  StronglySorted descending l → StronglySorted ascending (reverse l).
Proof.
  induction 1 as [|x l Hl IH Hx]; [constructor|].
  rewrite reverse_cons. apply StronglySorted_app; split_and!.
  - intros a b Ha Hb. apply list_elem_of_singleton in Hb as ->.
    rewrite elem_of_reverse in Ha. rewrite Forall_forall in Hx. by apply Hx.
  - done.
  - repeat constructor.
Qed.

Lemma insertionSort_sorted (l : list A) :
  StronglySorted ascending (GoModel.insertionSort less l).
Proof.
  apply descending_reverse, insertion_fold_descending. constructor.
Qed.
End insertion_sort_key.

#[global] Instance GoModel_laws : GoRuntimeLaws GoModel.runtime.
Proof.
  split.
  - intros V s m. reflexivity.
  - intros A less l. apply insertionSort_perm.
  - intros A key l. apply (insertionSort_sorted key).
Qed.

(** ** The remote catalog adapter *)

Lemma convert_Order cfg baseURL ar a :
  api.convert cfg baseURL ar = Some a → api.Order a = 0%Z.
Proof.
  unfold api.convert. case_match; [done|]. by intros [= <-].
Qed.

Lemma convert_ParentID cfg baseURL ar a :
  api.convert cfg baseURL ar = Some a → api.ParentID a ≠ Some "".
Proof.
  unfold api.convert. case_match; [done|]. intros [= <-]; simpl.
  destruct (api.rParent ar) as [pid|]; [|done].
  destruct (decide (pid = "")) as [->|Hp].
  - by rewrite bool_decide_false by (intros Hq; by apply Hq).
  - rewrite bool_decide_true by done. by intros [= ->].
Qed.

Lemma convertAll_Order cfg baseURL ars :
  Forall (λ a, api.Order a = 0%Z) (api.convertAll cfg baseURL ars).
Proof.
  induction ars as [|ar ars IH]; simpl; [constructor|].
  destruct (api.convert cfg baseURL ar) eqn:E; [|done].
  constructor; [by eapply convert_Order | done].
Qed.

Lemma ListArticles_Ok cfg http articles :
  api.ListArticles cfg http = Ok articles →
  ∃ resp ars,
    http (api.articlesURL (strings.TrimSuffixSlash (api.cfgURL cfg)))
      = api.Answered resp
    ∧ api.StatusCode resp = 200
    ∧ api.Decoded resp = Ok ars
    ∧ articles = api.convertAll cfg (strings.TrimSuffixSlash (api.cfgURL cfg)) ars.
Proof.
  unfold api.ListArticles.
  destruct (http _) as [e|e|resp] eqn:Hhttp; [done|done|].
  case_bool_decide as Hst; [done|].
  destruct (api.Decoded resp) as [ars|e] eqn:Hdec; [|done].
  intros [= <-]. exists resp, ars. split_and!; try done.
Qed.

(** ** Indexing articles by identifier *)

Section index.
Implicit Types (articles : list api.Article) (m : gmap string api.Article).

Let ins m (a : api.Article) := <[api.ID a := a]> m.

Lemma index_fold_fresh articles m k :
  k ∉ api.ID <$> articles → fold_left ins articles m !! k = m !! k.
Proof.
  revert m. induction articles as [|x l IH]; intros m Hk; simpl; [done|].
  rewrite fmap_cons, not_elem_of_cons in Hk. destruct Hk as [Hkx Hkl].
  rewrite IH by done. unfold ins. by rewrite lookup_insert_ne.
Qed.

Lemma index_fold_lookup articles m k a :
  fold_left ins articles m !! k = Some a →
  (a ∈ articles ∧ api.ID a = k) ∨ m !! k = Some a.
Proof.
  revert m. induction articles as [|x l IH]; intros m H; simpl in *; [by right|].
  apply IH in H as [[Hin Hid]|H].
  - left. split; [by right | done].
  - unfold ins in H. rewrite lookup_insert in H. case_decide as Hk.
    + injection H as <-. left. split; [by left | done].
    + by right.
Qed.

Lemma index_fold_NoDup articles m a :
  NoDup (api.ID <$> articles) → a ∈ articles →
  fold_left ins articles m !! api.ID a = Some a.
Proof.
  revert m. induction articles as [|x l IH]; intros m Hnd Hin; simpl.
  { by apply elem_of_nil in Hin. }
  rewrite fmap_cons in Hnd. apply NoDup_cons in Hnd as [Hx Hnd].
  apply elem_of_cons in Hin as [->|Hin].
  - rewrite index_fold_fresh by done. unfold ins. by rewrite lookup_insert_eq.
  - by apply IH.
Qed.

Lemma indexByID_lookup articles k a :
  cmd.indexByID articles !! k = Some a → a ∈ articles ∧ api.ID a = k.
Proof.
  intros H. apply index_fold_lookup in H as [H|H]; [done|].
  by rewrite lookup_empty in H.
Qed.

Lemma indexByID_NoDup articles a :
  NoDup (api.ID <$> articles) → a ∈ articles →
  cmd.indexByID articles !! api.ID a = Some a.
Proof. apply index_fold_NoDup. Qed.

Lemma indexByID_None articles k :
  k ∉ api.ID <$> articles → cmd.indexByID articles !! k = None.
Proof.
  intros H. unfold cmd.indexByID. fold ins.
  rewrite index_fold_fresh by done. apply lookup_empty.
Qed.

Lemma indexByID_is_Some articles k :
  is_Some (cmd.indexByID articles !! k) ↔ k ∈ api.ID <$> articles.
Proof.
  split.
  - intros [a Ha]. apply indexByID_lookup in Ha as [Hin <-].
    by apply list_elem_of_fmap_2.
  - intros Hk. destruct (cmd.indexByID articles !! k) eqn:E; [done|].
    exfalso. revert E. unfold cmd.indexByID. generalize (∅ : gmap string api.Article).
    induction articles as [|x l IH]; intros m; simpl.
    { by apply elem_of_nil in Hk. }
    rewrite fmap_cons in Hk.
    destruct (decide (k ∈ api.ID <$> l)) as [Hl|Hl]; [by apply IH|].
    apply elem_of_cons in Hk as [->|Hk]; [|done].
    fold ins. rewrite index_fold_fresh by done.
    by rewrite lookup_insert_eq.
Qed.
End index.

(** ** Ranging over a map *)

Section ranging.
Context {R : GoRuntime} {L : GoRuntimeLaws R}.

Lemma range_map_elem {V} (s : site) (m : gmap string V) k v :
  (k, v) ∈ range_map s m ↔ m !! k = Some v.
Proof. rewrite range_map_perm. apply elem_of_map_to_list. Qed.

Lemma range_map_NoDup_keys {V} (s : site) (m : gmap string V) :
  NoDup (range_map s m).*1.
Proof. rewrite range_map_perm. apply NoDup_fst_map_to_list. Qed.

Lemma range_map_NoDup {V} (s : site) (m : gmap string V) :
  NoDup (range_map s m).
Proof. eapply NoDup_fmap_1, range_map_NoDup_keys. Qed.
End ranging.

(** C10. Every article returned by a successful [ListArticles] has [Order]
    0: the adapter never fills the sibling sort key from the service.
    Hence the comparison handed to [sort.Slice] by the diff and download
    commands is false on every pair of returned articles, and the slices
    they sort (the roots, and the children found for any article) hold only
    such articles. *)
Theorem C10_ListArticles_order_zero
    {R : GoRuntime} {L : GoRuntimeLaws R}
    (cfg : api.Config) (http : string → api.Exchange)
    (articles : list api.Article) :
  api.ListArticles cfg http = Ok articles →
  Forall (λ a, api.Order a = 0%Z) articles
  ∧ (∀ a b, a ∈ articles → b ∈ articles → cmd.lessOrder a b = false)
  ∧ (∀ a, a ∈ filter (λ a, cmd.isRoot a = true) articles → api.Order a = 0%Z)
  ∧ (∀ stack article a,
       a ∈ cmd.findChildren stack article (cmd.indexByID articles) →
       api.Order a = 0%Z).
Proof.
  intros H. apply ListArticles_Ok in H as (resp & ars & _ & _ & _ & ->).
  pose proof (convertAll_Order cfg (strings.TrimSuffixSlash (api.cfgURL cfg)) ars) as Hall.
  rewrite Forall_forall in Hall.
  split_and!.
  - by apply Forall_forall.
  - intros a b Ha Hb. unfold cmd.lessOrder.
    rewrite (Hall a Ha), (Hall b Hb). reflexivity.
  - intros a Ha. apply list_elem_of_filter in Ha as [_ Ha]. by apply Hall.
  - intros stack article a Ha. unfold cmd.findChildren in Ha.
    apply list_elem_of_filter in Ha as [_ Ha].
    apply list_elem_of_fmap in Ha as ([k v] & -> & Hkv).
    apply range_map_elem in Hkv. apply indexByID_lookup in Hkv as [Hin _].
    by apply Hall.
Qed.

(** ** Reading a trace *)

Definition isApiCall (e : event) : bool :=
  match e with
  | ApiListKnowledgeBases | ApiListArticles | ApiGetArticle _
  | ApiCreateArticle _ _ _ | ApiUpdateArticle _ _ _ => true
  | _ => false
  end.

Definition isUpdateCall (e : event) : bool :=
  match e with ApiUpdateArticle _ _ _ => true | _ => false end.

Definition isFileWrite (e : event) : bool :=
  match e with FsWrite _ _ => true | _ => false end.

Definition apiCalls (ev : list event) : list event :=
  filter (λ e, isApiCall e = true) ev.

Definition updateCalls (ev : list event) : list event :=
  filter (λ e, isUpdateCall e = true) ev.

Definition fileWrites (ev : list event) : list event :=
  filter (λ e, isFileWrite e = true) ev.

(** ** Example data *)

Module Examples.

Definition line (s : string) : string := s +:+ nl.

Definition cfg : api.Config :=
  {| api.Token := "perm-token"; api.cfgURL := "https://yt.example/"; api.KBKey := "KB" |}.

Definition responses : list api.ArticleResponse :=
  [ {| api.rID := "A-1"; api.rSummary := "Intro"; api.rContent := "x";
       api.rParent := None; api.rProjectID := "0-1"; api.rProjectName := "KB" |};
    {| api.rID := "A-2"; api.rSummary := "Setup"; api.rContent := "y";
       api.rParent := Some "A-1"; api.rProjectID := "KB"; api.rProjectName := "Docs" |};
    {| api.rID := "B-7"; api.rSummary := "Elsewhere"; api.rContent := "q";
       api.rParent := None; api.rProjectID := "0-2"; api.rProjectName := "Other" |} ].

Definition http (url : string) : api.Exchange :=
  if bool_decide (url = api.articlesURL "https://yt.example")
  then api.Answered
         {| api.StatusCode := 200; api.Body := ""; api.Decoded := Ok responses |}
  else api.DoFailed "no such host".

Definition articles : list api.Article :=
  [ {| api.ID := "A-1"; api.Title := "Intro"; api.Content := "x";
       api.ParentID := None; api.Order := 0%Z;
       api.URL := "https://yt.example/articles/A-1" |};
    {| api.ID := "A-2"; api.Title := "Setup"; api.Content := "y";
       api.ParentID := Some "A-1"; api.Order := 0%Z;
       api.URL := "https://yt.example/articles/A-2" |} ].

(** Local files: [Intro.md] equals the remote text, [Intro/Setup.md] was
    edited, [Intro/Draft.md] has no identifier, [notes.md] is not a
    markdown document with frontmatter. *)
Definition file (id title body : string) : string :=
  line "---"
  +:+ (if bool_decide (id = "") then "" else line ("id: " +:+ id))
  +:+ line ("title: " +:+ title)
  +:+ line "---" +:+ body.

Definition disk (path : string) : result string :=
  if bool_decide (path = "Intro.md") then Ok (file "A-1" "Intro" (line "x"))
  else if bool_decide (path = "Intro/Setup.md") then Ok (file "A-2" "Setup" "z")
  else if bool_decide (path = "Intro/Draft.md") then Ok (file "" "Draft" "d")
  else if bool_decide (path = "notes.md") then Ok "just notes"
  else Err "no such file".

Definition world (stdin : string) : World :=
  {| FindMarkdownFiles := Ok ["Intro.md"; "Intro/Draft.md"; "Intro/Setup.md"; "notes.md"];
     ReadMarkdownFile := disk;
     WriteMarkdownFile := λ _ _, None;
     http_get := http;
     UpdateArticle := λ id title content,
       Ok {| api.ID := id; api.Title := title; api.Content := content;
             api.ParentID := None; api.Order := 0%Z; api.URL := "" |};
     Stdin := stdin |}.

End Examples.

Lemma C10_witness :
  api.ListArticles Examples.cfg Examples.http = Ok Examples.articles
  ∧ Forall (λ a, api.Order a = 0%Z) Examples.articles.
Proof.
  split; [reflexivity|].
  apply (@C10_ListArticles_order_zero GoModel.runtime GoModel_laws
           Examples.cfg Examples.http Examples.articles).
  reflexivity.
Defined.

(** ** Single-file push *)

(** C7. When the file given to [push] is read and decoded, then: if its
    frontmatter carries no identifier the command fails with the
    [CannotPush] error and calls the remote service not at all; if it
    carries one, the command calls the remote service exactly once, with an
    update of that identifier, and returns no error when the update
    succeeded and the wrapped error of the update when it failed. *)
Theorem C7_pushSinglePage
    {R : GoRuntime} (w : World) (filePath content : string)
    (md : markdown.MarkdownFile) (ev : list event) (err : option error) :
  ReadMarkdownFile w filePath = Ok content →
  markdown_codec.ParseMarkdown content = Ok md →
  cmd.pushSinglePage w filePath = (ev, err) →
  let fm := markdown.Frontmatter_ md in
  (markdown.ID fm = "" →
     err = Some (cmd.CannotPush (markdown.Title fm)) ∧ apiCalls ev = [])
  ∧ (markdown.ID fm ≠ "" →
     apiCalls ev
       = [ApiUpdateArticle (markdown.ID fm) (markdown.Title fm) (markdown.Content md)]
     ∧ match UpdateArticle w (markdown.ID fm) (markdown.Title fm) (markdown.Content md) with
       | Ok _ => err = None
                 ∧ Stdout ("Updated: " +:+ markdown.Title fm +:+ nl) ∈ ev
       | Err e => err = Some ("failed to update article: " +:+ e)
       end).
Proof.
  intros Hread Hparse Hrun fm. unfold cmd.pushSinglePage in Hrun.
  rewrite Hread, Hparse in Hrun. fold fm in Hrun.
  case_bool_decide as Hid.
  - injection Hrun as <- <-. split; [done|]. intros Hne. by destruct Hne.
  - destruct (UpdateArticle w _ _ _) as [a|e]; injection Hrun as <- <-;
      (split; [done|]); intros _.
    + split; [reflexivity|]. split; [done|]. set_solver.
    + split; reflexivity.
Qed.

Lemma C7_witness :
  ∃ ev, cmd.pushSinglePage (Examples.world "") "Intro/Draft.md"
        = (ev, Some (cmd.CannotPush "Draft"))
        ∧ apiCalls ev = [].
Proof.
  exists [Stdout ("Pushing Intro/Draft.md..." +:+ nl); FsRead "Intro/Draft.md"].
  split; [reflexivity|].
  exact (proj2 (proj1 (@C7_pushSinglePage GoModel.runtime (Examples.world "")
           "Intro/Draft.md" (Examples.file "" "Draft" "d")
           {| markdown.Frontmatter_ :=
                {| markdown.ID := ""; markdown.Title := "Draft"; markdown.URL := "" |};
              markdown.Content := "d" |}
           [Stdout ("Pushing Intro/Draft.md..." +:+ nl); FsRead "Intro/Draft.md"]
           (Some (cmd.CannotPush "Draft"))
           eq_refl eq_refl eq_refl) eq_refl)).
Defined.

Example pushSinglePage_with_identifier :
  cmd.pushSinglePage (R := GoModel.runtime) (Examples.world "") "Intro/Setup.md"
  = ([Stdout ("Pushing Intro/Setup.md..." +:+ nl); FsRead "Intro/Setup.md";
      ApiUpdateArticle "A-2" "Setup" "z"; Stdout ("Updated: Setup" +:+ nl)],
     None).
Proof. reflexivity. Qed.

(** ** The local snapshot *)

Section local_snapshot.
Context {R : GoRuntime}.

(** What the loaders keep of one file: its decoded form, when it can be
    read and decoded. *)
Definition decodeFile (w : World) (filePath : string)
    : option markdown.MarkdownFile :=
  match ReadMarkdownFile w filePath with
  | Err _ => None
  | Ok content =>
      match markdown_codec.ParseMarkdown content with
      | Err _ => None
      | Ok md => Some md
      end
  end.

Definition fileID (md : markdown.MarkdownFile) : string :=
  markdown.ID (markdown.Frontmatter_ md).

Lemma loadByIDStep_decode w acc filePath :
  cmd.loadByIDStep w acc filePath =
    match decodeFile w filePath with
    | Some md =>
        if bool_decide (fileID md ≠ "")
        then (<[fileID md := md]> acc.1, <[fileID md := filePath]> acc.2)
        else acc
    | None => acc
    end.
Proof.
  unfold cmd.loadByIDStep, decodeFile, fileID. destruct acc as [lb lp].
  destruct (ReadMarkdownFile w filePath); [|done].
  by destruct (markdown_codec.ParseMarkdown _).
Qed.

Lemma loadLocalStep_fst w acc filePath :
  (cmd.loadLocalStep w acc filePath).1 = cmd.loadByIDStep w acc.1 filePath.
Proof.
  unfold cmd.loadLocalStep, cmd.loadByIDStep.
  destruct acc as [[lb lp] lq]; simpl.
  destruct (ReadMarkdownFile w filePath); [|done].
  destruct (markdown_codec.ParseMarkdown _); [|done].
  by case_bool_decide.
Qed.

Lemma loadLocal_fold_fst w localFiles acc :
  (fold_left (cmd.loadLocalStep w) localFiles acc).1
  = fold_left (cmd.loadByIDStep w) localFiles acc.1.
Proof.
  revert acc. induction localFiles as [|f l IH]; intros acc; simpl; [done|].
  by rewrite IH, loadLocalStep_fst.
Qed.

(** The diff and the push command index the identified files alike. *)
Lemma loadLocal_loadByID w localFiles :
  (cmd.loadLocal w localFiles).1 = cmd.loadByID w localFiles.
Proof. apply loadLocal_fold_fst. Qed.

Lemma loadByID_fold_lookup w localFiles acc id md :
  (fold_left (cmd.loadByIDStep w) localFiles acc).1 !! id = Some md →
  (id ≠ "" ∧ fileID md = id
   ∧ ∃ filePath, filePath ∈ localFiles ∧ decodeFile w filePath = Some md)
  ∨ acc.1 !! id = Some md.
Proof.
  revert acc. induction localFiles as [|f l IH]; intros acc H; simpl in *; [by right|].
  apply IH in H as [(Hid & Hmd & p & Hp & Hdec)|H].
  { left. split_and!; try done. exists p. split; [by right | done]. }
  rewrite loadByIDStep_decode in H.
  destruct (decodeFile w f) as [md'|] eqn:Hdec; [|by right].
  case_bool_decide as Hne; [|by right]. simpl in H.
  rewrite lookup_insert in H. case_decide as Hk; [|by right].
  injection H as ->. subst id. left. split_and!; try done.
  exists f. split; [by left | done].
Qed.

Lemma loadByID_fold_is_Some w localFiles acc id :
  is_Some (acc.1 !! id)
  ∨ (id ≠ "" ∧ ∃ filePath md, filePath ∈ localFiles
                 ∧ decodeFile w filePath = Some md ∧ fileID md = id) →
  is_Some ((fold_left (cmd.loadByIDStep w) localFiles acc).1 !! id).
Proof.
  revert acc. induction localFiles as [|f l IH]; intros acc H; simpl.
  { destruct H as [H|(_ & p & md & Hp & _)]; [done|]. by apply elem_of_nil in Hp. }
  apply IH. rewrite loadByIDStep_decode.
  destruct H as [H|(Hid & p & md & Hp & Hdec & Hmd)].
  - left. destruct (decodeFile w f) as [md'|]; [|done].
    case_bool_decide; [|done]. simpl.
    rewrite lookup_insert. case_decide; [by eexists | done].
  - apply elem_of_cons in Hp as [->|Hp].
    + left. rewrite Hdec, Hmd. rewrite bool_decide_true by done. simpl.
      rewrite lookup_insert_eq. by eexists.
    + right. split; [done|]. by exists p, md.
Qed.

Lemma loadByID_lookup w localFiles id md :
  (cmd.loadByID w localFiles).1 !! id = Some md →
  id ≠ "" ∧ fileID md = id
  ∧ ∃ filePath, filePath ∈ localFiles ∧ decodeFile w filePath = Some md.
Proof.
  intros H. apply loadByID_fold_lookup in H as [H|H]; [done|].
  simpl in H. by rewrite lookup_empty in H.
Qed.

Lemma loadByID_is_Some w localFiles id filePath md :
  id ≠ "" → filePath ∈ localFiles → decodeFile w filePath = Some md →
  fileID md = id →
  is_Some ((cmd.loadByID w localFiles).1 !! id).
Proof.
  intros. apply loadByID_fold_is_Some. right. split; [done|]. by exists filePath, md.
Qed.

Lemma loadByID_None w localFiles id :
  (∀ filePath md, filePath ∈ localFiles → decodeFile w filePath = Some md →
                  fileID md ≠ "" → fileID md ≠ id) →
  (cmd.loadByID w localFiles).1 !! id = None.
Proof.
  intros H. destruct (_ !! id) as [md|] eqn:E; [|done].
  apply loadByID_lookup in E as (Hid & Hmd & p & Hp & Hdec).
  exfalso. eapply H; [done | done | by rewrite Hmd | done].
Qed.
End local_snapshot.

(** ** The reconciler: statuses *)

Section reconciler.
Context {R : GoRuntime} {L : GoRuntimeLaws R}.

Definition classify (localByID : gmap string markdown.MarkdownFile)
    (id : string) (article : api.Article) : ArticleStatus :=
  match localByID !! id with
  | Some localMD =>
      if bool_decide (strings_TrimSpace (markdown.Content localMD)
                      ≠ strings_TrimSpace (api.Content article))
      then StatusModified else StatusUnchanged
  | None => StatusDeleted
  end.

Lemma statusStep_status localByID localPaths acc id article :
  (cmd.statusStep localByID localPaths acc (id, article)).1.1
  = <[id := classify localByID id article]> acc.1.1.
Proof.
  unfold cmd.statusStep, classify. destruct acc as [[st ti] pa]; simpl.
  destruct (localByID !! id); [|done]. by case_bool_decide.
Qed.

Lemma status_fold_fresh localByID localPaths l acc id :
  id ∉ l.*1 →
  (fold_left (cmd.statusStep localByID localPaths) l acc).1.1 !! id = acc.1.1 !! id.
Proof.
  revert acc. induction l as [|[k a] l IH]; intros acc Hid; simpl; [done|].
  rewrite fmap_cons, not_elem_of_cons in Hid. destruct Hid as [Hk Hl].
  rewrite IH by done. rewrite statusStep_status. by rewrite lookup_insert_ne.
Qed.

Lemma status_fold_lookup localByID localPaths l acc id article :
  NoDup l.*1 → (id, article) ∈ l →
  (fold_left (cmd.statusStep localByID localPaths) l acc).1.1 !! id
  = Some (classify localByID id article).
Proof.
  revert acc. induction l as [|[k a] l IH]; intros acc Hnd Hin; simpl.
  { by apply elem_of_nil in Hin. }
  rewrite fmap_cons in Hnd. apply NoDup_cons in Hnd as [Hk Hnd].
  apply elem_of_cons in Hin as [[= <- <-]|Hin].
  - rewrite status_fold_fresh by done. rewrite statusStep_status.
    by rewrite lookup_insert_eq.
  - by apply IH.
Qed.

Lemma checkServerArticles_lookup localByID localPaths serverByID id article :
  serverByID !! id = Some article →
  (cmd.checkServerArticles localByID localPaths serverByID).1.1 !! id
  = Some (classify localByID id article).
Proof.
  intros H. apply status_fold_lookup.
  - apply range_map_NoDup_keys.
  - by apply range_map_elem.
Qed.

(** The status [runDiff] computes for an identifier: the value that
    [buildTreeNode] reads from the status map. *)
Definition diffStatus (w : World) (localFiles : list string)
    (serverArticles : list api.Article) (id : string) : ArticleStatus :=
  let local := cmd.loadLocal w localFiles in
  let checked :=
    cmd.checkServerArticles local.1.1 local.1.2 (cmd.indexByID serverArticles) in
  default StatusUnchanged (checked.1.1 !! id).

Lemma buildTreeNode_Status fuel stack article articlesByID
    articleStatus articleTitles articlePaths node :
  cmd.buildTreeNode fuel stack article articlesByID
    articleStatus articleTitles articlePaths = Some node →
  Status node = default StatusUnchanged (articleStatus !! api.ID article)
  ∧ ID node = api.ID article ∧ Title node = api.Title article.
Proof.
  destruct fuel as [|fuel]; [done|]. simpl.
  destruct (mapM _ _); [|done]. simpl. by intros [= <-].
Qed.
End reconciler.

(** C2. For remote articles with pairwise distinct identifiers, the status
    the reconciler gives to an article [a] (and stores in the node built for
    it) is: [unchanged] or [modified], according to whether the contents are
    equal after [TrimSpace] on both sides, when a decoded local file carries
    the identifier of [a]; and [deleted-locally] when no decoded local file
    with an identifier carries it, whatever files without identifier
    exist. *)
Theorem C2_reconciler_status
    {R : GoRuntime} {L : GoRuntimeLaws R}
    (w : World) (localFiles : list string)
    (serverArticles : list api.Article) (a : api.Article) :
  NoDup (api.ID <$> serverArticles) →
  a ∈ serverArticles →
  (∀ filePath md,
     filePath ∈ localFiles → decodeFile w filePath = Some md →
     fileID md = api.ID a → api.ID a ≠ "" →
     (∀ filePath' md', filePath' ∈ localFiles →
        decodeFile w filePath' = Some md' → fileID md' = api.ID a →
        markdown.Content md' = markdown.Content md) →
     diffStatus w localFiles serverArticles (api.ID a)
     = if decide (strings_TrimSpace (markdown.Content md)
                  = strings_TrimSpace (api.Content a))
       then StatusUnchanged else StatusModified)
  ∧ ((∀ filePath md,
        filePath ∈ localFiles → decodeFile w filePath = Some md →
        fileID md ≠ "" → fileID md ≠ api.ID a) →
     diffStatus w localFiles serverArticles (api.ID a) = StatusDeleted)
  ∧ (∀ fuel stack node,
       let local := cmd.loadLocal w localFiles in
       let checked :=
         cmd.checkServerArticles local.1.1 local.1.2 (cmd.indexByID serverArticles) in
       cmd.buildTreeNode fuel stack a (cmd.indexByID serverArticles)
         checked.1.1 checked.1.2 checked.2 = Some node →
       Status node = diffStatus w localFiles serverArticles (api.ID a)).
Proof.
  intros Hnd Ha.
  pose proof (indexByID_NoDup _ _ Hnd Ha) as Hidx.
  assert (Hst : diffStatus w localFiles serverArticles (api.ID a)
                = classify (cmd.loadLocal w localFiles).1.1 (api.ID a) a).
  { unfold diffStatus. cbv zeta.
    by rewrite (checkServerArticles_lookup _ _ _ _ _ Hidx). }
  split_and!.
  - intros filePath md Hin Hdec Hmd Hid Hsame. rewrite Hst. unfold classify.
    rewrite loadLocal_loadByID.
    destruct (loadByID_is_Some w localFiles _ _ _ Hid Hin Hdec Hmd) as [md' Hmd'].
    rewrite Hmd'. apply loadByID_lookup in Hmd' as (_ & Hmd'id & p & Hp & Hpdec).
    rewrite (Hsame p md' Hp Hpdec Hmd'id).
    case_bool_decide; case_decide; done.
  - intros Hnone. rewrite Hst. unfold classify.
    rewrite loadLocal_loadByID. by rewrite loadByID_None.
  - intros fuel stack node local checked Hb.
    apply buildTreeNode_Status in Hb as (-> & _ & _). reflexivity.
Qed.

Ltac by_evaluation := apply (bool_decide_unpack _); vm_compute; exact I.

Lemma C2_witness :
  diffStatus (R := GoModel.runtime) (Examples.world "")
    ["Intro.md"; "Intro/Draft.md"; "Intro/Setup.md"; "notes.md"]
    Examples.articles "A-2"
  = StatusModified
  ∧ diffStatus (R := GoModel.runtime) (Examples.world "")
      ["Intro/Draft.md"; "Intro/Setup.md"; "notes.md"]
      Examples.articles "A-1"
    = StatusDeleted.
Proof.
  split.
  - pose (a := {| api.ID := "A-2"; api.Title := "Setup"; api.Content := "y";
                  api.ParentID := Some "A-1"; api.Order := 0%Z;
                  api.URL := "https://yt.example/articles/A-2" |}).
    assert (Hnd : NoDup (api.ID <$> Examples.articles)) by by_evaluation.
    assert (Ha : a ∈ Examples.articles) by by_evaluation.
    apply (proj1 (@C2_reconciler_status GoModel.runtime GoModel_laws
             (Examples.world "")
             ["Intro.md"; "Intro/Draft.md"; "Intro/Setup.md"; "notes.md"]
             Examples.articles a Hnd Ha)
             "Intro/Setup.md"
             {| markdown.Frontmatter_ :=
                  {| markdown.ID := "A-2"; markdown.Title := "Setup"; markdown.URL := "" |};
                markdown.Content := "z" |}).
    + by_evaluation.
    + reflexivity.
    + reflexivity.
    + discriminate.
    + intros p md' Hp Hd Hi.
      repeat (apply elem_of_cons in Hp as [->|Hp]);
        try (by apply elem_of_nil in Hp);
        vm_compute in Hd; try discriminate;
        injection Hd as <-; try reflexivity;
        vm_compute in Hi; discriminate.
  - pose (a := {| api.ID := "A-1"; api.Title := "Intro"; api.Content := "x";
                  api.ParentID := None; api.Order := 0%Z;
                  api.URL := "https://yt.example/articles/A-1" |}).
    assert (Hnd : NoDup (api.ID <$> Examples.articles)) by by_evaluation.
    assert (Ha : a ∈ Examples.articles) by by_evaluation.
    apply (proj1 (proj2 (@C2_reconciler_status GoModel.runtime GoModel_laws
             (Examples.world "")
             ["Intro/Draft.md"; "Intro/Setup.md"; "notes.md"]
             Examples.articles a Hnd Ha))).
    intros p md Hp Hd Hne.
    repeat (apply elem_of_cons in Hp as [->|Hp]);
      try (by apply elem_of_nil in Hp);
      vm_compute in Hd; try discriminate;
      injection Hd as <-; vm_compute; discriminate.
Defined.

(** ** Bulk push: the plan *)

Definition isOutput (e : event) : bool :=
  match e with
  | Stdout _ | Stderr _ | StdinReadLine => true
  | _ => false
  end.

Lemma elem_of_concat {A} (x : A) (ls : list (list A)) :
  x ∈ concat ls ↔ ∃ l, l ∈ ls ∧ x ∈ l.
Proof.
  rewrite list_elem_of_In, in_concat. split.
  - intros (l & Hl & Hx). exists l. by rewrite !list_elem_of_In.
  - intros (l & Hl & Hx). exists l. by rewrite <- !list_elem_of_In.
Qed.

Lemma updateCalls_app ev1 ev2 :
  updateCalls (ev1 ++ ev2) = updateCalls ev1 ++ updateCalls ev2.
Proof. apply filter_app. Qed.

Lemma updateCalls_output ev :
  Forall (λ e, isOutput e = true) ev → updateCalls ev = [].
Proof.
  induction 1 as [|e ev He _ IH]; [done|].
  unfold updateCalls in *. rewrite filter_cons, IH.
  destruct e; simpl in *; try done.
Qed.

Lemma updateCalls_reads (localFiles : list string) :
  updateCalls (FsRead <$> localFiles) = [].
Proof.
  induction localFiles as [|f l IH]; [done|].
  rewrite fmap_cons. unfold updateCalls in *. by rewrite filter_cons, IH.
Qed.

Section push_plan.
Context {R : GoRuntime} {L : GoRuntimeLaws R}.

(** The page one round of the loop "collect pages to push" adds, if any. *)
Definition pageOf (localPaths : gmap string string)
    (serverByID : gmap string api.Article)
    (entry : string * markdown.MarkdownFile) : option cmd.page :=
  match serverByID !! entry.1 with
  | Some serverArticle =>
      if bool_decide (strings_TrimSpace (markdown.Content entry.2)
                      ≠ strings_TrimSpace (api.Content serverArticle))
      then Some {| cmd.page_id := entry.1;
                   cmd.page_title := markdown.Title (markdown.Frontmatter_ entry.2);
                   cmd.page_filePath := default "" (localPaths !! entry.1) |}
      else None
  | None => None
  end.

Lemma collect_fold localPaths serverByID l acc :
  fold_left (cmd.collectStep localPaths serverByID) l acc
  = acc ++ omap (pageOf localPaths serverByID) l.
Proof.
  revert acc. induction l as [|[id md] l IH]; intros acc; simpl.
  { by rewrite app_nil_r. }
  rewrite IH. unfold cmd.collectStep, pageOf; simpl.
  destruct (serverByID !! id); [|done].
  case_bool_decide; [|done]. by rewrite <- app_assoc.
Qed.

Lemma collectPages_omap localByID localPaths serverByID :
  cmd.collectPages localByID localPaths serverByID
  = omap (pageOf localPaths serverByID) (range_map SitePushCollect localByID).
Proof. unfold cmd.collectPages. by rewrite collect_fold. Qed.

Lemma collectPages_elem localByID localPaths serverByID p :
  p ∈ cmd.collectPages localByID localPaths serverByID →
  ∃ md a,
    localByID !! cmd.page_id p = Some md
    ∧ serverByID !! cmd.page_id p = Some a
    ∧ strings_TrimSpace (markdown.Content md) ≠ strings_TrimSpace (api.Content a)
    ∧ cmd.page_title p = markdown.Title (markdown.Frontmatter_ md).
Proof.
  rewrite collectPages_omap. intros Hp.
  apply list_elem_of_omap in Hp as ([id md] & Hin & Hpage).
  apply range_map_elem in Hin. unfold pageOf in Hpage. simpl in Hpage.
  destruct (serverByID !! id) as [a|] eqn:Ha; [|done].
  case_bool_decide as Hne; [|done]. injection Hpage as <-. simpl.
  by exists md, a.
Qed.

(** Conversely every identified local file whose identifier exists on the
    remote and whose trimmed content differs is planned. *)
Lemma collectPages_complete localByID localPaths serverByID id md a :
  localByID !! id = Some md → serverByID !! id = Some a →
  strings_TrimSpace (markdown.Content md) ≠ strings_TrimSpace (api.Content a) →
  ∃ p, p ∈ cmd.collectPages localByID localPaths serverByID ∧ cmd.page_id p = id.
Proof.
  intros Hmd Ha Hne. rewrite collectPages_omap.
  eexists. split.
  - apply list_elem_of_omap. exists (id, md). split.
    + by apply range_map_elem.
    + unfold pageOf. simpl. rewrite Ha. by rewrite bool_decide_true.
  - reflexivity.
Qed.

(** The files the loop "skip new pages" lists. *)
Definition isNewFile (w : World) (serverByID : gmap string api.Article)
    (filePath : string) : Prop :=
  match decodeFile w filePath with
  | Some md => fileID md = "" ∨ serverByID !! fileID md = None
  | None => False
  end.

#[global] Instance isNewFile_dec w serverByID filePath :
  Decision (isNewFile w serverByID filePath).
Proof. unfold isNewFile. destruct (decodeFile w filePath); apply _. Defined.

Lemma newPagesStep_decode w serverByID acc filePath :
  cmd.newPagesStep w serverByID acc filePath
  = if bool_decide (isNewFile w serverByID filePath)
    then acc ++ [filePath] else acc.
Proof.
  destruct (decide (isNewFile w serverByID filePath)) as [H|H].
  - rewrite bool_decide_true by done.
    unfold isNewFile, decodeFile, fileID in H. unfold cmd.newPagesStep.
    destruct (ReadMarkdownFile w filePath) as [content|]; [|done].
    destruct (markdown_codec.ParseMarkdown content) as [md|]; [|done].
    destruct H as [H|H].
    + by rewrite bool_decide_true.
    + rewrite (bool_decide_false (is_Some _)); [by rewrite orb_true_r|].
      rewrite H. by intros [? ?].
  - rewrite bool_decide_false by done.
    unfold isNewFile, decodeFile, fileID in H. unfold cmd.newPagesStep.
    destruct (ReadMarkdownFile w filePath) as [content|]; [|done].
    destruct (markdown_codec.ParseMarkdown content) as [md|]; [|done].
    rewrite bool_decide_false by tauto.
    rewrite bool_decide_true; [done|].
    destruct (serverByID !! _); [done|]. tauto.
Qed.

Lemma newPages_fold w serverByID l acc :
  fold_left (cmd.newPagesStep w serverByID) l acc
  = acc ++ filter (isNewFile w serverByID) l.
Proof.
  revert acc. induction l as [|f l IH]; intros acc; simpl.
  { by rewrite app_nil_r. }
  rewrite IH, newPagesStep_decode, filter_cons.
  destruct (decide (isNewFile w serverByID f)) as [H|H].
  - rewrite bool_decide_true by done. by rewrite <- app_assoc.
  - by rewrite bool_decide_false by done.
Qed.

Lemma collectNewPages_filter w localFiles serverByID :
  cmd.collectNewPages w localFiles serverByID
  = filter (isNewFile w serverByID) localFiles.
Proof. unfold cmd.collectNewPages. by rewrite newPages_fold. Qed.

(** *** The printed blocks only write to the streams *)

Lemma planLines_output i pagesToPush :
  Forall (λ e, isOutput e = true) (cmd.planLines i pagesToPush).
Proof.
  revert i. induction pagesToPush as [|p l IH]; intros i; simpl; constructor; auto.
Qed.

Lemma skippedLines_output newPages :
  Forall (λ e, isOutput e = true) (cmd.skippedLines newPages).
Proof.
  unfold cmd.skippedLines. case_match; [|constructor].
  repeat (apply Forall_app; split); try (repeat constructor).
  apply Forall_forall. intros e He.
  apply list_elem_of_fmap in He as (path & -> & _). done.
Qed.

Lemma planEvents_output pagesToPush newPages :
  Forall (λ e, isOutput e = true) (cmd.planEvents pagesToPush newPages).
Proof.
  unfold cmd.planEvents.
  repeat (apply Forall_app; split); try (repeat constructor).
  - apply planLines_output.
  - apply skippedLines_output.
Qed.

Lemma deletedWarnings_output localByID serverByID :
  Forall (λ e, isOutput e = true) (cmd.deletedWarnings localByID serverByID).
Proof.
  unfold cmd.deletedWarnings. apply Forall_concat, Forall_forall.
  intros evs Hevs. apply list_elem_of_fmap in Hevs as ([id a] & -> & _).
  unfold cmd.deletedStep. destruct (localByID !! id); repeat constructor.
Qed.

Lemma deletedWarnings_elem localByID serverByID id a :
  serverByID !! id = Some a → localByID !! id = None →
  Stdout ("⚠️  Page deleted locally: " +:+ api.Title a +:+ nl)
    ∈ cmd.deletedWarnings localByID serverByID
  ∧ Stdout ("   Delete manually at: " +:+ api.URL a +:+ nl)
    ∈ cmd.deletedWarnings localByID serverByID.
Proof.
  intros Ha Hnone. unfold cmd.deletedWarnings.
  assert (Hstep : cmd.deletedStep localByID (id, a)
                  ∈ cmd.deletedStep localByID
                      <$> range_map SitePushDeleted serverByID).
  { apply (list_elem_of_fmap_2 (cmd.deletedStep localByID)). by apply range_map_elem. }
  unfold cmd.deletedStep at 1 in Hstep. rewrite Hnone in Hstep.
  split; (apply elem_of_concat; eexists; split; [exact Hstep|]); repeat constructor.
Qed.

(** *** The updates *)

Definition updateOf (localByID : gmap string markdown.MarkdownFile)
    (e : event) (p : cmd.page) : Prop :=
  ∃ md, localByID !! cmd.page_id p = Some md
        ∧ e = ApiUpdateArticle (cmd.page_id p)
                (markdown.Title (markdown.Frontmatter_ md)) (markdown.Content md).

Lemma pushPage_shape w localByID p md :
  localByID !! cmd.page_id p = Some md →
  ∃ report,
    cmd.pushPage w localByID p
    = Some [ApiUpdateArticle (cmd.page_id p)
              (markdown.Title (markdown.Frontmatter_ md)) (markdown.Content md);
            report]
    ∧ isOutput report = true.
Proof.
  intros Hmd. unfold cmd.pushPage. rewrite Hmd. simpl.
  destruct (UpdateArticle w _ _ _); eexists; split; reflexivity || done.
Qed.

Lemma pushPages_total w localByID pagesToPush :
  Forall (λ p, is_Some (localByID !! cmd.page_id p)) pagesToPush →
  ∃ updates,
    cmd.pushPages w localByID pagesToPush = Some updates
    ∧ Forall2 (updateOf localByID) (updateCalls updates) pagesToPush
    ∧ Forall (λ e, isOutput e = true ∨ e ∈ updateCalls updates) updates.
Proof.
  unfold cmd.pushPages.
  induction 1 as [|p l [md Hmd] _ (updates & IH & Hcalls & Hall)].
  { exists []. split; [done|]. split; constructor. }
  destruct (pushPage_shape w localByID p md Hmd) as (report & Hpage & Hreport).
  destruct (mapM (cmd.pushPage w localByID) l) as [evs|] eqn:Hevs; [|done].
  injection IH as <-.
  exists ([ApiUpdateArticle (cmd.page_id p)
             (markdown.Title (markdown.Frontmatter_ md)) (markdown.Content md);
           report] ++ concat evs).
  split; [by simpl; rewrite Hpage; simpl; rewrite Hevs|].
  assert (Hcs : updateCalls
                  ([ApiUpdateArticle (cmd.page_id p)
                      (markdown.Title (markdown.Frontmatter_ md))
                      (markdown.Content md); report] ++ concat evs)
                = ApiUpdateArticle (cmd.page_id p)
                    (markdown.Title (markdown.Frontmatter_ md))
                    (markdown.Content md) :: updateCalls (concat evs)).
  { rewrite updateCalls_app. unfold updateCalls at 1.
    rewrite filter_cons. simpl. rewrite filter_cons.
    destruct report; simpl in *; done. }
  rewrite Hcs. split.
  - constructor; [by exists md | done].
  - constructor; [right; by left|].
    constructor; [by left|].
    eapply Forall_impl; [exact Hall|]. intros e [He|He]; [by left|].
    right. by right.
Qed.
End push_plan.

(** ** Bulk push: the command *)

Section push_all.
Context {R : GoRuntime} {L : GoRuntimeLaws R}.

Lemma confirmed_spec response :
  cmd.confirmed response = true ↔
  strings_TrimSpace (strings_ToLower response) = "y"
  ∨ strings_TrimSpace (strings_ToLower response) = "yes".
Proof.
  unfold cmd.confirmed.
  destruct (decide (strings_TrimSpace (strings_ToLower response) = "y")) as [Hy|Hy].
  { rewrite (bool_decide_false (_ ≠ "y")) by tauto. simpl. tauto. }
  rewrite (bool_decide_true (_ ≠ "y")) by done.
  destruct (decide (strings_TrimSpace (strings_ToLower response) = "yes")) as [Hyes|Hyes].
  { rewrite (bool_decide_false (_ ≠ "yes")) by tauto. simpl. tauto. }
  rewrite (bool_decide_true (_ ≠ "yes")) by done. simpl.
  split; [done | tauto].
Qed.

(** The four ways [pushAllChanges] ends once the files and the articles
    are listed. *)
Lemma pushAllChanges_cases cfg w localFiles serverArticles :
  FindMarkdownFiles w = Ok localFiles →
  api.ListArticles cfg (http_get w) = Ok serverArticles →
  let localByID := (cmd.loadByID w localFiles).1 in
  let localPaths := (cmd.loadByID w localFiles).2 in
  let serverByID := cmd.indexByID serverArticles in
  let pagesToPush := cmd.collectPages localByID localPaths serverByID in
  let newPages := cmd.collectNewPages w localFiles serverByID in
  let scanned := cmd.scannedEvents localFiles in
  let plan := cmd.planEvents pagesToPush newPages in
  (pagesToPush = [] ∧ newPages = []
   ∧ cmd.pushAllChanges cfg w
     = Some (scanned ++ [Stdout ("No changes to push." +:+ nl)], None))
  ∨ (¬ (pagesToPush = [] ∧ newPages = [])
     ∧ match strings.ReadString (Stdin w) with
       | (_, Some e) =>
           cmd.pushAllChanges cfg w
           = Some (scanned ++ plan, Some ("failed to read response: " +:+ e))
       | (response, None) =>
           if cmd.confirmed response then
             ∃ updates,
               cmd.pushPages w localByID pagesToPush = Some updates
               ∧ cmd.pushAllChanges cfg w
                 = Some (scanned ++ plan
                         ++ [Stdout (nl +:+ "Pushing changes..." +:+ nl)]
                         ++ updates
                         ++ cmd.deletedWarnings localByID serverByID
                         ++ [Stdout (nl +:+ "Push complete." +:+ nl)], None)
               ∧ Forall2 (updateOf localByID) (updateCalls updates) pagesToPush
               ∧ Forall (λ e, isOutput e = true ∨ e ∈ updateCalls updates) updates
           else
             cmd.pushAllChanges cfg w
             = Some (scanned ++ plan ++ [Stdout ("Push cancelled." +:+ nl)], None)
       end).
Proof.
  intros Hfind Hlist localByID localPaths serverByID pagesToPush newPages scanned plan.
  unfold cmd.pushAllChanges. rewrite Hfind, Hlist.
  subst localByID localPaths.
  destruct (cmd.loadByID w localFiles) as [lb lp] eqn:Hload. simpl in *.
  fold serverByID. fold pagesToPush. fold newPages. fold scanned. fold plan.
  assert (Hsome : Forall (λ p, is_Some (lb !! cmd.page_id p)) pagesToPush).
  { apply Forall_forall. intros q Hq.
    apply collectPages_elem in Hq as (md & a & Hmd & _). by eexists. }
  destruct (pushPages_total w lb pagesToPush Hsome) as (updates & Hup & Hcalls & Hall).
  clearbody pagesToPush newPages.
  destruct (decide (pagesToPush = [] ∧ newPages = [])) as [[Hp Hn]|Hne].
  { left. subst pagesToPush newPages. done. }
  right. split; [done|].
  assert (Hb : bool_decide (length pagesToPush = 0)
               && bool_decide (length newPages = 0) = false).
  { destruct pagesToPush, newPages; try done. by destruct Hne. }
  rewrite Hb.
  destruct (strings.ReadString (Stdin w)) as [response [e|]]; [done|].
  destruct (cmd.confirmed response) eqn:Hc; simpl; [|done].
  exists updates. rewrite Hup. done.
Qed.

(** The events a bulk push may emit. *)
Definition pushEventAllowed (w : World) (localFiles : list string)
    (serverArticles : list api.Article) (e : event) : Prop :=
  match e with
  | ApiUpdateArticle id title content =>
      ∃ filePath md a,
        filePath ∈ localFiles ∧ decodeFile w filePath = Some md
        ∧ fileID md = id ∧ id ≠ ""
        ∧ title = markdown.Title (markdown.Frontmatter_ md)
        ∧ content = markdown.Content md
        ∧ a ∈ serverArticles ∧ api.ID a = id
        ∧ strings_TrimSpace content ≠ strings_TrimSpace (api.Content a)
  | ApiListArticles | FsWalk _ | FsRead _
  | Stdout _ | Stderr _ | StdinReadLine => True
  | ApiListKnowledgeBases | ApiGetArticle _ | ApiCreateArticle _ _ _
  | FsWrite _ _ => False
  end.

Lemma output_allowed w localFiles serverArticles ev :
  Forall (λ e, isOutput e = true) ev →
  Forall (pushEventAllowed w localFiles serverArticles) ev.
Proof. intros H. eapply Forall_impl; [exact H|]. by intros []. Qed.

Lemma scanned_allowed w localFiles serverArticles :
  Forall (pushEventAllowed w localFiles serverArticles)
         (cmd.scannedEvents localFiles).
Proof.
  unfold cmd.scannedEvents. repeat (apply Forall_app; split).
  - repeat constructor.
  - apply Forall_forall. intros e He.
    by apply list_elem_of_fmap in He as (path & -> & _).
  - apply Forall_forall. intros e He.
    by apply list_elem_of_fmap in He as (path & -> & _).
Qed.

Lemma scanned_no_update localFiles :
  updateCalls (cmd.scannedEvents localFiles) = [].
Proof.
  unfold cmd.scannedEvents. rewrite !updateCalls_app, !updateCalls_reads. done.
Qed.

Lemma scanned_no_prompt localFiles e :
  e ∈ cmd.scannedEvents localFiles → isOutput e = false.
Proof.
  unfold cmd.scannedEvents. rewrite !elem_of_app.
  intros [He|[He|He]].
  - apply elem_of_cons in He as [->|He]; [done|].
    by apply list_elem_of_singleton in He as ->.
  - by apply list_elem_of_fmap in He as (path & -> & _).
  - by apply list_elem_of_fmap in He as (path & -> & _).
Qed.

Lemma updates_allowed w localFiles serverArticles updates pagesToPush :
  let localByID := (cmd.loadByID w localFiles).1 in
  Forall (λ p, p ∈ cmd.collectPages localByID (cmd.loadByID w localFiles).2
                     (cmd.indexByID serverArticles)) pagesToPush →
  Forall2 (updateOf localByID) (updateCalls updates) pagesToPush →
  Forall (λ e, isOutput e = true ∨ e ∈ updateCalls updates) updates →
  Forall (pushEventAllowed w localFiles serverArticles) updates.
Proof.
  intros localByID Hpages Hcalls Hall.
  assert (Hgen : ∀ calls ps,
             Forall2 (updateOf localByID) calls ps →
             Forall (λ p, p ∈ cmd.collectPages localByID
                                (cmd.loadByID w localFiles).2
                                (cmd.indexByID serverArticles)) ps →
             Forall (pushEventAllowed w localFiles serverArticles) calls).
  { induction 1 as [|e p es ps (md & Hmd & ->) _ IH]; intros Hps; [constructor|].
    apply Forall_cons in Hps as [Hp Hps]. constructor; [|by apply IH].
    apply collectPages_elem in Hp as (md' & a & Hmd' & Ha & Hne & _).
    rewrite Hmd in Hmd'. injection Hmd' as <-.
    apply loadByID_lookup in Hmd as (Hid & Hfid & path & Hpath & Hdec).
    apply indexByID_lookup in Ha as [Ha Haid].
    simpl. by exists path, md, a. }
  pose proof (Hgen _ _ Hcalls Hpages) as Hupd.
  rewrite Forall_forall in Hupd.
  eapply Forall_impl; [exact Hall|]. intros e [He|He]; [by destruct e | by apply Hupd].
Qed.
End push_all.

Section push_theorems.
Context {R : GoRuntime} {L : GoRuntimeLaws R}.

Lemma skipped_elem pagesToPush newPages filePath :
  filePath ∈ newPages →
  Stdout ("   " +:+ filePath +:+ nl) ∈ cmd.planEvents pagesToPush newPages.
Proof.
  intros Hin. unfold cmd.planEvents, cmd.skippedLines.
  replace (0 <? length newPages) with true
    by (destruct newPages; [by apply elem_of_nil in Hin | done]).
  rewrite !elem_of_app. right. right. left. right. left.
  by apply (list_elem_of_fmap_2 (λ path, Stdout ("   " +:+ path +:+ nl))).
Qed.

Lemma new_file_listed w localFiles serverArticles filePath md :
  filePath ∈ localFiles → decodeFile w filePath = Some md →
  fileID md = "" ∨ fileID md ∉ api.ID <$> serverArticles →
  filePath ∈ cmd.collectNewPages w localFiles (cmd.indexByID serverArticles).
Proof.
  intros Hin Hdec Hnew. rewrite collectNewPages_filter.
  apply list_elem_of_filter. split; [|done].
  unfold isNewFile. rewrite Hdec.
  destruct Hnew as [Hid|Hid]; [by left|]. right. by apply indexByID_None.
Qed.

Lemma allowed_update_known w localFiles serverArticles ev id title content :
  Forall (pushEventAllowed w localFiles serverArticles) ev →
  ApiUpdateArticle id title content ∈ ev →
  id ≠ "" ∧ id ∈ api.ID <$> serverArticles.
Proof.
  intros Hall Hin. rewrite Forall_forall in Hall.
  destruct (Hall _ Hin) as (p & md & a & _ & _ & _ & Hid & _ & _ & Ha & Haid & _).
  split; [done|]. rewrite <- Haid. by apply list_elem_of_fmap_2.
Qed.
Lemma planLines_imap i pagesToPush :
  cmd.planLines i pagesToPush
  = imap (λ j p, Stdout ("  " +:+ pretty (i + j + 1) +:+ ". " +:+ cmd.page_title p
                         +:+ " (" +:+ cmd.page_filePath p +:+ ")" +:+ nl))
         pagesToPush.
Proof.
  revert i. induction pagesToPush as [|p l IH]; intros i; [done|].
  cbn [cmd.planLines]. rewrite imap_cons, IH. f_equal.
  { by rewrite Nat.add_0_r. }
  apply imap_ext. intros j q _. unfold compose.
  by replace (S i + j + 1) with (i + S j + 1) by lia.
Qed.

(** The block "show what will be pushed", line by line. *)
Lemma planEvents_lines pagesToPush newPages :
  cmd.planEvents pagesToPush newPages
  = [Stdout (nl +:+ "Pages to be pushed:" +:+ nl)]
    ++ imap (λ i p, Stdout ("  " +:+ pretty (i + 1) +:+ ". " +:+ cmd.page_title p
                            +:+ " (" +:+ cmd.page_filePath p +:+ ")" +:+ nl))
            pagesToPush
    ++ (match newPages with
       | [] => []
       | _ :: _ =>
           [Stdout (nl +:+ "⚠️  Skipped " +:+ pretty (length newPages)
                    +:+ " new articles (creation not supported):" +:+ nl)]
           ++ ((λ path, Stdout ("   " +:+ path +:+ nl)) <$> newPages)
           ++ [Stdout ("   Create these articles manually in YouTrack first, then download to get their IDs." +:+ nl)]
       end)
    ++ [Stdout (nl +:+ "Proceed with push? (y/N): "); StdinReadLine].
Proof.
  unfold cmd.planEvents. rewrite (planLines_imap 0).
  f_equal. f_equal. f_equal. unfold cmd.skippedLines. by destruct newPages.
Qed.
Lemma pushPages_no_prompt w localByID pagesToPush updates :
  cmd.pushPages w localByID pagesToPush = Some updates → StdinReadLine ∉ updates.
Proof.
  unfold cmd.pushPages.
  destruct (mapM _ _) as [evs|] eqn:Hevs; [|done]. simpl. intros [= <-] Hin.
  apply elem_of_concat in Hin as (l & Hl & He).
  apply mapM_Some_1 in Hevs.
  destruct (proj1 (list_elem_of_lookup _ _) Hl) as [i Hi].
  destruct (Forall2_lookup_r _ _ _ _ _ Hevs Hi) as (q & _ & Hq).
  unfold cmd.pushPage in Hq.
  destruct (localByID !! cmd.page_id q) as [md|]; [|done]. simpl in Hq.
  destruct (UpdateArticle w _ _ _); injection Hq as <-;
    repeat (apply elem_of_cons in He as [He|He]; [discriminate|]);
    by apply elem_of_nil in He.
Qed.

Lemma deletedWarnings_no_prompt localByID serverByID :
  StdinReadLine ∉ cmd.deletedWarnings localByID serverByID.
Proof.
  unfold cmd.deletedWarnings. intros Hin.
  apply elem_of_concat in Hin as (l & Hl & He).
  apply list_elem_of_fmap in Hl as ([id a] & -> & _).
  unfold cmd.deletedStep in He. destruct (localByID !! id).
  - by apply elem_of_nil in He.
  - repeat (apply elem_of_cons in He as [He|He]; [discriminate|]).
    by apply elem_of_nil in He.
Qed.

(** The plan and the prompt stand between the scan and what follows. *)
Lemma plan_shown localFiles pagesToPush newPages rest :
  StdinReadLine ∉ rest →
  ∃ before rest',
    cmd.scannedEvents localFiles ++ cmd.planEvents pagesToPush newPages ++ rest
    = before
         ++ [Stdout (nl +:+ "Pages to be pushed:" +:+ nl)]
         ++ imap (λ i p, Stdout ("  " +:+ pretty (i + 1) +:+ ". "
                                 +:+ cmd.page_title p +:+ " ("
                                 +:+ cmd.page_filePath p +:+ ")" +:+ nl))
                 pagesToPush
         ++ (match newPages with
            | [] => []
            | _ :: _ =>
                [Stdout (nl +:+ "⚠️  Skipped " +:+ pretty (length newPages)
                         +:+ " new articles (creation not supported):" +:+ nl)]
                ++ ((λ path, Stdout ("   " +:+ path +:+ nl)) <$> newPages)
                ++ [Stdout ("   Create these articles manually in YouTrack first, then download to get their IDs." +:+ nl)]
            end)
         ++ [Stdout (nl +:+ "Proceed with push? (y/N): "); StdinReadLine]
         ++ rest'
    ∧ before = [FsWalk "."; ApiListArticles]
               ++ (FsRead <$> localFiles) ++ (FsRead <$> localFiles)
    ∧ (StdinReadLine ∉ rest') ∧ updateCalls before = [].
Proof.
  intros Hrest. exists (cmd.scannedEvents localFiles), rest.
  split_and!; [|done|done|apply scanned_no_update].
  rewrite planEvents_lines. f_equal. by rewrite <- !app_assoc.
Qed.
End push_theorems.

(** C5. Once the files and the articles are listed, a bulk push emits only
    the following events: the walk and the reads of the local files, the
    listing of the articles, lines on the streams, and calls of
    [UpdateArticle]. Each such call carries an identifier that is not empty,
    that a decoded local file carries and that a remote article has, with
    the title and content of that file, whose trimmed content differs from
    the trimmed remote content. No article is created, nothing is written
    to a local file, and there is no event that deletes anything. A decoded
    file without identifier, or with an identifier that no remote article
    has, is never the subject of an update and is listed in the plan as
    skipped. When the command runs to its last line, every remote article
    whose identifier no identified local file carries is reported by a
    warning line and a line carrying its URL. *)
Theorem C5_bulk_push_only_updates
    {R : GoRuntime} {L : GoRuntimeLaws R}
    (cfg : api.Config) (w : World)
    (localFiles : list string) (serverArticles : list api.Article) :
  FindMarkdownFiles w = Ok localFiles →
  api.ListArticles cfg (http_get w) = Ok serverArticles →
  ∃ ev err,
    cmd.pushAllChanges cfg w = Some (ev, err)
    ∧ Forall (pushEventAllowed w localFiles serverArticles) ev
    ∧ (∀ filePath md,
         filePath ∈ localFiles → decodeFile w filePath = Some md →
         fileID md = "" ∨ fileID md ∉ api.ID <$> serverArticles →
         (∀ title content, ApiUpdateArticle (fileID md) title content ∉ ev)
         ∧ Stdout ("   " +:+ filePath +:+ nl) ∈ ev)
    ∧ (∀ a,
         a ∈ serverArticles → NoDup (api.ID <$> serverArticles) →
         (∀ filePath md, filePath ∈ localFiles → decodeFile w filePath = Some md →
                         fileID md ≠ "" → fileID md ≠ api.ID a) →
         last ev = Some (Stdout (nl +:+ "Push complete." +:+ nl)) →
         Stdout ("⚠️  Page deleted locally: " +:+ api.Title a +:+ nl) ∈ ev
         ∧ Stdout ("   Delete manually at: " +:+ api.URL a +:+ nl) ∈ ev).
Proof.
  intros Hfind Hlist.
  pose proof (pushAllChanges_cases cfg w localFiles serverArticles Hfind Hlist) as Hcases.
  cbv zeta in Hcases.
  set (localByID := (cmd.loadByID w localFiles).1) in *.
  set (localPaths := (cmd.loadByID w localFiles).2) in *.
  set (serverByID := cmd.indexByID serverArticles) in *.
  set (pagesToPush := cmd.collectPages localByID localPaths serverByID) in *.
  set (newPages := cmd.collectNewPages w localFiles serverByID) in *.
  assert (Hnewfile : ∀ filePath md,
            filePath ∈ localFiles → decodeFile w filePath = Some md →
            fileID md = "" ∨ fileID md ∉ api.ID <$> serverArticles →
            filePath ∈ newPages).
  { intros. by eapply new_file_listed. }
  assert (Hfinish : ∀ ev err,
            cmd.pushAllChanges cfg w = Some (ev, err) →
            Forall (pushEventAllowed w localFiles serverArticles) ev →
            (∀ filePath, filePath ∈ newPages →
                         Stdout ("   " +:+ filePath +:+ nl) ∈ ev) →
            (last ev = Some (Stdout (nl +:+ "Push complete." +:+ nl)) →
             ∀ e, e ∈ cmd.deletedWarnings localByID serverByID → e ∈ ev) →
            ∃ ev err,
              cmd.pushAllChanges cfg w = Some (ev, err)
              ∧ Forall (pushEventAllowed w localFiles serverArticles) ev
              ∧ (∀ filePath md,
                   filePath ∈ localFiles → decodeFile w filePath = Some md →
                   fileID md = "" ∨ fileID md ∉ api.ID <$> serverArticles →
                   (∀ title content, ApiUpdateArticle (fileID md) title content ∉ ev)
                   ∧ Stdout ("   " +:+ filePath +:+ nl) ∈ ev)
              ∧ (∀ a,
                   a ∈ serverArticles → NoDup (api.ID <$> serverArticles) →
                   (∀ filePath md, filePath ∈ localFiles →
                      decodeFile w filePath = Some md →
                      fileID md ≠ "" → fileID md ≠ api.ID a) →
                   last ev = Some (Stdout (nl +:+ "Push complete." +:+ nl)) →
                   Stdout ("⚠️  Page deleted locally: " +:+ api.Title a +:+ nl) ∈ ev
                   ∧ Stdout ("   Delete manually at: " +:+ api.URL a +:+ nl) ∈ ev)).
  { intros ev err Hrun Hall Hskip Hdel. exists ev, err. split_and!; try done.
    - intros filePath md Hin Hdec Hnew. split.
      + intros title content Hupd.
        destruct (allowed_update_known _ _ _ _ _ _ _ Hall Hupd) as [Hid Hsrv].
        destruct Hnew; done.
      + apply Hskip. by eapply Hnewfile.
    - intros a Ha Hnd Hnone Hlast.
      destruct (deletedWarnings_elem localByID serverByID (api.ID a) a) as [H1 H2].
      + by apply indexByID_NoDup.
      + by apply loadByID_None.
      + split; by apply Hdel. }
  destruct Hcases as [(Hp & Hn & Hrun)|[Hne Hrun]].
  - eapply Hfinish; [exact Hrun| | |].
    + apply Forall_app. split; [apply scanned_allowed | repeat constructor].
    + intros filePath Hin. rewrite Hn in Hin. by apply elem_of_nil in Hin.
    + rewrite last_snoc. by intros [=].
  - destruct (strings.ReadString (Stdin w)) as [response [e|]].
    + eapply Hfinish; [exact Hrun| | |].
      * apply Forall_app. split; [apply scanned_allowed|].
        apply output_allowed, planEvents_output.
      * intros filePath Hin. apply elem_of_app. right. by apply skipped_elem.
      * unfold cmd.planEvents. rewrite !last_app. by intros [=].
    + destruct (cmd.confirmed response).
      * destruct Hrun as (updates & Hup & Hrun & Hcalls & Hall).
        eapply Hfinish; [exact Hrun| | |].
        -- apply Forall_app; split; [apply scanned_allowed|].
           apply Forall_app; split; [apply output_allowed, planEvents_output|].
           apply Forall_app; split; [repeat constructor|].
           apply Forall_app; split.
           { eapply updates_allowed; [|exact Hcalls|exact Hall].
             by apply Forall_forall. }
           apply Forall_app; split; [|repeat constructor].
           apply output_allowed, deletedWarnings_output.
        -- intros filePath Hin. apply elem_of_app. right.
           apply elem_of_app. left. by apply skipped_elem.
        -- intros _ e He. rewrite !elem_of_app. do 4 right. by left.
      * eapply Hfinish; [exact Hrun| | |].
        -- apply Forall_app; split; [apply scanned_allowed|].
           apply Forall_app; split; [|repeat constructor].
           apply output_allowed, planEvents_output.
        -- intros filePath Hin. apply elem_of_app. right.
           apply elem_of_app. left. by apply skipped_elem.
        -- rewrite !app_assoc, last_snoc. by intros [=].
Qed.

(** C6. Once the files and the articles are listed, a bulk push ends in one
    of these ways. When there is neither a page to update nor a new file, it
    prints "No changes to push." and returns without error, without reading
    standard input and without an update. Otherwise it prints the plan
    (the heading, one numbered line with title and path for every page to
    update, then, when there are new files, their count, one line for each
    of them and the advice to create them by hand) and the prompt, and
    reads one line: when the line, lowered and trimmed, is
    [y] or [yes], it calls [UpdateArticle] once for each planned page, in
    the order of the plan; for any other line it prints "Push cancelled."
    and returns without error and without an update; when standard input
    ends before a line is complete it returns the read error, again without
    an update. So an update is only ever made after an answer [y] or
    [yes]. *)
Theorem C6_bulk_push_confirmation
    {R : GoRuntime} {L : GoRuntimeLaws R}
    (cfg : api.Config) (w : World)
    (localFiles : list string) (serverArticles : list api.Article) :
  FindMarkdownFiles w = Ok localFiles →
  api.ListArticles cfg (http_get w) = Ok serverArticles →
  let localByID := (cmd.loadByID w localFiles).1 in
  let localPaths := (cmd.loadByID w localFiles).2 in
  let serverByID := cmd.indexByID serverArticles in
  let pagesToPush := cmd.collectPages localByID localPaths serverByID in
  let newPages := cmd.collectNewPages w localFiles serverByID in
  ∃ ev err,
    cmd.pushAllChanges cfg w = Some (ev, err)
    ∧ (pagesToPush = [] ∧ newPages = [] →
       ev = cmd.scannedEvents localFiles ++ [Stdout ("No changes to push." +:+ nl)]
       ∧ err = None ∧ (StdinReadLine ∉ ev) ∧ updateCalls ev = [])
    ∧ (¬ (pagesToPush = [] ∧ newPages = []) →
       (∃ rest, ev = cmd.scannedEvents localFiles
                     ++ cmd.planEvents pagesToPush newPages ++ rest)
       ∧ (∃ before rest,
            ev = before
                 ++ [Stdout (nl +:+ "Pages to be pushed:" +:+ nl)]
                 ++ imap (λ i p, Stdout ("  " +:+ pretty (i + 1) +:+ ". "
                                         +:+ cmd.page_title p +:+ " ("
                                         +:+ cmd.page_filePath p +:+ ")" +:+ nl))
                         pagesToPush
                 ++ (match newPages with
                    | [] => []
                    | _ :: _ =>
                        [Stdout (nl +:+ "⚠️  Skipped " +:+ pretty (length newPages)
                                 +:+ " new articles (creation not supported):" +:+ nl)]
                        ++ ((λ path, Stdout ("   " +:+ path +:+ nl)) <$> newPages)
                        ++ [Stdout ("   Create these articles manually in YouTrack first, then download to get their IDs." +:+ nl)]
                    end)
                 ++ [Stdout (nl +:+ "Proceed with push? (y/N): "); StdinReadLine]
                 ++ rest
            ∧ before = [FsWalk "."; ApiListArticles]
                       ++ (FsRead <$> localFiles) ++ (FsRead <$> localFiles)
            ∧ (StdinReadLine ∉ rest) ∧ updateCalls before = [])
       ∧ match strings.ReadString (Stdin w) with
         | (response, None) =>
             if cmd.confirmed response
             then Forall2 (updateOf localByID) (updateCalls ev) pagesToPush
                  ∧ err = None
             else updateCalls ev = [] ∧ err = None
                  ∧ last ev = Some (Stdout ("Push cancelled." +:+ nl))
         | (_, Some e) =>
             updateCalls ev = []
             ∧ err = Some ("failed to read response: " +:+ e)
         end)
    ∧ (updateCalls ev ≠ [] →
       ∃ response,
         strings.ReadString (Stdin w) = (response, None)
         ∧ (strings_TrimSpace (strings_ToLower response) = "y"
            ∨ strings_TrimSpace (strings_ToLower response) = "yes")).
Proof.
  intros Hfind Hlist localByID localPaths serverByID pagesToPush newPages.
  pose proof (pushAllChanges_cases cfg w localFiles serverArticles Hfind Hlist) as Hcases.
  cbv zeta in Hcases.
  fold localByID localPaths serverByID pagesToPush newPages in Hcases.
  assert (Hplan : updateCalls (cmd.planEvents pagesToPush newPages) = []).
  { apply updateCalls_output, planEvents_output. }
  destruct Hcases as [(Hp & Hn & Hrun)|[Hne Hrun]].
  - eexists _, _. split; [exact Hrun|]. 
    assert (Hno : updateCalls (cmd.scannedEvents localFiles
                               ++ [Stdout ("No changes to push." +:+ nl)]) = []).
    { by rewrite updateCalls_app, scanned_no_update. }
    split_and!.
    + intros _. split_and!; try done.
      intros Hin. apply elem_of_app in Hin as [Hin|Hin].
      * by apply scanned_no_prompt in Hin.
      * by apply list_elem_of_singleton in Hin.
    + intros Hne. by destruct Hne.
    + intros Hupd. by rewrite Hno in Hupd.
  - destruct (strings.ReadString (Stdin w)) as [response [e|]] eqn:Hread.
    + eexists _, _. split; [exact Hrun|].
      assert (Hno : updateCalls (cmd.scannedEvents localFiles
                                 ++ cmd.planEvents pagesToPush newPages) = []).
      { by rewrite updateCalls_app, scanned_no_update, Hplan. }
      split_and!.
      * intros Hboth. by destruct Hne.
      * intros _. split; [exists []; by rewrite app_nil_r|]. split; [|done].
        pose proof (plan_shown localFiles pagesToPush newPages []
                      (not_elem_of_nil _)) as Hshown.
        rewrite app_nil_r in Hshown. exact Hshown.
      * intros Hupd. by rewrite Hno in Hupd.
    + destruct (cmd.confirmed response) eqn:Hc.
      * destruct Hrun as (updates & Hup & Hrun & Hcalls & Hall).
        eexists _, _. split; [exact Hrun|].
        assert (Heq : updateCalls
                        (cmd.scannedEvents localFiles
                         ++ cmd.planEvents pagesToPush newPages
                         ++ [Stdout (nl +:+ "Pushing changes..." +:+ nl)]
                         ++ updates
                         ++ cmd.deletedWarnings localByID serverByID
                         ++ [Stdout (nl +:+ "Push complete." +:+ nl)])
                      = updateCalls updates).
        { rewrite !updateCalls_app, scanned_no_update, Hplan.
          rewrite (updateCalls_output (cmd.deletedWarnings _ _))
            by apply deletedWarnings_output.
          simpl. by rewrite app_nil_r. }
        split_and!.
        -- intros Hboth. by destruct Hne.
        -- intros _. split; [by eexists|]. split; [|by rewrite Heq].
           apply plan_shown. rewrite !not_elem_of_app. split_and!.
           ++ by intros ?%list_elem_of_singleton.
           ++ by eapply pushPages_no_prompt.
           ++ apply deletedWarnings_no_prompt.
           ++ by intros ?%list_elem_of_singleton.
        -- intros _. exists response. split; [done|]. by apply confirmed_spec.
      * eexists _, _. split; [exact Hrun|].
        assert (Hno : updateCalls
                        (cmd.scannedEvents localFiles
                         ++ cmd.planEvents pagesToPush newPages
                         ++ [Stdout ("Push cancelled." +:+ nl)]) = []).
        { by rewrite !updateCalls_app, scanned_no_update, Hplan. }
        split_and!.
        -- intros Hboth. by destruct Hne.
        -- intros _. split; [by eexists|]. split.
           { apply plan_shown. by intros ?%list_elem_of_singleton. }
           split_and!; try done.
           by rewrite !app_assoc, last_snoc.
        -- intros Hupd. by rewrite Hno in Hupd.
Qed.

(** *** The scenario of two remote articles, one of them edited locally *)

Definition yes_world : World := Examples.world ("yes" +:+ nl).
Definition no_world : World := Examples.world ("n" +:+ nl).
Definition local_files : list string :=
  ["Intro.md"; "Intro/Draft.md"; "Intro/Setup.md"; "notes.md"].

Example confirmed_case_insensitive :
  cmd.confirmed (R := GoModel.runtime) ("YES" +:+ nl) = true
  ∧ cmd.confirmed (R := GoModel.runtime) (" Y " +:+ nl) = true
  ∧ cmd.confirmed (R := GoModel.runtime) ("yes" +:+ nl) = true
  ∧ cmd.confirmed (R := GoModel.runtime) nl = false
  ∧ cmd.confirmed (R := GoModel.runtime) ("no" +:+ nl) = false
  ∧ cmd.confirmed (R := GoModel.runtime) ("yess" +:+ nl) = false.
Proof. repeat split; reflexivity. Qed.

Ltac by_vm := vm_compute; reflexivity.

Lemma world_lists (stdin : string) :
  FindMarkdownFiles (Examples.world stdin) = Ok local_files
  ∧ api.ListArticles Examples.cfg (http_get (Examples.world stdin))
    = Ok Examples.articles.
Proof. split; reflexivity. Qed.

Lemma C5_witness :
  ∃ ev,
    cmd.pushAllChanges (R := GoModel.runtime) Examples.cfg yes_world = Some (ev, None)
    ∧ updateCalls ev = [ApiUpdateArticle "A-2" "Setup" "z"]
    ∧ Forall (pushEventAllowed (R := GoModel.runtime) yes_world local_files
                Examples.articles) ev
    ∧ Stdout ("   Intro/Draft.md" +:+ nl) ∈ ev.
Proof.
  destruct (@C5_bulk_push_only_updates GoModel.runtime GoModel_laws
              Examples.cfg yes_world local_files Examples.articles
              (proj1 (world_lists _)) (proj2 (world_lists _)))
    as (ev & err & Hrun & Hall & Hnew & _).
  assert (Hval : ∃ l, cmd.pushAllChanges (R := GoModel.runtime) Examples.cfg yes_world
                      = Some (l, None)
                      ∧ updateCalls l = [ApiUpdateArticle "A-2" "Setup" "z"])
    by (eexists; split; by_vm).
  destruct Hval as (l & Hl & Hcalls).
  rewrite Hl in Hrun. injection Hrun as <- <-.
  exists l. split_and!; [done | done | done |].
  assert (Hdec : decodeFile (R := GoModel.runtime) yes_world "Intro/Draft.md"
                 = Some {| markdown.Frontmatter_ :=
                             {| markdown.ID := ""; markdown.Title := "Draft";
                                markdown.URL := "" |};
                           markdown.Content := "d" |}) by by_vm.
  assert (Hin : "Intro/Draft.md" ∈ local_files) by by_evaluation.
  exact (proj2 (Hnew _ _ Hin Hdec (or_introl eq_refl))).
Defined.

Lemma C6_witness :
  (∃ ev, cmd.pushAllChanges (R := GoModel.runtime) Examples.cfg yes_world = Some (ev, None)
         ∧ updateCalls ev = [ApiUpdateArticle "A-2" "Setup" "z"])
  ∧ (∃ ev, cmd.pushAllChanges (R := GoModel.runtime) Examples.cfg no_world = Some (ev, None)
           ∧ updateCalls ev = []
           ∧ last ev = Some (Stdout ("Push cancelled." +:+ nl))
           ∧ Stdout ("  1. Setup (Intro/Setup.md)" +:+ nl) ∈ ev).
Proof.
  split.
  - pose proof (@C6_bulk_push_confirmation GoModel.runtime GoModel_laws
                  Examples.cfg yes_world local_files Examples.articles
                  (proj1 (world_lists _)) (proj2 (world_lists _))) as H.
    cbv zeta in H. destruct H as (ev & err & Hrun & Hnone & Hplan & Honly).
    assert (Hval : ∃ l, cmd.pushAllChanges (R := GoModel.runtime) Examples.cfg yes_world
                        = Some (l, None)
                        ∧ updateCalls l = [ApiUpdateArticle "A-2" "Setup" "z"])
      by (eexists; split; by_vm).
    exact Hval.
  - pose proof (@C6_bulk_push_confirmation GoModel.runtime GoModel_laws
                  Examples.cfg no_world local_files Examples.articles
                  (proj1 (world_lists _)) (proj2 (world_lists _))) as H.
    cbv zeta in H. destruct H as (ev & err & Hrun & Hnone & Hplan & Honly).
    assert (Hne : ¬ (cmd.collectPages (R := GoModel.runtime)
                       (cmd.loadByID no_world local_files).1
                       (cmd.loadByID no_world local_files).2
                       (cmd.indexByID Examples.articles) = []
                     ∧ cmd.collectNewPages no_world local_files
                         (cmd.indexByID Examples.articles) = [])).
    { intros [H _]. revert H. vm_compute. discriminate. }
    destruct (Hplan Hne) as (_ & Hshown & Hans).
    assert (Hread : strings.ReadString (Stdin no_world) = ("n" +:+ nl, @None error))
      by by_vm.
    assert (Hconf : cmd.confirmed (R := GoModel.runtime) ("n" +:+ nl) = false) by by_vm.
    rewrite Hread, Hconf in Hans.
    destruct Hans as (Hno & -> & Hlast).
    exists ev. split; [exact Hrun|]. split; [exact Hno|]. split; [exact Hlast|].
    destruct Hshown as (before & rest & Hev & _).
    assert (Hpages : cmd.collectPages (R := GoModel.runtime)
                       (cmd.loadByID no_world local_files).1
                       (cmd.loadByID no_world local_files).2
                       (cmd.indexByID Examples.articles)
                     = [ {| cmd.page_id := "A-2"; cmd.page_title := "Setup";
                            cmd.page_filePath := "Intro/Setup.md" |} ]) by by_vm.
    rewrite Hpages in Hev. rewrite Hev, !elem_of_app. right. right. left.
    apply list_elem_of_singleton. by_vm.
Defined.

(** ** The markdown codec *)

Section string_facts.
Implicit Types (s t pre sep : string).

Lemma string_length_app s t :
  String.length (s +:+ t) = String.length s + String.length t.
Proof. induction s as [|c s IH]; simpl; [done|]. by rewrite IH. Qed.

Lemma HasPrefix_length s pre :
  strings.HasPrefix s pre = true → String.length pre ≤ String.length s.
Proof.
  revert s. induction pre as [|c pre IH]; intros s H; simpl; [lia|].
  destruct s as [|d s]; simpl in *; [done|].
  destruct (Ascii.eqb c d); [|done]. apply IH in H. lia.
Qed.

(** Appending text does not change whether [pre] is a prefix, once the
    string is at least as long as [pre]. *)
Lemma HasPrefix_app s t pre :
  String.length pre ≤ String.length s →
  strings.HasPrefix (s +:+ t) pre = strings.HasPrefix s pre.
Proof.
  revert s. induction pre as [|c pre IH]; intros s Hlen; [done|].
  destruct s as [|d s]; simpl in *; [lia|].
  destruct (Ascii.eqb c d); [|done]. apply IH. lia.
Qed.

Lemma Index_unfold s sep :
  strings.Index s sep
  = if strings.HasPrefix s sep then Some 0
    else match s with
         | EmptyString => None
         | String _ s' => S <$> strings.Index s' sep
         end.
Proof. by destruct s. Qed.

Lemma Index_bound s sep i :
  strings.Index s sep = Some i → i + String.length sep ≤ String.length s.
Proof.
  revert i. induction s as [|c s IH]; intros i; rewrite Index_unfold.
  - destruct (strings.HasPrefix "" sep) eqn:Hp; [|done].
    intros [= <-]. by apply HasPrefix_length in Hp.
  - destruct (strings.HasPrefix (String c s) sep) eqn:Hp.
    + intros [= <-]. by apply HasPrefix_length in Hp.
    + destruct (strings.Index s sep) as [j|]; [|done].
      intros [= <-]. specialize (IH j eq_refl). simpl. lia.
Qed.

(** The first occurrence of [sep] in [s] is still the first one after text
    is appended to [s]. *)
Lemma Index_app s t sep i :
  strings.Index s sep = Some i → strings.Index (s +:+ t) sep = Some i.
Proof.
  revert i. induction s as [|c s IH]; intros i; rewrite Index_unfold.
  - destruct (strings.HasPrefix "" sep) eqn:Hp; [|done].
    intros [= <-]. apply HasPrefix_length in Hp.
    destruct sep; [|simpl in Hp; lia]. by destruct t.
  - destruct (strings.HasPrefix (String c s) sep) eqn:Hp.
    + intros [= <-]. rewrite Index_unfold.
      rewrite HasPrefix_app by (by apply HasPrefix_length). by rewrite Hp.
    + destruct (strings.Index s sep) as [j|] eqn:Hj; [|done].
      intros [= <-]. rewrite (Index_unfold (String c s +:+ t)).
      rewrite HasPrefix_app, Hp.
      * simpl. by rewrite (IH j).
      * apply Index_bound in Hj. simpl. lia.
Qed.

Lemma from_app s t n :
  n ≤ String.length s → strings.from n (s +:+ t) = strings.from n s +:+ t.
Proof.
  revert s. induction n as [|n IH]; intros [|c s] Hlen; simpl in *; try done; try lia.
  apply IH. lia.
Qed.

Lemma upto_app s t n :
  n ≤ String.length s → strings.upto n (s +:+ t) = strings.upto n s.
Proof.
  revert s. induction n as [|n IH]; intros [|c s] Hlen; simpl in *; try done; try lia.
  f_equal. apply IH. lia.
Qed.

Lemma from_length s n :
  n ≤ String.length s → String.length (strings.from n s) = String.length s - n.
Proof.
  revert s. induction n as [|n IH]; intros [|c s] Hlen; simpl in *; try done; try lia.
  apply IH. lia.
Qed.
End string_facts.

Section codec.
Context {R : GoRuntime}.
Import markdown_codec.

(** What the decoder makes of an encoded document whose metadata block, as
    written by [yaml.Marshal], contains the delimiter text: it cuts the
    metadata at the first delimiter inside it and takes everything after
    that as body. *)
Lemma ParseMarkdown_delimiter_inside fm body yamlData i :
  yaml_Marshal fm = Ok yamlData →
  strings.Index yamlData delimiter = Some i →
  WriteMarkdown fm body = Ok (delimiter +:+ yamlData +:+ delimiter +:+ body)
  ∧ ParseMarkdown (delimiter +:+ yamlData +:+ delimiter +:+ body)
    = match yaml_Unmarshal (strings.upto i yamlData) with
      | Err e => Err ("failed to parse frontmatter: " +:+ e)
      | Ok frontmatter =>
          Ok {| markdown.Frontmatter_ := frontmatter;
                markdown.Content :=
                  strings.from (i + 4) yamlData +:+ delimiter +:+ body |}
      end.
Proof.
  intros Hm Hi. split; [unfold WriteMarkdown; by rewrite Hm|].
  pose proof (Index_bound _ _ _ Hi) as Hlen.
  change (String.length delimiter) with 4 in Hlen.
  set (doc := delimiter +:+ yamlData +:+ delimiter +:+ body).
  assert (Hstart : strings.Index doc delimiter = Some 0) by reflexivity.
  assert (Hrest : strings.from (0 + 4) doc = yamlData +:+ delimiter +:+ body)
    by reflexivity.
  assert (Hdoc : String.length doc
                 = 4 + (String.length yamlData + (4 + String.length body))).
  { unfold doc. by rewrite !string_length_app. }
  assert (Hbody : strings.from (0 + 4 + i + 4) doc
                  = strings.from (i + 4) yamlData +:+ delimiter +:+ body).
  { replace (0 + 4 + i + 4) with (4 + (i + 4)) by lia.
    change (strings.from (4 + (i + 4)) doc)
      with (strings.from (i + 4) (yamlData +:+ delimiter +:+ body)).
    by rewrite from_app by lia. }
  unfold ParseMarkdown. rewrite Hstart. cbv beta iota zeta.
  unfold strings.slice. rewrite Hrest, (Index_app _ _ _ _ Hi).
  cbv beta iota zeta.
  replace (0 + 4 + i - (0 + 4)) with i by lia.
  rewrite upto_app by lia.
  destruct (yaml_Unmarshal (strings.upto i yamlData)) as [frontmatter|e]; [|done].
  rewrite Hdoc, Hbody.
  replace (0 + 4 + i + 4 <? 4 + (String.length yamlData + (4 + String.length body)))
    with true by (symmetry; apply Nat.ltb_lt; lia).
  done.
Qed.
End codec.

(** C9, where the code departs from it. Whenever the metadata block
    [yaml.Marshal] writes for a frontmatter contains the text of the
    delimiter (three dashes and a newline), encoding succeeds and decoding
    the document does not give back the body: it either fails or returns a
    body that still carries the rest of the metadata block and the closing
    delimiter. *)
Theorem C9_roundtrip_broken
    {R : GoRuntime} (fm : markdown.Frontmatter) (body yamlData : string) (i : nat) :
  yaml_Marshal fm = Ok yamlData →
  strings.Index yamlData markdown_codec.delimiter = Some i →
  ∃ doc,
    markdown_codec.WriteMarkdown fm body = Ok doc
    ∧ ∀ md, markdown_codec.ParseMarkdown doc = Ok md →
            markdown.Content md ≠ body
            ∧ yaml_Unmarshal (strings.upto i yamlData) = Ok (markdown.Frontmatter_ md).
Proof.
  intros Hm Hi.
  destruct (ParseMarkdown_delimiter_inside fm body yamlData i Hm Hi) as [Hw Hp].
  eexists. split; [exact Hw|].
  intros md Hmd. rewrite Hp in Hmd.
  destruct (yaml_Unmarshal (strings.upto i yamlData)) as [frontmatter|e]; [|done].
  injection Hmd as <-. simpl. split; [|done].
  intros Heq. apply (f_equal String.length) in Heq.
  rewrite !string_length_app in Heq.
  change (String.length markdown_codec.delimiter) with 4 in Heq. lia.
Qed.

(** The failing input: a title that ends in three dashes. *)
Definition dashed : markdown.Frontmatter :=
  {| markdown.ID := "A-1"; markdown.Title := "a---"; markdown.URL := "" |}.

Lemma C9_witness :
  ∃ doc,
    markdown_codec.WriteMarkdown (R := GoModel.runtime) dashed "b" = Ok doc
    ∧ markdown_codec.ParseMarkdown (R := GoModel.runtime) doc
      = Ok {| markdown.Frontmatter_ :=
                {| markdown.ID := "A-1"; markdown.Title := "a"; markdown.URL := "" |};
              markdown.Content := "---" +:+ nl +:+ "b" |}
    ∧ ∀ md, markdown_codec.ParseMarkdown (R := GoModel.runtime) doc = Ok md →
            markdown.Content md ≠ "b".
Proof.
  assert (Hm : yaml_Marshal (GoRuntime := GoModel.runtime) dashed
               = Ok ("id: A-1" +:+ nl +:+ "title: a---" +:+ nl)) by by_vm.
  assert (Hi : strings.Index ("id: A-1" +:+ nl +:+ "title: a---" +:+ nl)
                 markdown_codec.delimiter = Some 16) by by_vm.
  destruct (@C9_roundtrip_broken GoModel.runtime dashed "b" _ _ Hm Hi)
    as (doc & Hw & Hbad).
  exists doc. split; [exact Hw|].
  assert (Hdoc : markdown_codec.WriteMarkdown (R := GoModel.runtime) dashed "b"
                 = Ok ("---" +:+ nl +:+ "id: A-1" +:+ nl +:+ "title: a---" +:+ nl
                       +:+ "---" +:+ nl +:+ "b")) by by_vm.
  rewrite Hdoc in Hw. injection Hw as <-.
  split; [by_vm|]. intros md Hmd. exact (proj1 (Hbad md Hmd)).
Defined.

(** Away from such titles the round trip holds, as on this document. *)
Example roundtrip_plain :
  ∃ doc,
    markdown_codec.WriteMarkdown (R := GoModel.runtime)
      {| markdown.ID := "A-1"; markdown.Title := "Intro";
         markdown.URL := "https://yt.example/articles/A-1" |}
      ("one" +:+ nl +:+ "---" +:+ nl +:+ "two") = Ok doc
    ∧ markdown_codec.ParseMarkdown (R := GoModel.runtime) doc
      = Ok {| markdown.Frontmatter_ :=
                {| markdown.ID := "A-1"; markdown.Title := "Intro";
                   markdown.URL := "https://yt.example/articles/A-1" |};
              markdown.Content := "one" +:+ nl +:+ "---" +:+ nl +:+ "two" |}.
Proof.
  eexists. split.
  - by_vm.
  - by_vm.
Qed.

(** ** The tree of calls

    [buildTreeNode] and [downloadArticleRecursive] walk the articles in the
    same way: a call for an article ranges over the index, keeps the
    articles whose parent reference is its identifier, sorts them by
    [Order] and calls itself on each. [callTree] is that walk alone: the
    article of each call with the trees of the calls it makes, in order. *)

#[warnings="-register-all"]
Inductive rtree : Type :=
| RNode (article : api.Article) (children : list rtree).

Definition rt_article (t : rtree) : api.Article :=
  match t with RNode a _ => a end.

Definition rt_children (t : rtree) : list rtree :=
  match t with RNode _ ts => ts end.

Section rtree_induction.
Variable P : rtree → Prop.
Hypothesis step : ∀ a ts, Forall P ts → P (RNode a ts).

Fixpoint rtree_ind_nested (t : rtree) : P t :=
  match t with
  | RNode a ts =>
      step a ts
        ((fix go (l : list rtree) : Forall P l :=
            match l with
            | [] => Forall_nil_2 P
            | t' :: l' => Forall_cons_2 P t' l' (rtree_ind_nested t') (go l')
            end) ts)
  end.
End rtree_induction.

(** All the nodes of a tree, the root first, then the subtrees from left to
    right (the order of the calls). *)
Fixpoint nodesOf (t : rtree) : list rtree :=
  t :: concat (nodesOf <$> rt_children t).

Definition forestNodesOf (ts : list rtree) : list rtree :=
  concat (nodesOf <$> ts).

Definition articlesOf (ts : list rtree) : list api.Article :=
  rt_article <$> forestNodesOf ts.

Section call_tree.
Context {R : GoRuntime}.

Fixpoint callTree (fuel : nat) (stack : list string) (article : api.Article)
    (articlesByID : gmap string api.Article) : option rtree :=
  match fuel with
  | 0 => None
  | S fuel' =>
      let here := api.ID article :: stack in
      children ← mapM (λ child, callTree fuel' here child articlesByID)
                      (cmd.sortedChildren here article articlesByID);
      Some (RNode article children)
  end.

Definition callForest (fuel : nat) (articles : list api.Article)
    : option (list rtree) :=
  mapM (λ article, callTree fuel [] article (cmd.indexByID articles))
       (cmd.sortedRoots articles).

(** The node [buildTreeNode] makes of a call. *)
Fixpoint nodeOf (articleStatus : gmap string ArticleStatus)
    (articlePaths : gmap string string) (t : rtree) : ArticleNode :=
  match t with
  | RNode article children =>
      {| ID := api.ID article;
         Title := api.Title article;
         Status := default StatusUnchanged (articleStatus !! api.ID article);
         Children := nodeOf articleStatus articlePaths <$> children;
         Path := default "" (articlePaths !! api.ID article) |}
  end.

Lemma mapM_fmap_comm {A B C} (f : B → C) (g : A → option B) (l : list A) :
  mapM (λ x, f <$> g x) l = fmap (fmap f) (mapM g l).
Proof.
  induction l as [|x l IH]; simpl; [done|].
  destruct (g x) as [y|]; simpl; [|done].
  rewrite IH. by destruct (mapM g l).
Qed.

Lemma callTree_inv fuel stack article articlesByID t :
  callTree fuel stack article articlesByID = Some t →
  ∃ fuel' ts,
    fuel = S fuel' ∧ t = RNode article ts
    ∧ Forall2 (λ child t', callTree fuel' (api.ID article :: stack) child
                             articlesByID = Some t')
              (cmd.sortedChildren (api.ID article :: stack) article articlesByID) ts.
Proof.
  destruct fuel as [|fuel']; [done|]. simpl.
  destruct (mapM _ _) as [ts|] eqn:Hts; [|done]. simpl.
  intros [= <-]. exists fuel', ts. split_and!; try done.
  by apply mapM_Some_1.
Qed.

Lemma callTree_article fuel stack article articlesByID t :
  callTree fuel stack article articlesByID = Some t → rt_article t = article.
Proof. intros H. by apply callTree_inv in H as (? & ? & _ & -> & _). Qed.

Lemma callTree_children fuel stack article articlesByID t :
  callTree fuel stack article articlesByID = Some t →
  rt_article <$> rt_children t
  = cmd.sortedChildren (api.ID article :: stack) article articlesByID.
Proof.
  intros H. apply callTree_inv in H as (fuel' & ts & _ & -> & Hts). simpl.
  induction Hts as [|c t' cs ts Hc _ IH]; [done|].
  rewrite fmap_cons, IH. f_equal. by eapply callTree_article.
Qed.

(** The diff tree is the tree of calls, node for node. *)
Lemma buildTreeNode_callTree fuel stack article articlesByID
    articleStatus articleTitles articlePaths :
  cmd.buildTreeNode fuel stack article articlesByID
    articleStatus articleTitles articlePaths
  = nodeOf articleStatus articlePaths
      <$> callTree fuel stack article articlesByID.
Proof.
  revert stack article. induction fuel as [|fuel IH]; intros stack article; [done|].
  simpl.
  rewrite (mapM_ext _ (λ child, nodeOf articleStatus articlePaths
                                  <$> callTree fuel (api.ID article :: stack)
                                        child articlesByID))
    by (intros child; apply IH).
  rewrite mapM_fmap_comm.
  by destruct (mapM _ _).
Qed.

Lemma buildRootNodes_callForest fuel articles
    articleStatus articleTitles articlePaths :
  cmd.buildRootNodes fuel articles articleStatus articleTitles articlePaths
  = (fmap (nodeOf articleStatus articlePaths) : list rtree → list ArticleNode)
      <$> callForest fuel articles.
Proof.
  unfold cmd.buildRootNodes, callForest.
  rewrite (mapM_ext _ (λ article, nodeOf articleStatus articlePaths
                                    <$> callTree fuel [] article
                                          (cmd.indexByID articles)))
    by (intros a; apply buildTreeNode_callTree).
  apply mapM_fmap_comm.
Qed.

(** Every node of a tree of calls is itself the tree of a call. *)
Lemma nodesOf_calls fuel stack article articlesByID t :
  callTree fuel stack article articlesByID = Some t →
  ∀ t', t' ∈ nodesOf t →
    ∃ fuel' stack', callTree fuel' stack' (rt_article t') articlesByID = Some t'.
Proof.
  revert stack article t. induction fuel as [|fuel IH]; intros stack article t Ht;
    [done|].
  pose proof Ht as Hinv.
  apply callTree_inv in Hinv as (fuel' & ts & [= <-] & -> & Hts).
  intros t' Ht'. simpl in Ht'. apply elem_of_cons in Ht' as [->|Ht'].
  { exists (S fuel), stack. exact Ht. }
  apply elem_of_concat in Ht' as (l & Hl & Hin).
  apply list_elem_of_fmap in Hl as (tc & -> & Htc).
  destruct (proj1 (list_elem_of_lookup ts tc) Htc) as [i Hi].
  destruct (Forall2_lookup_r _ _ _ _ _ Hts Hi) as (c & _ & Hc).
  by eapply IH.
Qed.
End call_tree.

(** ** Children: sorted by [Order], in no fixed order among equals *)

Section children.
Context {R : GoRuntime} {L : GoRuntimeLaws R}.

Definition byOrder (x y : api.Article) : Prop := (api.Order x ≤ api.Order y)%Z.

Lemma sortedChildren_sorted stack article articlesByID :
  StronglySorted byOrder (cmd.sortedChildren stack article articlesByID).
Proof. apply (sort_Slice_sorted _ api.Order). Qed.

Lemma sortedChildren_perm stack article articlesByID :
  cmd.sortedChildren stack article articlesByID
  ≡ₚ filter (λ child, cmd.isChildOf article child = true)
            (snd <$> map_to_list articlesByID).
Proof.
  unfold cmd.sortedChildren, cmd.findChildren.
  by rewrite sort_Slice_perm, range_map_perm.
Qed.

Lemma sortedRoots_sorted articles :
  StronglySorted byOrder (cmd.sortedRoots articles).
Proof. apply (sort_Slice_sorted _ api.Order). Qed.

Lemma sortedRoots_perm articles :
  cmd.sortedRoots articles ≡ₚ filter (λ a, cmd.isRoot a = true) articles.
Proof. apply sort_Slice_perm. Qed.
End children.

(** ** The download walks the tree of calls *)

Definition frontmatterOf (a : api.Article) : markdown.Frontmatter :=
  {| markdown.ID := api.ID a; markdown.Title := api.Title a; markdown.URL := api.URL a |}.

Section download.
Context {R : GoRuntime}.

(** The files of a tree of calls started in directory [basePath]: path and
    article, in the order of the calls. *)
Fixpoint treeFiles (basePath : string) (t : rtree) : list (string * api.Article) :=
  match t with
  | RNode article children =>
      let sanitizedTitle := filesystem.SanitizeFilename (api.Title article) in
      (filepath_Join basePath (sanitizedTitle +:+ ".md"), article)
      :: concat (treeFiles (filepath_Join basePath sanitizedTitle) <$> children)
  end.

(** Event [e] writes the encoded article of [file] to the path of
    [file]. *)
Definition written (e : event) (file : string * api.Article) : Prop :=
  ∃ content,
    markdown_codec.WriteMarkdown (frontmatterOf file.2) (api.Content file.2)
    = Ok content
    ∧ e = FsWrite file.1 content.

Lemma fileWrites_app ev1 ev2 :
  fileWrites (ev1 ++ ev2) = fileWrites ev1 ++ fileWrites ev2.
Proof. apply filter_app. Qed.

Lemma fileWrites_Stdout text ev : fileWrites (Stdout text :: ev) = fileWrites ev.
Proof. reflexivity. Qed.

Lemma fileWrites_FsWrite path content ev :
  fileWrites (FsWrite path content :: ev) = FsWrite path content :: fileWrites ev.
Proof. reflexivity. Qed.

Lemma fileWrites_concat evs :
  fileWrites (concat evs) = concat (fileWrites <$> evs).
Proof.
  induction evs as [|ev evs IH]; [done|].
  simpl. by rewrite fileWrites_app, IH.
Qed.

Lemma Forall2_concat {A B} (P : A → B → Prop) xss yss :
  Forall2 (Forall2 P) xss yss → Forall2 P (concat xss) (concat yss).
Proof.
  induction 1 as [|xs ys xss yss Hxy _ IH]; simpl; [constructor|].
  by apply Forall2_app.
Qed.

Lemma forEach_success {A} (body : A → option (list event * option error)) l ev :
  cmd.forEach body l = Some (ev, None) →
  ∃ evs, Forall2 (λ x e, body x = Some (e, None)) l evs ∧ ev = concat evs.
Proof.
  revert ev. induction l as [|x l IH]; intros ev; simpl.
  { intros [= <-]. exists []. split; [constructor | done]. }
  destruct (body x) as [[e [err|]]|] eqn:Hx; [done| |done].
  destruct (cmd.forEach body l) as [[ev' r]|]; [|done].
  intros [= <- ->].
  destruct (IH ev' eq_refl) as (evs & Hevs & ->).
  exists (e :: evs). split; [by constructor | done].
Qed.

Lemma forEach_total {A} (body : A → option (list event * option error)) l :
  Forall (λ x, ∃ e, body x = Some (e, None)) l →
  ∃ ev, cmd.forEach body l = Some (ev, None).
Proof.
  induction 1 as [|x l [e He] _ [ev IH]]; simpl; [by eexists|].
  rewrite He, IH. by eexists.
Qed.

Lemma download_callTree fuel w stack article basePath articlesByID ev :
  cmd.downloadArticleRecursive fuel w stack article basePath articlesByID
  = Some (ev, None) →
  ∃ t, callTree fuel stack article articlesByID = Some t
       ∧ Forall2 written (fileWrites ev) (treeFiles basePath t).
Proof.
  revert stack article basePath ev.
  induction fuel as [|fuel IH]; intros stack article basePath ev; [done|].
  simpl. fold (frontmatterOf article).
  destruct (markdown_codec.WriteMarkdown _ _) as [content|] eqn:Hdoc; [|done].
  destruct (WriteMarkdownFile w _ content) eqn:Hwrite; [done|].
  set (here := api.ID article :: stack).
  set (children := cmd.sortedChildren here article articlesByID).
  set (dir := filepath_Join basePath (filesystem.SanitizeFilename (api.Title article))).
  assert (Hfile : written (FsWrite (filepath_Join basePath
                             (filesystem.SanitizeFilename (api.Title article) +:+ ".md"))
                           content)
                          (filepath_Join basePath
                             (filesystem.SanitizeFilename (api.Title article) +:+ ".md"),
                           article)).
  { by exists content. }
  destruct (0 <? length children) eqn:Hlen.
  - destruct (cmd.forEach _ children) as [[ev' r]|] eqn:Hloop; [|done].
    intros [= <- ->].
    apply forEach_success in Hloop as (evs & Hevs & ->).
    assert (Hts : ∃ ts,
               Forall2 (λ c t, callTree fuel here c articlesByID = Some t) children ts
               ∧ Forall2 (Forall2 written) (fileWrites <$> evs) (treeFiles dir <$> ts)).
    { clear Hlen. induction Hevs as [|c e cs es Hc _ (ts & Hts & Hws)].
      - exists []. split; constructor.
      - apply IH in Hc as (t & Ht & Hw). exists (t :: ts).
        split; constructor; done. }
    destruct Hts as (ts & Hts & Hws).
    exists (RNode article ts). split.
    + by rewrite (mapM_Some_2 _ _ _ Hts).
    + rewrite fileWrites_Stdout, fileWrites_FsWrite, fileWrites_Stdout.
      rewrite fileWrites_concat.
      change (treeFiles basePath (RNode article ts))
        with ((filepath_Join basePath
                 (filesystem.SanitizeFilename (api.Title article) +:+ ".md"), article)
              :: concat (treeFiles dir <$> ts)).
      constructor; [exact Hfile|]. by apply Forall2_concat.
  - intros [= <-].
    assert (Hnil : children = []).
    { destruct children; [done|]. simpl in Hlen. done. }
    rewrite Hnil. exists (RNode article []). split; [done|].
    rewrite fileWrites_Stdout, fileWrites_FsWrite.
    constructor; [exact Hfile | constructor].
Qed.

(** Conversely the download of a tree of calls succeeds when every
    article of the tree can be encoded and every write succeeds. *)
Lemma download_total fuel w stack article basePath articlesByID t :
  callTree fuel stack article articlesByID = Some t →
  (∀ t', t' ∈ nodesOf t →
     ∃ content, markdown_codec.WriteMarkdown (frontmatterOf (rt_article t'))
                  (api.Content (rt_article t')) = Ok content) →
  (∀ path content, WriteMarkdownFile w path content = None) →
  ∃ ev, cmd.downloadArticleRecursive fuel w stack article basePath articlesByID
        = Some (ev, None).
Proof.
  revert stack article basePath t.
  induction fuel as [|fuel IH]; intros stack article basePath t Ht Hdocs Hwrites;
    [done|].
  pose proof Ht as Hinv.
  apply callTree_inv in Hinv as (fuel' & ts & [= <-] & -> & Hts).
  simpl. fold (frontmatterOf article).
  destruct (Hdocs (RNode article ts)) as [content Hdoc]; [by left|].
  simpl in Hdoc. rewrite Hdoc, Hwrites.
  set (here := api.ID article :: stack) in *.
  set (children := cmd.sortedChildren here article articlesByID) in *.
  destruct (0 <? length children); [|by eexists].
  destruct (forEach_total
              (λ child, cmd.downloadArticleRecursive fuel w here child
                          (filepath_Join basePath
                             (filesystem.SanitizeFilename (api.Title article)))
                          articlesByID) children) as [ev Hev].
  - apply Forall_forall. intros c Hc.
    destruct (proj1 (list_elem_of_lookup children c) Hc) as [i Hi].
    destruct (Forall2_lookup_l _ _ _ _ _ Hts Hi) as (tc & Htc & Hcall).
    eapply IH; [exact Hcall| |exact Hwrites].
    intros t' Ht'. apply Hdocs. simpl. right.
    apply elem_of_concat. exists (nodesOf tc). split; [|done].
    apply list_elem_of_fmap_2. by eapply list_elem_of_lookup_2.
  - rewrite Hev. by eexists.
Qed.
End download.

(** C3, as the code has it. In the tree of calls that [buildTreeNode] and
    [downloadArticleRecursive] share, the children of every node are in
    non-decreasing [Order] and are exactly the indexed articles whose
    parent reference is the identifier of the node; the diff tree is the
    image of that tree node for node, and a download that succeeds writes
    the files of that tree in the order of its nodes. Nothing is said about
    children of equal [Order]: their order is the one the enumeration of the
    map and [sort.Slice] happen to produce. *)
Theorem C3_children_sorted
    {R : GoRuntime} {L : GoRuntimeLaws R}
    (fuel : nat) (stack : list string) (article : api.Article)
    (articlesByID : gmap string api.Article) (t : rtree) :
  callTree fuel stack article articlesByID = Some t →
  (∀ t', t' ∈ nodesOf t →
     StronglySorted byOrder (rt_article <$> rt_children t')
     ∧ rt_article <$> rt_children t'
       ≡ₚ filter (λ child, cmd.isChildOf (rt_article t') child = true)
                 (snd <$> map_to_list articlesByID))
  ∧ (∀ articleStatus articleTitles articlePaths,
       cmd.buildTreeNode fuel stack article articlesByID
         articleStatus articleTitles articlePaths
       = Some (nodeOf articleStatus articlePaths t))
  ∧ (∀ w basePath ev,
       cmd.downloadArticleRecursive fuel w stack article basePath articlesByID
       = Some (ev, None) →
       Forall2 written (fileWrites ev) (treeFiles basePath t)).
Proof.
  intros Ht. split_and!.
  - intros t' Ht'.
    destruct (nodesOf_calls _ _ _ _ _ Ht t' Ht') as (fuel' & stack' & Hcall).
    rewrite (callTree_children _ _ _ _ _ Hcall).
    split; [apply sortedChildren_sorted | apply sortedChildren_perm].
  - intros. by rewrite buildTreeNode_callTree, Ht.
  - intros w basePath ev Hev.
    apply download_callTree in Hev as (t' & Ht' & Hw).
    rewrite Ht in Ht'. by injection Ht' as <-.
Qed.

(** *** Equal keys: the order of the input list is not kept *)

Fixpoint posIn (a : api.Article) (articles : list api.Article) : nat :=
  match articles with
  | [] => 0
  | x :: rest => if decide (x = a) then 0 else S (posIn a rest)
  end.

(** Children of equal [Order] stand in the order of the input list. *)
Definition tiesInInputOrder (articles children : list api.Article) : Prop :=
  ∀ i j x y,
    children !! i = Some x → children !! j = Some y → i < j →
    api.Order x = api.Order y →
    posIn x articles < posIn y articles.

(** The claim of a stable sibling order, for every runtime the language
    allows. *)
Definition stable_siblings : Prop :=
  ∀ (R : GoRuntime), GoRuntimeLaws R →
  ∀ fuel articles forest t,
    callForest fuel articles = Some forest →
    t ∈ forestNodesOf forest →
    StronglySorted byOrder (rt_article <$> rt_children t)
    ∧ tiesInInputOrder articles (rt_article <$> rt_children t).

Module Ties.
Definition article (id title : string) (parent : option string) : api.Article :=
  {| api.ID := id; api.Title := title; api.Content := "";
     api.ParentID := parent; api.Order := 0%Z; api.URL := "" |}.

Definition intro : api.Article := article "A" "Intro" None.
Definition setup : api.Article := article "B" "Setup" (Some "A").
Definition advanced : api.Article := article "C" "Advanced" (Some "A").

(** The listing, as the adapter returns it: every [Order] is 0. *)
Definition articles : list api.Article := [intro; setup; advanced].

(** The tree the reference runtime builds: [advanced] before [setup]. *)
Definition tree : rtree := RNode intro [RNode advanced []; RNode setup []].
End Ties.

Lemma C3_counterexample : ¬ stable_siblings.
Proof.
  intros Hclaim.
  assert (Hforest : callForest (R := GoModel.runtime) 3 Ties.articles = Some [Ties.tree])
    by by_vm.
  assert (Hin : Ties.tree ∈ forestNodesOf [Ties.tree]) by (by left).
  destruct (Hclaim GoModel.runtime GoModel_laws 3 Ties.articles [Ties.tree] Ties.tree
              Hforest Hin) as [_ Hties].
  specialize (Hties 0 1 Ties.advanced Ties.setup eq_refl eq_refl).
  assert (Hpos : posIn Ties.advanced Ties.articles = 2
                 ∧ posIn Ties.setup Ties.articles = 1) by (split; by_vm).
  destruct Hpos as [Hadv Hset]. rewrite Hadv, Hset in Hties.
  assert (2 < 1) by (apply Hties; [lia | reflexivity]). lia.
Qed.

Lemma C3_witness :
  callTree (R := GoModel.runtime) 3 [] Ties.intro (cmd.indexByID Ties.articles)
  = Some Ties.tree
  ∧ StronglySorted byOrder (rt_article <$> rt_children Ties.tree)
  ∧ cmd.buildTreeNode (R := GoModel.runtime) 3 [] Ties.intro
      (cmd.indexByID Ties.articles) ∅ ∅ ∅
    = Some (nodeOf ∅ ∅ Ties.tree).
Proof.
  assert (Ht : callTree (R := GoModel.runtime) 3 [] Ties.intro
                 (cmd.indexByID Ties.articles) = Some Ties.tree) by by_vm.
  destruct (@C3_children_sorted GoModel.runtime GoModel_laws 3 [] Ties.intro
              (cmd.indexByID Ties.articles) Ties.tree Ht) as (Hnodes & Hdiff & _).
  split; [exact Ht|]. split.
  - apply (Hnodes Ties.tree). by left.
  - apply Hdiff.
Defined.

(** ** The tree builder on a list with distinct identifiers *)

(** [level articles a n]: following the parent references from [a] inside
    [articles] reaches a root after [n] steps. *)
Inductive level (articles : list api.Article) : api.Article → nat → Prop :=
| level_root a :
    a ∈ articles → cmd.isRoot a = true → level articles a 0
| level_child a p n :
    a ∈ articles → cmd.isChildOf p a = true → level articles p n →
    level articles a (S n).

(** [under articles a x]: [x] is [a] or is reached from [a] by going from
    parent to child inside [articles]. *)
Inductive under (articles : list api.Article) : api.Article → api.Article → Prop :=
| under_refl a : under articles a a
| under_step a p x :
    under articles a p → x ∈ articles → cmd.isChildOf p x = true →
    under articles a x.

Definition treeArticles (t : rtree) : list api.Article := rt_article <$> nodesOf t.

Lemma fmap_concat {A B} (f : A → B) (ls : list (list A)) :
  f <$> concat ls = concat ((λ l : list A, f <$> l) <$> ls).
Proof.
  induction ls as [|l ls IH]; [done|]. simpl. by rewrite fmap_app, IH.
Qed.

Lemma treeArticles_RNode a ts :
  treeArticles (RNode a ts) = a :: concat (treeArticles <$> ts).
Proof.
  unfold treeArticles. simpl. f_equal.
  rewrite fmap_concat. f_equal. by rewrite <- list_fmap_compose.
Qed.

Lemma articlesOf_concat ts : articlesOf ts = concat (treeArticles <$> ts).
Proof.
  unfold articlesOf, forestNodesOf. rewrite fmap_concat. f_equal.
  by rewrite <- list_fmap_compose.
Qed.

Lemma NoDup_concat_Forall2 {A B C} (R : A → B → Prop) (g : B → list C) cs ts :
  NoDup cs → Forall2 R cs ts →
  (∀ c t, c ∈ cs → R c t → NoDup (g t)) →
  (∀ c1 t1 c2 t2 x, R c1 t1 → R c2 t2 → c1 ∈ cs → c2 ∈ cs →
                    x ∈ g t1 → x ∈ g t2 → c1 = c2) →
  NoDup (concat (g <$> ts)).
Proof.
  intros Hnd Hts Heach Hdisj.
  induction Hts as [|c t cs ts Hct Hts IH]; [constructor|].
  apply NoDup_cons in Hnd as [Hc Hnd]. simpl. apply NoDup_app. split_and!.
  - eapply Heach; [by left | done].
  - intros x Hx Hx'. apply elem_of_concat in Hx' as (l & Hl & Hxl).
    apply list_elem_of_fmap in Hl as (t' & -> & Ht').
    destruct (proj1 (list_elem_of_lookup ts t') Ht') as [i Hi].
    destruct (Forall2_lookup_r _ _ _ _ _ Hts Hi) as (c' & Hc' & Hct').
    apply Hc. rewrite (Hdisj c t c' t' x Hct Hct'); try done.
    + by eapply list_elem_of_lookup_2.
    + by left.
    + right. by eapply list_elem_of_lookup_2.
  - apply IH; [done| |].
    + intros c' t' Hc'. apply Heach. by right.
    + intros c1 t1 c2 t2 x H1 H2 Hc1 Hc2.
      apply Hdisj; try done; by right.
Qed.

Section tree_builder.
Context {R : GoRuntime} {L : GoRuntimeLaws R}.
Variable articles : list api.Article.
Hypothesis distinct : NoDup (api.ID <$> articles).
Hypothesis named : ∀ a, a ∈ articles → api.ID a ≠ "".

Let m := cmd.indexByID articles.

Lemma ID_inj a b : a ∈ articles → b ∈ articles → api.ID a = api.ID b → a = b.
Proof.
  intros Ha Hb Hid.
  pose proof (indexByID_NoDup _ _ distinct Ha) as H1.
  pose proof (indexByID_NoDup _ _ distinct Hb) as H2.
  rewrite Hid in H1. rewrite H1 in H2. by injection H2.
Qed.

Lemma articles_NoDup : NoDup articles.
Proof. by eapply NoDup_fmap_1. Qed.

Lemma index_values a : a ∈ snd <$> map_to_list m ↔ a ∈ articles.
Proof.
  rewrite list_elem_of_fmap. split.
  - intros ([k v] & -> & Hkv). apply elem_of_map_to_list in Hkv.
    by apply indexByID_lookup in Hkv as [? _].
  - intros Ha. exists (api.ID a, a). split; [done|].
    apply elem_of_map_to_list. by apply indexByID_NoDup.
Qed.

Lemma index_values_NoDup : NoDup (snd <$> map_to_list m).
Proof.
  apply NoDup_fmap_2_strong; [|apply NoDup_map_to_list].
  intros [k1 v1] [k2 v2] H1 H2 Hv. simpl in Hv. subst v2.
  apply elem_of_map_to_list, indexByID_lookup in H1 as [_ <-].
  apply elem_of_map_to_list, indexByID_lookup in H2 as [_ <-]. done.
Qed.

Lemma children_elem stack a c :
  c ∈ cmd.sortedChildren stack a m ↔ c ∈ articles ∧ cmd.isChildOf a c = true.
Proof.
  rewrite sortedChildren_perm, list_elem_of_filter, index_values. tauto.
Qed.

Lemma children_NoDup stack a : NoDup (cmd.sortedChildren stack a m).
Proof.
  rewrite sortedChildren_perm. apply NoDup_filter, index_values_NoDup.
Qed.

Lemma children_perm stack a :
  cmd.sortedChildren stack a m
  ≡ₚ filter (λ c, cmd.isChildOf a c = true) articles.
Proof.
  apply NoDup_Permutation.
  - apply children_NoDup.
  - apply NoDup_filter, articles_NoDup.
  - intros c. rewrite children_elem, list_elem_of_filter. tauto.
Qed.

Lemma roots_elem a :
  a ∈ cmd.sortedRoots articles ↔ a ∈ articles ∧ cmd.isRoot a = true.
Proof. rewrite sortedRoots_perm, list_elem_of_filter. tauto. Qed.

Lemma roots_NoDup : NoDup (cmd.sortedRoots articles).
Proof. rewrite sortedRoots_perm. apply NoDup_filter, articles_NoDup. Qed.

(** *** Levels *)

Lemma level_in a n : level articles a n → a ∈ articles.
Proof. by destruct 1. Qed.

Lemma root_not_child p a :
  p ∈ articles → cmd.isRoot a = true → cmd.isChildOf p a = true → False.
Proof.
  unfold cmd.isRoot, cmd.isChildOf. intros Hp Hroot Hchild.
  apply bool_decide_eq_true in Hchild. rewrite Hchild in Hroot.
  apply bool_decide_eq_true in Hroot. by apply (named p).
Qed.

Lemma parent_unique p q a :
  p ∈ articles → q ∈ articles →
  cmd.isChildOf p a = true → cmd.isChildOf q a = true → p = q.
Proof.
  unfold cmd.isChildOf. intros Hp Hq H1 H2.
  apply bool_decide_eq_true in H1. apply bool_decide_eq_true in H2.
  rewrite H1 in H2. injection H2 as Hid. by apply ID_inj.
Qed.

Lemma level_fun a n1 n2 :
  level articles a n1 → level articles a n2 → n1 = n2.
Proof.
  intros H1. revert n2.
  induction H1 as [a Ha Hroot|a p n Ha Hchild Hp IH]; intros n2 H2.
  - destruct H2 as [|a q k _ Hq Hlq]; [done|].
    exfalso. eapply root_not_child; [|exact Hroot|exact Hq]. by eapply level_in.
  - destruct H2 as [a _ Hroot|a q k _ Hq Hlq].
    + exfalso. eapply root_not_child; [|exact Hroot|exact Hchild].
      by eapply level_in.
    + f_equal. apply IH.
      rewrite (parent_unique p q a); try done; by eapply level_in.
Qed.

(** The chain of ancestors of an article at level [n] holds [n + 1]
    different articles, so levels stay below the number of articles. *)
Lemma level_chain a n :
  level articles a n →
  ∃ chain, length chain = S n ∧ NoDup chain
           ∧ ∀ x, x ∈ chain → x ∈ articles ∧ ∃ k, k ≤ n ∧ level articles x k.
Proof.
  induction 1 as [a Ha Hroot|a p n Ha Hchild Hp (chain & Hlen & Hnd & Hall)].
  - exists [a]. split_and!; [done|apply NoDup_singleton|].
    intros x Hx. apply list_elem_of_singleton in Hx as ->.
    split; [done|]. exists 0. split; [lia|]. by constructor.
  - exists (a :: chain). split_and!.
    + simpl. by rewrite Hlen.
    + apply NoDup_cons. split; [|done]. intros Hin.
      destruct (Hall a Hin) as (_ & k & Hk & Hlk).
      assert (Hl : level articles a (S n)) by (by econstructor).
      pose proof (level_fun _ _ _ Hlk Hl). lia.
    + intros x Hx. apply elem_of_cons in Hx as [->|Hx].
      * split; [done|]. exists (S n). split; [lia|]. by econstructor.
      * destruct (Hall x Hx) as (Hin & k & Hk & Hlk).
        split; [done|]. exists k. split; [lia | done].
Qed.

Lemma level_bound a n : level articles a n → n < length articles.
Proof.
  intros H. destruct (level_chain a n H) as (chain & Hlen & Hnd & Hall).
  assert (Hsub : chain ⊆+ articles).
  { apply NoDup_submseteq; [done|]. intros x Hx. by apply Hall. }
  apply submseteq_length in Hsub. lia.
Qed.

(** *** Descendants *)

Lemma under_in a x : under articles a x → a ∈ articles → x ∈ articles.
Proof. by destruct 1. Qed.

Lemma under_trans a b c :
  under articles a b → under articles b c → under articles a c.
Proof.
  intros Hab Hbc. induction Hbc as [|b p x _ IH Hx Hchild]; [done|].
  eapply under_step; [by apply IH | done | done].
Qed.

Lemma under_level a x n :
  under articles a x → level articles a n →
  ∃ j, level articles x (n + j) ∧ (j = 0 → x = a).
Proof.
  intros Hu Hl. induction Hu as [a|a p x _ IH Hx Hchild].
  - exists 0. by rewrite Nat.add_0_r.
  - destruct (IH Hl) as (j & Hp & _). exists (S j). split; [|done].
    rewrite Nat.add_succ_r. by econstructor.
Qed.

Lemma under_unique c1 c2 x k :
  level articles c1 k → level articles c2 k →
  under articles c1 x → under articles c2 x → c1 = c2.
Proof.
  intros H1 H2 Hu1. revert H1.
  induction Hu1 as [c1|c1 p x Hu1 IH Hx Hchild]; intros H1 Hu2.
  - destruct (under_level _ _ _ Hu2 H2) as (j & Hl & Hj).
    pose proof (level_fun _ _ _ H1 Hl) as Hk.
    apply Hj. lia.
  - destruct (under_level _ _ _ Hu1 H1) as (j & Hp & _).
    assert (Hlx : level articles x (S (k + j))) by (by econstructor).
    destruct Hu2 as [c2|c2 q x Hu2 _ Hchild2].
    + pose proof (level_fun _ _ _ H2 Hlx). lia.
    + apply IH; [done|].
      rewrite (parent_unique p q x); try done.
      * eapply under_in; [exact Hu1 | by eapply level_in].
      * eapply under_in; [exact Hu2 | by eapply level_in].
Qed.
End tree_builder.

Section built_trees.
Context {R : GoRuntime} {L : GoRuntimeLaws R}.
Variable articles : list api.Article.
Hypothesis distinct : NoDup (api.ID <$> articles).
Hypothesis named : ∀ a, a ∈ articles → api.ID a ≠ "".

Let m := cmd.indexByID articles.

(** The recursion ends: an article at level [n] needs at most
    [length articles - n] nested calls. *)
Lemma callTree_total fuel stack a n :
  level articles a n → length articles ≤ fuel + n →
  is_Some (callTree fuel stack a m).
Proof.
  revert stack a n. induction fuel as [|fuel IH]; intros stack a n Hl Hfuel.
  { apply (level_bound articles distinct named) in Hl. simpl in Hfuel. lia. }
  simpl.
  assert (Hall : is_Some (mapM (λ child, callTree fuel (api.ID a :: stack) child m)
                            (cmd.sortedChildren (api.ID a :: stack) a m))).
  { apply mapM_is_Some, Forall_forall. intros c Hc.
    apply (children_elem articles distinct) in Hc as [Hc Hchild].
    apply (IH _ _ (S n)); [by econstructor | lia]. }
  destruct Hall as [ts Hts]. fold m. rewrite Hts. by eexists.
Qed.

(** A subtree of a call for [a]: the child it was built for. *)
Lemma subtree_child fuel stack a ts tc :
  Forall2 (λ child t', callTree fuel (api.ID a :: stack) child m = Some t')
          (cmd.sortedChildren (api.ID a :: stack) a m) ts →
  tc ∈ ts →
  ∃ c, c ∈ articles ∧ cmd.isChildOf a c = true
       ∧ c ∈ cmd.sortedChildren (api.ID a :: stack) a m
       ∧ callTree fuel (api.ID a :: stack) c m = Some tc.
Proof.
  intros Hts Htc.
  destruct (proj1 (list_elem_of_lookup ts tc) Htc) as [i Hi].
  destruct (Forall2_lookup_r _ _ _ _ _ Hts Hi) as (c & Hc & Hcall).
  apply list_elem_of_lookup_2 in Hc. exists c.
  pose proof (proj1 (children_elem articles distinct _ _ _) Hc) as [Hin Hchild].
  done.
Qed.

Lemma tree_under fuel stack a t :
  callTree fuel stack a m = Some t →
  ∀ x, x ∈ treeArticles t → under articles a x.
Proof.
  revert stack a t. induction fuel as [|fuel IH]; intros stack a t Ht; [done|].
  apply callTree_inv in Ht as (fuel' & ts & [= <-] & -> & Hts).
  intros x Hx. rewrite treeArticles_RNode in Hx.
  apply elem_of_cons in Hx as [->|Hx]; [constructor|].
  apply elem_of_concat in Hx as (l & Hl & Hx).
  apply list_elem_of_fmap in Hl as (tc & -> & Htc).
  destruct (subtree_child _ _ _ _ _ Hts Htc) as (c & Hc & Hchild & _ & Hcall).
  eapply under_trans; [|by eapply IH].
  eapply under_step; [constructor | done | done].
Qed.

Lemma tree_NoDup fuel stack a n t :
  level articles a n → callTree fuel stack a m = Some t →
  NoDup (treeArticles t).
Proof.
  revert stack a n t. induction fuel as [|fuel IH]; intros stack a n t Hl Ht; [done|].
  apply callTree_inv in Ht as (fuel' & ts & [= <-] & -> & Hts).
  rewrite treeArticles_RNode.
  assert (Hchildren : ∀ c, c ∈ cmd.sortedChildren (api.ID a :: stack) a m →
                           level articles c (S n)).
  { intros c Hc. apply (children_elem articles distinct) in Hc as [Hc Hchild].
    by econstructor. }
  apply NoDup_cons. split.
  - intros Hin. apply elem_of_concat in Hin as (l & Hl' & Hx).
    apply list_elem_of_fmap in Hl' as (tc & -> & Htc).
    destruct (subtree_child _ _ _ _ _ Hts Htc) as (c & _ & _ & Hc & Hcall).
    pose proof (tree_under _ _ _ _ Hcall a Hx) as Hu.
    destruct (under_level articles _ _ _ Hu (Hchildren c Hc)) as (j & Hla & _).
    pose proof (level_fun articles distinct named _ _ _ Hl Hla). lia.
  - eapply (NoDup_concat_Forall2 _ treeArticles); [|exact Hts| |].
    + apply children_NoDup.
    + intros c tc Hc Hcall. simpl in Hcall.
      eapply IH; [by apply Hchildren | exact Hcall].
    + intros c1 t1 c2 t2 x H1 H2 Hc1 Hc2 Hx1 Hx2.
      eapply (under_unique articles distinct named c1 c2 x (S n));
        [by apply Hchildren | by apply Hchildren | |].
      * eapply tree_under; [exact H1 | exact Hx1].
      * eapply tree_under; [exact H2 | exact Hx2].
Qed.

(** A tree of calls holds every child of each of its articles. *)
Lemma tree_closed fuel stack a t :
  callTree fuel stack a m = Some t →
  ∀ p x, p ∈ treeArticles t → x ∈ articles → cmd.isChildOf p x = true →
         x ∈ treeArticles t.
Proof.
  revert stack a t. induction fuel as [|fuel IH]; intros stack a t Ht; [done|].
  apply callTree_inv in Ht as (fuel' & ts & [= <-] & -> & Hts).
  intros p x Hp Hx Hchild. rewrite treeArticles_RNode in *.
  apply elem_of_cons in Hp as [->|Hp].
  - right.
    assert (Hc : x ∈ cmd.sortedChildren (api.ID a :: stack) a m).
    { by apply (children_elem articles distinct). }
    destruct (proj1 (list_elem_of_lookup _ x) Hc) as [i Hi].
    destruct (Forall2_lookup_l _ _ _ _ _ Hts Hi) as (tx & Htx & Hcall).
    apply elem_of_concat. exists (treeArticles tx). split.
    + apply list_elem_of_fmap_2. by eapply list_elem_of_lookup_2.
    + apply callTree_inv in Hcall as (? & ? & _ & -> & _).
      rewrite treeArticles_RNode. by left.
  - right. apply elem_of_concat in Hp as (l & Hl & Hp).
    apply list_elem_of_fmap in Hl as (tc & -> & Htc).
    destruct (subtree_child _ _ _ _ _ Hts Htc) as (c & _ & _ & _ & Hcall).
    apply elem_of_concat. exists (treeArticles tc). split.
    + by apply list_elem_of_fmap_2.
    + by eapply IH.
Qed.

(** *** The forest *)

Lemma callForest_total fuel :
  length articles ≤ fuel → is_Some (callForest fuel articles).
Proof.
  intros Hfuel. apply mapM_is_Some, Forall_forall. intros a Ha.
  apply (roots_elem articles) in Ha as [Ha Hroot].
  apply (callTree_total _ _ _ 0); [by constructor | lia].
Qed.

Lemma forest_root fuel forest t :
  callForest fuel articles = Some forest → t ∈ forest →
  ∃ a, a ∈ articles ∧ cmd.isRoot a = true ∧ a ∈ cmd.sortedRoots articles
       ∧ callTree fuel [] a m = Some t.
Proof.
  intros Hf Ht. apply mapM_Some_1 in Hf.
  destruct (proj1 (list_elem_of_lookup forest t) Ht) as [i Hi].
  destruct (Forall2_lookup_r _ _ _ _ _ Hf Hi) as (a & Ha & Hcall).
  apply list_elem_of_lookup_2 in Ha. exists a.
  pose proof (proj1 (roots_elem articles a) Ha) as [Hin Hroot]. done.
Qed.

Lemma forest_NoDup fuel forest :
  callForest fuel articles = Some forest → NoDup (articlesOf forest).
Proof.
  intros Hf. rewrite articlesOf_concat.
  pose proof (mapM_Some_1 _ _ _ Hf) as Hts.
  eapply (NoDup_concat_Forall2 _ treeArticles); [|exact Hts| |].
  - apply (roots_NoDup articles distinct).
  - intros a t Ha Hcall. simpl in Hcall.
    apply (roots_elem articles) in Ha as [Ha Hroot].
    eapply (tree_NoDup _ _ _ 0); [by constructor | exact Hcall].
  - intros a1 t1 a2 t2 x H1 H2 Ha1 Ha2 Hx1 Hx2.
    apply (roots_elem articles) in Ha1 as [Ha1 Hr1].
    apply (roots_elem articles) in Ha2 as [Ha2 Hr2].
    eapply (under_unique articles distinct named a1 a2 x 0);
      [by constructor | by constructor | |].
    + eapply tree_under; [exact H1 | exact Hx1].
    + eapply tree_under; [exact H2 | exact Hx2].
Qed.

(** The forest holds exactly the articles whose parent references lead to
    a root. *)
Lemma forest_elem fuel forest x :
  callForest fuel articles = Some forest →
  x ∈ articlesOf forest ↔ ∃ n, level articles x n.
Proof.
  intros Hf. rewrite articlesOf_concat. split.
  - intros Hx. apply elem_of_concat in Hx as (l & Hl & Hx).
    apply list_elem_of_fmap in Hl as (t & -> & Ht).
    destruct (forest_root _ _ _ Hf Ht) as (a & Ha & Hroot & _ & Hcall).
    pose proof (tree_under _ _ _ _ Hcall x Hx) as Hu.
    destruct (under_level articles a x 0 Hu) as (j & Hl & _); [by constructor|].
    by exists j.
  - intros [n Hl].
    induction Hl as [a Ha Hroot|a p n Ha Hchild Hp IH].
    + assert (Hr : a ∈ cmd.sortedRoots articles) by (by apply roots_elem).
      pose proof (mapM_Some_1 _ _ _ Hf) as Hts.
      destruct (proj1 (list_elem_of_lookup _ a) Hr) as [i Hi].
      destruct (Forall2_lookup_l _ _ _ _ _ Hts Hi) as (t & Ht & Hcall).
      apply elem_of_concat. exists (treeArticles t). split.
      * apply list_elem_of_fmap_2. by eapply list_elem_of_lookup_2.
      * apply callTree_inv in Hcall as (? & ? & _ & -> & _).
        rewrite treeArticles_RNode. by left.
    + apply elem_of_concat in IH as (l & Hl & Hpl).
      apply list_elem_of_fmap in Hl as (t & -> & Ht).
      destruct (forest_root _ _ _ Hf Ht) as (r & _ & _ & _ & Hcall).
      apply elem_of_concat. exists (treeArticles t). split.
      * by apply list_elem_of_fmap_2.
      * by eapply tree_closed.
Qed.

(** Every node of the forest has, as children, exactly the articles whose
    parent reference is its identifier. *)
Lemma forest_children fuel forest t :
  callForest fuel articles = Some forest →
  t ∈ forestNodesOf forest →
  rt_article t ∈ articles
  ∧ rt_article <$> rt_children t
    ≡ₚ filter (λ c, cmd.isChildOf (rt_article t) c = true) articles.
Proof.
  intros Hf Ht. unfold forestNodesOf in Ht.
  apply elem_of_concat in Ht as (l & Hl & Ht).
  apply list_elem_of_fmap in Hl as (tr & -> & Htr).
  destruct (forest_root _ _ _ Hf Htr) as (r & Hr & Hroot & _ & Hcall).
  split.
  - eapply under_in; [|exact Hr].
    eapply tree_under; [exact Hcall|].
    unfold treeArticles. by apply list_elem_of_fmap_2.
  - destruct (nodesOf_calls _ _ _ _ _ Hcall t Ht) as (fuel' & stack' & Hcall').
    rewrite (callTree_children _ _ _ _ _ Hcall').
    apply (children_perm articles distinct).
Qed.
End built_trees.

(** ** The forest of the diff command *)

Fixpoint nodeList (node : ArticleNode) : list ArticleNode :=
  node :: concat (nodeList <$> Children node).

Definition forestNodes (nodes : list ArticleNode) : list ArticleNode :=
  concat (nodeList <$> nodes).

Definition forestIDs (nodes : list ArticleNode) : list string :=
  ID <$> forestNodes nodes.

Section diff_forest.
Context {R : GoRuntime}.
Variables (articleStatus : gmap string ArticleStatus)
          (articlePaths : gmap string string).

Let toNode := nodeOf articleStatus articlePaths.

Lemma nodeList_nodeOf t : nodeList (toNode t) = toNode <$> nodesOf t.
Proof.
  induction t as [a ts IH] using rtree_ind_nested.
  change (nodeList (toNode (RNode a ts)))
    with (toNode (RNode a ts) :: concat (nodeList <$> (toNode <$> ts))).
  change (nodesOf (RNode a ts)) with (RNode a ts :: concat (nodesOf <$> ts)).
  rewrite fmap_cons. f_equal. rewrite fmap_concat. f_equal.
  rewrite <- !list_fmap_compose. apply Forall_fmap_ext_1.
  eapply Forall_impl; [exact IH|]. intros t Ht. exact Ht.
Qed.

Lemma forestNodes_nodeOf forest :
  forestNodes (toNode <$> forest) = toNode <$> forestNodesOf forest.
Proof.
  unfold forestNodes, forestNodesOf. rewrite fmap_concat. f_equal.
  rewrite <- !list_fmap_compose. apply list_fmap_ext.
  intros i t _. apply nodeList_nodeOf.
Qed.

Lemma ID_nodeOf t : ID (toNode t) = api.ID (rt_article t).
Proof. by destruct t. Qed.

Lemma Children_nodeOf t : Children (toNode t) = toNode <$> rt_children t.
Proof. by destruct t. Qed.

Lemma forestIDs_nodeOf forest :
  forestIDs (toNode <$> forest) = api.ID <$> articlesOf forest.
Proof.
  unfold forestIDs, articlesOf. rewrite forestNodes_nodeOf.
  rewrite <- !list_fmap_compose. apply list_fmap_ext.
  intros i t _. apply ID_nodeOf.
Qed.

Lemma IDs_nodeOf (ts : list rtree) :
  ID <$> (toNode <$> ts) = api.ID <$> (rt_article <$> ts).
Proof.
  rewrite <- !list_fmap_compose. apply list_fmap_ext.
  intros i t _. apply ID_nodeOf.
Qed.
End diff_forest.

(** What the tree builder returns on a list of remote articles with
    pairwise distinct, non-empty identifiers, once its recursion is given as
    many levels as there are articles: a forest in which no identifier
    occurs twice; the identifiers present are exactly those of the articles
    whose chain of parent references ends at a root; the roots are the
    articles without parent reference; the children of a node are exactly
    the articles whose parent reference is the identifier of the node. When
    every chain of parent references ends at a root, the forest holds every
    article exactly once. *)
Lemma buildRootNodes_forest
    {R : GoRuntime} {L : GoRuntimeLaws R}
    (articles : list api.Article) (fuel : nat)
    (articleStatus : gmap string ArticleStatus)
    (articleTitles articlePaths : gmap string string) :
  NoDup (api.ID <$> articles) →
  (∀ a, a ∈ articles → api.ID a ≠ "") →
  length articles ≤ fuel →
  ∃ rootNodes,
    cmd.buildRootNodes fuel articles articleStatus articleTitles articlePaths
    = Some rootNodes
    ∧ NoDup (forestIDs rootNodes)
    ∧ (∀ a, a ∈ articles →
            api.ID a ∈ forestIDs rootNodes ↔ ∃ n, level articles a n)
    ∧ (∀ id, id ∈ forestIDs rootNodes → id ∈ api.ID <$> articles)
    ∧ ID <$> rootNodes ≡ₚ api.ID <$> filter (λ a, cmd.isRoot a = true) articles
    ∧ (∀ node a,
         node ∈ forestNodes rootNodes → a ∈ articles → api.ID a = ID node →
         ID <$> Children node
         ≡ₚ api.ID <$> filter (λ c, cmd.isChildOf a c = true) articles)
    ∧ (∀ a p,
         a ∈ articles → api.ParentID a = Some p → p ≠ "" →
         p ∉ api.ID <$> articles →
         api.ID a ∉ forestIDs rootNodes)
    ∧ ((∀ a, a ∈ articles → ∃ n, level articles a n) →
       forestIDs rootNodes ≡ₚ api.ID <$> articles).
Proof.
  intros distinct named Hfuel.
  destruct (callForest_total articles distinct named fuel Hfuel) as [forest Hf].
  exists (nodeOf articleStatus articlePaths <$> forest).
  assert (Hin : ∀ x, x ∈ articlesOf forest → x ∈ articles).
  { intros x Hx. apply (forest_elem articles distinct _ _ _ Hf) in Hx as [n Hl].
    by eapply level_in. }
  assert (Hids : ∀ a, a ∈ articles →
                      api.ID a ∈ api.ID <$> articlesOf forest ↔ a ∈ articlesOf forest).
  { intros a Ha. split; [|apply list_elem_of_fmap_2].
    intros Hid. apply list_elem_of_fmap in Hid as (b & Hab & Hb).
    by rewrite (ID_inj articles distinct a b Ha (Hin b Hb) Hab). }
  assert (Hnd : NoDup (api.ID <$> articlesOf forest)).
  { apply NoDup_fmap_2_strong; [|by eapply forest_NoDup].
    intros a b Ha Hb. apply (ID_inj articles distinct); by apply Hin. }
  assert (Hreach : ∀ a, a ∈ articles →
                        api.ID a ∈ api.ID <$> articlesOf forest
                        ↔ ∃ n, level articles a n).
  { intros a Ha. rewrite (Hids a Ha).
    apply (forest_elem articles distinct _ _ _ Hf). }
  split_and!.
  - by rewrite buildRootNodes_callForest, Hf.
  - by rewrite forestIDs_nodeOf.
  - intros a Ha. rewrite forestIDs_nodeOf. by apply Hreach.
  - intros id. rewrite forestIDs_nodeOf. intros Hid.
    apply list_elem_of_fmap in Hid as (b & -> & Hb).
    apply list_elem_of_fmap_2. by apply Hin.
  - rewrite IDs_nodeOf. apply fmap_Permutation.
    pose proof (mapM_Some_1 _ _ _ Hf) as Hts.
    assert (Hroots : rt_article <$> forest = cmd.sortedRoots articles).
    { clear -Hts. induction Hts as [|a t l ts Ha _ IH]; [done|].
      rewrite fmap_cons, IH. f_equal. by eapply callTree_article. }
    rewrite Hroots. apply sortedRoots_perm.
  - intros node a Hnode Ha Hid. rewrite forestNodes_nodeOf in Hnode.
    apply list_elem_of_fmap in Hnode as (t & -> & Ht).
    destruct (forest_children articles distinct _ _ _ Hf Ht) as [Hart Hperm].
    rewrite ID_nodeOf in Hid.
    rewrite (ID_inj articles distinct a (rt_article t) Ha Hart Hid).
    rewrite Children_nodeOf, IDs_nodeOf. by apply fmap_Permutation.
  - intros a p Ha Hparent Hp Hdangling. rewrite forestIDs_nodeOf.
    intros Hid. apply (Hreach a Ha) in Hid as [n Hl].
    destruct Hl as [a _ Hroot|a q n _ Hchild Hq].
    + unfold cmd.isRoot in Hroot. rewrite Hparent in Hroot.
      by apply bool_decide_eq_true in Hroot.
    + unfold cmd.isChildOf in Hchild. apply bool_decide_eq_true in Hchild.
      rewrite Hparent in Hchild. injection Hchild as ->.
      apply Hdangling, list_elem_of_fmap_2. by eapply level_in.
  - intros Hall. rewrite forestIDs_nodeOf.
    apply NoDup_Permutation; [done | done |].
    intros id. split.
    + intros Hid. apply list_elem_of_fmap in Hid as (b & -> & Hb).
      apply list_elem_of_fmap_2. by apply Hin.
    + intros Hid. apply list_elem_of_fmap in Hid as (a & -> & Ha).
      apply (Hreach a Ha). by apply Hall.
Qed.

(** *** A parent reference that does not resolve *)

(** C1, where the code departs from it. On a list of remote articles with
    pairwise distinct, non-empty identifiers the tree builder returns a
    forest, and an article whose non-empty parent reference is the
    identifier of no article of the list is nowhere in it: it is not made a
    root and it is below no node. The forest then has fewer nodes than the
    list has articles, so it does not hold every article once. *)
Theorem C1_dangling_parent_omitted
    {R : GoRuntime} {L : GoRuntimeLaws R}
    (articles : list api.Article) (fuel : nat)
    (articleStatus : gmap string ArticleStatus)
    (articleTitles articlePaths : gmap string string)
    (a : api.Article) (p : string) :
  NoDup (api.ID <$> articles) →
  (∀ a, a ∈ articles → api.ID a ≠ "") →
  length articles ≤ fuel →
  a ∈ articles → api.ParentID a = Some p → p ≠ "" →
  p ∉ api.ID <$> articles →
  ∃ rootNodes,
    cmd.buildRootNodes fuel articles articleStatus articleTitles articlePaths
    = Some rootNodes
    ∧ (api.ID a ∉ ID <$> rootNodes)
    ∧ (api.ID a ∉ forestIDs rootNodes)
    ∧ length (forestNodes rootNodes) < length articles
    ∧ ¬ forestIDs rootNodes ≡ₚ api.ID <$> articles.
Proof.
  intros distinct named Hfuel Ha Hparent Hp Hdangling.
  destruct (buildRootNodes_forest articles fuel articleStatus articleTitles
              articlePaths distinct named Hfuel)
    as (rootNodes & Hbuilt & Hnd & _ & Hsub & Hroots & _ & Habsent & _).
  pose proof (Habsent a p Ha Hparent Hp Hdangling) as Hout.
  assert (Hperm : ¬ forestIDs rootNodes ≡ₚ api.ID <$> articles).
  { intros Hperm. apply Hout. rewrite Hperm. by apply list_elem_of_fmap_2. }
  exists rootNodes. split_and!; try done.
  - intros Hroot. apply Hout.
    apply list_elem_of_fmap in Hroot as (node & Hid & Hnode).
    rewrite Hid. apply list_elem_of_fmap_2.
    unfold forestNodes. apply elem_of_concat. exists (nodeList node).
    split; [by apply list_elem_of_fmap_2 | destruct node; by left].
  - pose proof (NoDup_submseteq _ _ Hnd Hsub) as Hincl.
    pose proof (submseteq_length _ _ Hincl) as Hle.
    unfold forestIDs in Hle. rewrite !length_fmap in Hle.
    destruct (decide (length (forestNodes rootNodes) < length articles)) as [|Hge];
      [done|].
    destruct Hperm. apply submseteq_length_Permutation; [done|].
    unfold forestIDs. rewrite !length_fmap. lia.
Qed.

(** The failing input: a root and an article whose parent is not listed. *)
Definition orphan : api.Article :=
  {| api.ID := "D-4"; api.Title := "Orphan"; api.Content := "";
     api.ParentID := Some "gone"; api.Order := 0%Z; api.URL := "" |}.

Lemma C1_witness :
  ∃ rootNodes,
    cmd.buildRootNodes (R := GoModel.runtime) 2 [Ties.intro; orphan] ∅ ∅ ∅
    = Some rootNodes
    ∧ forestIDs rootNodes = ["A"]
    ∧ ("D-4" ∉ forestIDs rootNodes)
    ∧ length (forestNodes rootNodes) < 2.
Proof.
  assert (Hnd : NoDup (api.ID <$> [Ties.intro; orphan])) by by_evaluation.
  assert (Hnamed : ∀ a, a ∈ [Ties.intro; orphan] → api.ID a ≠ "").
  { intros a Ha. repeat (apply elem_of_cons in Ha as [->|Ha]); try discriminate.
    by apply elem_of_nil in Ha. }
  assert (Hfuel : length [Ties.intro; orphan] ≤ 2) by (simpl; lia).
  assert (Hin : orphan ∈ [Ties.intro; orphan]) by by_evaluation.
  assert (Hgone : "gone" ∉ api.ID <$> [Ties.intro; orphan]) by by_evaluation.
  assert (Hne : "gone" ≠ "") by discriminate.
  destruct (@C1_dangling_parent_omitted GoModel.runtime GoModel_laws
              [Ties.intro; orphan] 2 ∅ ∅ ∅ orphan "gone"
              Hnd Hnamed Hfuel Hin eq_refl Hne Hgone)
    as (rootNodes & Hbuilt & _ & Hout & Hless & _).
  exists rootNodes. split; [exact Hbuilt|].
  assert (Hval : cmd.buildRootNodes (R := GoModel.runtime) 2 [Ties.intro; orphan] ∅ ∅ ∅
                 = Some [ {| ID := "A"; Title := "Intro"; Status := StatusUnchanged;
                             Path := ""; Children := [] |} ]) by by_vm.
  rewrite Hval in Hbuilt. injection Hbuilt as <-.
  split; [reflexivity|]. split; [exact Hout | exact Hless].
Defined.

(** On the full listing of the scenario every chain of parent references
    ends at a root, and the forest holds every article once. *)
Example scenario_forest_complete :
  ∃ rootNodes,
    cmd.buildRootNodes (R := GoModel.runtime) 3 Ties.articles ∅ ∅ ∅ = Some rootNodes
    ∧ NoDup (forestIDs rootNodes)
    ∧ forestIDs rootNodes ≡ₚ ["A"; "B"; "C"].
Proof.
  assert (Hnd : NoDup (api.ID <$> Ties.articles)) by by_evaluation.
  assert (Hnamed : ∀ a, a ∈ Ties.articles → api.ID a ≠ "").
  { intros a Ha. repeat (apply elem_of_cons in Ha as [->|Ha]); try discriminate.
    by apply elem_of_nil in Ha. }
  assert (Hfuel : length Ties.articles ≤ 3) by (simpl; lia).
  destruct (@buildRootNodes_forest GoModel.runtime GoModel_laws Ties.articles 3 ∅ ∅ ∅
              Hnd Hnamed Hfuel)
    as (rootNodes & Hbuilt & Hnodup & _ & _ & _ & _ & _ & Hall).
  exists rootNodes. split; [exact Hbuilt|]. split; [exact Hnodup|].
  apply Hall. intros a Ha.
  assert (Hroot : level Ties.articles Ties.intro 0).
  { constructor; [by left | reflexivity]. }
  repeat (apply elem_of_cons in Ha as [->|Ha]).
  - by exists 0.
  - exists 1. econstructor; [by_evaluation | | exact Hroot]. reflexivity.
  - exists 1. econstructor; [by_evaluation | | exact Hroot]. reflexivity.
  - by apply elem_of_nil in Ha.
Qed.

(** ** The downloader *)

(** *** File names *)

Fixpoint mapBytes (f : ascii → ascii) (s : string) : string :=
  match s with
  | EmptyString => EmptyString
  | String c s' => String (f c) (mapBytes f s')
  end.

Definition sanitizeByte (c : ascii) : ascii :=
  if bool_decide (c ∈ filesystem.invalidChars) then "_"%char else c.

Definition replaceByte (old c : ascii) : ascii :=
  if Ascii.eqb c old then "_"%char else c.

Lemma ReplaceAll_mapBytes s old :
  strings.ReplaceAll s old "_" = mapBytes (replaceByte old) s.
Proof.
  induction s as [|c s IH]; simpl; [done|].
  unfold replaceByte at 1. destruct (Ascii.eqb c old); by rewrite IH.
Qed.

Lemma mapBytes_compose f g s : mapBytes g (mapBytes f s) = mapBytes (g ∘ f) s.
Proof. induction s as [|c s IH]; simpl; [done|]. by rewrite IH. Qed.

Lemma mapBytes_ext f g s : (∀ c, f c = g c) → mapBytes f s = mapBytes g s.
Proof. intros H. induction s as [|c s IH]; simpl; [done|]. by rewrite H, IH. Qed.

Lemma replace_fold_mapBytes chars s :
  fold_left (λ result char, strings.ReplaceAll result char "_") chars s
  = mapBytes (λ c, fold_left (λ x old, replaceByte old x) chars c) s.
Proof.
  revert s. induction chars as [|old chars IH]; intros s; simpl.
  - induction s as [|c s IHs]; simpl; [done|]. by rewrite <- IHs.
  - by rewrite IH, ReplaceAll_mapBytes, mapBytes_compose.
Qed.

Lemma sanitizeByte_fold c :
  fold_left (λ x old, replaceByte old x) filesystem.invalidChars c = sanitizeByte c.
Proof.
  destruct c as [[] [] [] [] [] [] [] []]; vm_compute; reflexivity.
Qed.

(** [SanitizeFilename] replaces each of the nine listed bytes by an
    underscore and leaves every other byte alone. *)
Lemma SanitizeFilename_bytes name :
  filesystem.SanitizeFilename name = mapBytes sanitizeByte name.
Proof.
  unfold filesystem.SanitizeFilename. rewrite replace_fold_mapBytes.
  apply mapBytes_ext, sanitizeByte_fold.
Qed.

Example SanitizeFilename_listed :
  filesystem.SanitizeFilename
    ("a/b" +:+ backslash +:+ "c<d>e:f" +:+ dquote +:+ "g|h?i*j k.l")
  = "a_b_c_d_e_f_g_h_i_j k.l".
Proof. reflexivity. Qed.

(** *** The walk of the whole listing *)

Section download_all.
Context {R : GoRuntime} {L : GoRuntimeLaws R}.

Definition forestFiles (forest : list rtree) : list (string * api.Article) :=
  concat (treeFiles "." <$> forest).

Lemma downloadArticles_callForest fuel w articles ev :
  articles ≠ [] →
  cmd.downloadArticles fuel w articles = Some (ev, None) →
  ∃ forest, callForest fuel articles = Some forest
            ∧ Forall2 written (fileWrites ev) (forestFiles forest).
Proof.
  intros Hne. unfold cmd.downloadArticles.
  rewrite bool_decide_false by (by destruct articles).
  destruct (cmd.forEach _ _) as [[ev' [e|]]|] eqn:Hloop; [done| |done].
  intros [= <-].
  apply forEach_success in Hloop as (evs & Hevs & ->).
  assert (Hts : ∃ ts,
             Forall2 (λ a t, callTree fuel [] a (cmd.indexByID articles) = Some t)
                     (cmd.sortedRoots articles) ts
             ∧ Forall2 (Forall2 written) (fileWrites <$> evs) (treeFiles "." <$> ts)).
  { induction Hevs as [|a e l es Ha _ (ts & Hts & Hws)].
    - exists []. split; constructor.
    - apply download_callTree in Ha as (t & Ht & Hw). exists (t :: ts).
      split; constructor; done. }
  destruct Hts as (ts & Hts & Hws). exists ts. split.
  - by apply mapM_Some_2.
  - rewrite fileWrites_Stdout, fileWrites_app.
    rewrite fileWrites_Stdout, app_nil_r, fileWrites_concat.
    by apply Forall2_concat.
Qed.

Lemma downloadArticles_total fuel w articles :
  NoDup (api.ID <$> articles) →
  (∀ a, a ∈ articles → api.ID a ≠ "") →
  length articles ≤ fuel →
  (∀ path content, WriteMarkdownFile w path content = None) →
  (∀ a, a ∈ articles →
        ∃ content, markdown_codec.WriteMarkdown (frontmatterOf a) (api.Content a)
                   = Ok content) →
  ∃ ev, cmd.downloadArticles fuel w articles = Some (ev, None).
Proof.
  intros distinct named Hfuel Hwrites Hdocs. unfold cmd.downloadArticles.
  case_bool_decide; [by eexists|].
  destruct (callForest_total articles distinct named fuel Hfuel) as [forest Hf].
  pose proof (mapM_Some_1 _ _ _ Hf) as Hts.
  destruct (forEach_total
              (λ rootArticle, cmd.downloadArticleRecursive fuel w [] rootArticle "."
                                (cmd.indexByID articles))
              (cmd.sortedRoots articles)) as [ev Hev].
  - apply Forall_forall. intros a Ha.
    destruct (proj1 (list_elem_of_lookup _ a) Ha) as [i Hi].
    destruct (Forall2_lookup_l _ _ _ _ _ Hts Hi) as (t & Ht & Hcall).
    eapply download_total; [exact Hcall| |exact Hwrites].
    intros t' Ht'. apply Hdocs.
    apply (roots_elem articles) in Ha as [Ha _].
    eapply under_in; [|exact Ha].
    eapply (tree_under articles distinct); [exact Hcall|].
    unfold treeArticles. by apply list_elem_of_fmap_2.
  - rewrite Hev. by eexists.
Qed.
End download_all.

(** *** The scenario: a root with two children of different [Order] *)

Module Scenario.
Definition intro : api.Article :=
  {| api.ID := "A"; api.Title := "Intro"; api.Content := "";
     api.ParentID := None; api.Order := 0%Z; api.URL := "" |}.
Definition setup : api.Article :=
  {| api.ID := "B"; api.Title := "Setup"; api.Content := "";
     api.ParentID := Some "A"; api.Order := 0%Z; api.URL := "" |}.
Definition advanced : api.Article :=
  {| api.ID := "C"; api.Title := "Advanced"; api.Content := "";
     api.ParentID := Some "A"; api.Order := 1%Z; api.URL := "" |}.

Definition articles : list api.Article := [intro; setup; advanced].

Definition tree : rtree := RNode intro [RNode setup []; RNode advanced []].
End Scenario.

Section scenario.
Context {R : GoRuntime} {L : GoRuntimeLaws R}.

Lemma callTree_leaf fuel stack a articlesByID :
  cmd.sortedChildren (api.ID a :: stack) a articlesByID = [] →
  callTree (S fuel) stack a articlesByID = Some (RNode a []).
Proof. intros H. simpl. by rewrite H. Qed.

Lemma sorted_pair (l : list api.Article) x y :
  l ≡ₚ [x; y] → StronglySorted byOrder l → (api.Order x < api.Order y)%Z →
  l = [x; y].
Proof.
  intros Hperm Hsorted Hlt. symmetry in Hperm.
  apply Permutation_length_2_inv in Hperm as [->| ->]; [done|].
  apply StronglySorted_cons in Hsorted as [Hall _].
  apply Forall_cons in Hall as [Hyx _]. unfold byOrder in Hyx. lia.
Qed.

Lemma scenario_distinct : NoDup (api.ID <$> Scenario.articles).
Proof. by_evaluation. Qed.

Lemma scenario_roots : cmd.sortedRoots Scenario.articles = [Scenario.intro].
Proof. apply Permutation_singleton_r. by rewrite sortedRoots_perm. Qed.

Lemma scenario_children stack :
  cmd.sortedChildren stack Scenario.intro (cmd.indexByID Scenario.articles)
  = [Scenario.setup; Scenario.advanced].
Proof.
  apply sorted_pair; [|apply sortedChildren_sorted|done].
  by rewrite (children_perm _ scenario_distinct).
Qed.

Lemma scenario_leaves stack a :
  a = Scenario.setup ∨ a = Scenario.advanced →
  cmd.sortedChildren stack a (cmd.indexByID Scenario.articles) = [].
Proof.
  intros Ha. apply Permutation_nil_r.
  rewrite (children_perm _ scenario_distinct). by destruct Ha as [-> | ->].
Qed.

Lemma scenario_forest fuel :
  callForest (S (S fuel)) Scenario.articles = Some [Scenario.tree].
Proof.
  unfold callForest. rewrite scenario_roots.
  apply mapM_Some_2. constructor; [|constructor].
  change (callTree (S (S fuel)) [] Scenario.intro (cmd.indexByID Scenario.articles))
    with (children ← mapM (λ child, callTree (S fuel) ["A"] child
                                      (cmd.indexByID Scenario.articles))
                        (cmd.sortedChildren ["A"] Scenario.intro
                           (cmd.indexByID Scenario.articles));
          Some (RNode Scenario.intro children)).
  rewrite scenario_children.
  rewrite (mapM_Some_2 _ _ [RNode Scenario.setup []; RNode Scenario.advanced []]);
    [done|].
  repeat constructor; apply callTree_leaf, scenario_leaves; tauto.
Qed.

Lemma scenario_files :
  forestFiles [Scenario.tree]
  = [ (filepath_Join "." "Intro.md", Scenario.intro);
      (filepath_Join (filepath_Join "." "Intro") "Setup.md", Scenario.setup);
      (filepath_Join (filepath_Join "." "Intro") "Advanced.md", Scenario.advanced) ].
Proof. reflexivity. Qed.

Lemma callForest_roots fuel articles forest :
  callForest fuel articles = Some forest →
  rt_article <$> forest = cmd.sortedRoots articles.
Proof.
  intros Hf. apply mapM_Some_1 in Hf.
  induction Hf as [|a t l ts Ha _ IH]; [done|].
  rewrite fmap_cons, IH. f_equal. by eapply callTree_article.
Qed.

Lemma forest_children_sorted fuel articles forest t :
  callForest fuel articles = Some forest →
  t ∈ forestNodesOf forest →
  StronglySorted byOrder (rt_article <$> rt_children t).
Proof.
  intros Hf Ht. unfold forestNodesOf in Ht.
  apply elem_of_concat in Ht as (l & Hl & Ht).
  apply list_elem_of_fmap in Hl as (tr & -> & Htr).
  pose proof (mapM_Some_1 _ _ _ Hf) as Hts.
  destruct (proj1 (list_elem_of_lookup forest tr) Htr) as [i Hi].
  destruct (Forall2_lookup_r _ _ _ _ _ Hts Hi) as (a & _ & Hcall).
  destruct (nodesOf_calls _ _ _ _ _ Hcall t Ht) as (fuel' & stack' & Hcall').
  rewrite (callTree_children _ _ _ _ _ Hcall').
  apply sortedChildren_sorted.
Qed.
End scenario.

(** C8. A download that succeeds walks a forest of calls over the listing:
    it writes, for every node in the order of the walk, the encoding of the
    article (identifier, title and URL as frontmatter, then the content) to
    the file named by the sanitized title plus [.md] in the current
    directory, and walks the children of the node in the directory named by
    the sanitized title; roots and children are taken in non-decreasing
    [Order]. The download succeeds whenever identifiers are distinct and
    non-empty, the recursion is given as many levels as there are articles,
    and every encoding and write succeeds. Sanitizing replaces each of the
    nine bytes slash, backslash, less-than, greater-than, colon, double
    quote, bar, question mark and star by an underscore and leaves every
    other byte as it is. The encoding written for an article is the
    delimiter line, the block [yaml.Marshal] gives for its identifier, title
    and URL, the delimiter line again and the content. For the scenario of a root "Intro" with children "Setup"
    (order 0) and "Advanced" (order 1) the walk is Intro, Setup, Advanced
    on every runtime, and a download that succeeds writes Intro.md in the
    start directory, then Setup.md, then Advanced.md in its subdirectory
    Intro. *)
Theorem C8_download {R : GoRuntime} {L : GoRuntimeLaws R} :
  (∀ fuel w articles ev,
     articles ≠ [] →
     cmd.downloadArticles fuel w articles = Some (ev, None) →
     ∃ forest,
       callForest fuel articles = Some forest
       ∧ Forall2 written (fileWrites ev) (forestFiles forest)
       ∧ StronglySorted byOrder (rt_article <$> forest)
       ∧ ∀ t, t ∈ forestNodesOf forest →
              StronglySorted byOrder (rt_article <$> rt_children t))
  ∧ (∀ fuel w articles,
       NoDup (api.ID <$> articles) →
       (∀ a, a ∈ articles → api.ID a ≠ "") →
       length articles ≤ fuel →
       (∀ path content, WriteMarkdownFile w path content = None) →
       (∀ a, a ∈ articles →
             ∃ content, markdown_codec.WriteMarkdown (frontmatterOf a) (api.Content a)
                        = Ok content) →
       ∃ ev, cmd.downloadArticles fuel w articles = Some (ev, None))
  ∧ (∀ basePath a ts,
       treeFiles basePath (RNode a ts)
       = (filepath_Join basePath (filesystem.SanitizeFilename (api.Title a) +:+ ".md"), a)
         :: concat (treeFiles
                      (filepath_Join basePath (filesystem.SanitizeFilename (api.Title a)))
                    <$> ts))
  ∧ (∀ name,
       filesystem.SanitizeFilename name
       = mapBytes (λ c, if bool_decide
                             (c ∈ [ "/"%char; "092"%char; "<"%char; ">"%char;
                                    ":"%char; "034"%char; "|"%char; "?"%char;
                                    "*"%char ])
                        then "_"%char else c) name)
  ∧ (∀ fuel,
       callForest (S (S fuel)) Scenario.articles = Some [Scenario.tree]
       ∧ forestFiles [Scenario.tree]
         = [ (filepath_Join "." "Intro.md", Scenario.intro);
             (filepath_Join (filepath_Join "." "Intro") "Setup.md", Scenario.setup);
             (filepath_Join (filepath_Join "." "Intro") "Advanced.md",
              Scenario.advanced) ])
  ∧ (∀ fuel w ev,
       cmd.downloadArticles (S (S fuel)) w Scenario.articles = Some (ev, None) →
       Forall2 written (fileWrites ev)
         [ (filepath_Join "." "Intro.md", Scenario.intro);
           (filepath_Join (filepath_Join "." "Intro") "Setup.md", Scenario.setup);
           (filepath_Join (filepath_Join "." "Intro") "Advanced.md",
            Scenario.advanced) ])
  ∧ (∀ e path a,
       written e (path, a) ↔
       ∃ yamlData,
         yaml_Marshal {| markdown.ID := api.ID a; markdown.Title := api.Title a;
                         markdown.URL := api.URL a |} = Ok yamlData
         ∧ e = FsWrite path ("---" +:+ nl +:+ yamlData +:+ "---" +:+ nl
                             +:+ api.Content a)).
Proof.
  split_and!.
  - intros fuel w articles ev Hne Hrun.
    destruct (downloadArticles_callForest fuel w articles ev Hne Hrun)
      as (forest & Hf & Hw).
    exists forest. split_and!; try done.
    + rewrite (callForest_roots _ _ _ Hf). apply sortedRoots_sorted.
    + intros t Ht. by eapply forest_children_sorted.
  - apply downloadArticles_total.
  - reflexivity.
  - apply SanitizeFilename_bytes.
  - intros fuel. split; [apply scenario_forest | apply scenario_files].
  - intros fuel w ev Hrun.
    destruct (downloadArticles_callForest (S (S fuel)) w Scenario.articles ev)
      as (forest & Hf & Hw); [done | exact Hrun |].
    rewrite scenario_forest in Hf. injection Hf as <-. exact Hw.
  - intros e path a. unfold written, frontmatterOf, markdown_codec.WriteMarkdown.
    simpl. split.
    + intros (content & Hw & ->).
      destruct (yaml_Marshal _) as [yamlData|err]; [|done].
      injection Hw as <-. by exists yamlData.
    + intros (yamlData & -> & ->). by eexists.
Qed.

Lemma C8_witness :
  (callForest (R := GoModel.runtime) 3 Scenario.articles = Some [Scenario.tree]
   ∧ forestFiles (R := GoModel.runtime) [Scenario.tree]
     = [ (filepath_Join (GoRuntime := GoModel.runtime) "." "Intro.md", Scenario.intro);
         (filepath_Join (GoRuntime := GoModel.runtime)
            (filepath_Join (GoRuntime := GoModel.runtime) "." "Intro") "Setup.md",
          Scenario.setup);
         (filepath_Join (GoRuntime := GoModel.runtime)
            (filepath_Join (GoRuntime := GoModel.runtime) "." "Intro") "Advanced.md",
          Scenario.advanced) ])
  ∧ filesystem.SanitizeFilename
      ("a/b" +:+ backslash +:+ "c<d>e:f" +:+ dquote +:+ "g|h?i*j k.l")
    = "a_b_c_d_e_f_g_h_i_j k.l"
  ∧ ∃ ev,
      cmd.downloadArticles (R := GoModel.runtime) 3 (Examples.world "") Scenario.articles
      = Some (ev, None)
      ∧ fileWrites ev
        = [ FsWrite "Intro.md"
              ("---" +:+ nl +:+ "id: A" +:+ nl +:+ "title: Intro" +:+ nl +:+ "---" +:+ nl);
            FsWrite "Intro/Setup.md"
              ("---" +:+ nl +:+ "id: B" +:+ nl +:+ "title: Setup" +:+ nl +:+ "---" +:+ nl);
            FsWrite "Intro/Advanced.md"
              ("---" +:+ nl +:+ "id: C" +:+ nl +:+ "title: Advanced" +:+ nl
               +:+ "---" +:+ nl) ].
Proof.
  split; [|split].
  - exact (proj1 (proj2 (proj2 (proj2 (proj2
             (@C8_download GoModel.runtime GoModel_laws))))) 1).
  - by_vm.
  - eexists. split.
    + by_vm.
    + by_vm.
Defined.

(** The scenario on the reference runtime, where the joined paths can be
    read off. *)
Example scenario_download :
  ∃ ev,
    cmd.downloadArticles (R := GoModel.runtime) 3 (Examples.world "") Scenario.articles
    = Some (ev, None)
    ∧ fileWrites ev
      = [ FsWrite "Intro.md"
            ("---" +:+ nl +:+ "id: A" +:+ nl +:+ "title: Intro" +:+ nl +:+ "---" +:+ nl);
          FsWrite "Intro/Setup.md"
            ("---" +:+ nl +:+ "id: B" +:+ nl +:+ "title: Setup" +:+ nl +:+ "---" +:+ nl);
          FsWrite "Intro/Advanced.md"
            ("---" +:+ nl +:+ "id: C" +:+ nl +:+ "title: Advanced" +:+ nl +:+ "---" +:+ nl) ].
Proof.
  eexists. split.
  - by_vm.
  - by_vm.
Qed.

(** With the orders the adapter delivers (all 0) the same listing is walked
    Intro, Advanced, Setup by the reference runtime. *)
Example adapter_orders_download :
  ∃ ev,
    cmd.downloadArticles (R := GoModel.runtime) 3 (Examples.world "") Ties.articles
    = Some (ev, None)
    ∧ (λ e, match e with FsWrite path _ => path | _ => "" end) <$> fileWrites ev
      = ["Intro.md"; "Intro/Advanced.md"; "Intro/Setup.md"].
Proof.
  eexists. split.
  - by_vm.
  - by_vm.
Qed.

(** ** Files without identifier in the diff forest *)

Section node_induction.
Variable P : ArticleNode → Prop.
Hypothesis step :
  ∀ id title status children path,
    Forall P children → P (mkNode id title status children path).

Fixpoint ArticleNode_ind_nested (node : ArticleNode) : P node :=
  match node with
  | mkNode id title status children path =>
      step id title status children path
        ((fix go (l : list ArticleNode) : Forall P l :=
            match l with
            | [] => Forall_nil_2 P
            | n :: l' => Forall_cons_2 P n l' (ArticleNode_ind_nested n) (go l')
            end) children)
  end.
End node_induction.

(** What a node shows of itself, apart from its children. *)
Definition labelOf (node : ArticleNode) : string * string * ArticleStatus * string :=
  (ID node, Title node, Status node, Path node).

Definition forestLabels (nodes : list ArticleNode)
    : list (string * string * ArticleStatus * string) :=
  labelOf <$> forestNodes nodes.

Lemma forestNodes_cons node nodes :
  forestNodes (node :: nodes)
  = node :: forestNodes (Children node) ++ forestNodes nodes.
Proof. by destruct node. Qed.

Lemma forestNodes_app nodes1 nodes2 :
  forestNodes (nodes1 ++ nodes2) = forestNodes nodes1 ++ forestNodes nodes2.
Proof. unfold forestNodes. by rewrite fmap_app, concat_app. Qed.

Lemma forestLabels_cons node nodes :
  forestLabels (node :: nodes)
  = labelOf node :: forestLabels (Children node) ++ forestLabels nodes.
Proof. unfold forestLabels. by rewrite forestNodes_cons, fmap_cons, fmap_app. Qed.

Lemma forestLabels_app nodes1 nodes2 :
  forestLabels (nodes1 ++ nodes2) = forestLabels nodes1 ++ forestLabels nodes2.
Proof. unfold forestLabels. by rewrite forestNodes_app, fmap_app. Qed.

Section new_local.
Context {R : GoRuntime}.
Implicit Types (nodes : list ArticleNode) (addr : list nat).

Lemma findInNode_unfold node targetPath :
  cmd.findInNode node targetPath
  = if cmd.matchesDir node targetPath then Some []
    else cmd.findNodesFrom (Children node) 0 targetPath.
Proof.
  destruct node as [id title status children path]. simpl.
  destruct (cmd.matchesDir _ _); [done|].
  generalize 0. induction children as [|child rest IH]; intros i; simpl; [done|].
  destruct (cmd.findInNode child targetPath); [done|]. apply IH.
Qed.

Lemma nodeAt_cons nodes i addr :
  cmd.nodeAt nodes (i :: addr)
  = node ← nodes !! i;
    match addr with
    | [] => Some node
    | _ => cmd.nodeAt (Children node) addr
    end.
Proof. simpl. by destruct (nodes !! i). Qed.

(** The search returns the address of a node whose own file lies in the
    wanted directory. *)
Lemma find_sound targetPath nodes :
  ∀ i addr,
    cmd.findNodesFrom nodes i targetPath = Some addr →
    ∃ k rest node,
      addr = (i + k) :: rest
      ∧ cmd.nodeAt nodes (k :: rest) = Some node
      ∧ cmd.matchesDir node targetPath = true.
Proof.
  assert (Hnode : ∀ node,
             ∀ addr, cmd.findInNode node targetPath = Some addr →
               (addr = [] ∧ cmd.matchesDir node targetPath = true)
               ∨ (∃ k rest found,
                    addr = k :: rest
                    ∧ cmd.nodeAt (Children node) (k :: rest) = Some found
                    ∧ cmd.matchesDir found targetPath = true)).
  { induction node as [id title status children path IH]
      using ArticleNode_ind_nested.
    intros addr. rewrite findInNode_unfold.
    destruct (cmd.matchesDir _ _) eqn:Hm; [intros [= <-]; by left|].
    simpl. intros Hfind. right.
    assert (Hlist : ∀ i addr,
               cmd.findNodesFrom children i targetPath = Some addr →
               ∃ k rest found,
                 addr = (i + k) :: rest
                 ∧ cmd.nodeAt children (k :: rest) = Some found
                 ∧ cmd.matchesDir found targetPath = true).
    { clear Hfind addr Hm. induction IH as [|child rest Hchild _ IHrest];
        intros i addr; simpl; [done|].
      destruct (cmd.findInNode child targetPath) as [a|].
      - intros [= <-]. exists 0.
        destruct (Hchild a eq_refl) as [[-> Hm']|(k & r & found & -> & Hat & Hm')].
        + exists [], child. by rewrite Nat.add_0_r.
        + exists (k :: r), found. by rewrite Nat.add_0_r.
      - intros Hrest. apply IHrest in Hrest as (k & r & found & -> & Hat & Hm').
        exists (S k), r, found. split; [f_equal; lia|]. done. }
    destruct (Hlist 0 addr Hfind) as (k & r & found & -> & Hat & Hm').
    by exists k, r, found. }
  induction nodes as [|node rest IH]; intros i addr; simpl; [done|].
  destruct (cmd.findInNode node targetPath) as [a|] eqn:Hc.
  - intros [= <-]. exists 0.
    destruct (Hnode node a Hc) as [[-> Hm]|(k & r & found & -> & Hat & Hm)].
    + exists [], node. by rewrite Nat.add_0_r.
    + exists (k :: r), found. by rewrite Nat.add_0_r.
  - intros Hrest. apply IH in Hrest as (k & r & found & -> & Hat & Hm).
    exists (S k), r, found. split; [f_equal; lia|]. done.
Qed.

(** When the search returns nothing, no node of the forest has its file
    in the wanted directory. *)
Lemma find_complete targetPath nodes :
  ∀ i, cmd.findNodesFrom nodes i targetPath = None →
       ∀ node, node ∈ forestNodes nodes → cmd.matchesDir node targetPath = false.
Proof.
  assert (Hnode : ∀ node,
             cmd.findInNode node targetPath = None →
             ∀ n, n ∈ nodeList node → cmd.matchesDir n targetPath = false).
  { induction node as [id title status children path IH]
      using ArticleNode_ind_nested.
    rewrite findInNode_unfold.
    destruct (cmd.matchesDir _ _) eqn:Hm; [done|].
    simpl. intros Hfind n Hn.
    apply elem_of_cons in Hn as [->|Hn]; [done|].
    clear Hm. revert Hfind Hn. generalize 0.
    induction IH as [|child rest Hchild _ IHrest]; intros i; simpl.
    { intros _ Hn. by apply elem_of_nil in Hn. }
    destruct (cmd.findInNode child targetPath); [done|].
    intros Hrest Hn. apply elem_of_app in Hn as [Hn|Hn].
    - by apply Hchild.
    - by eapply IHrest. }
  induction nodes as [|node rest IH]; intros i; simpl.
  { intros _ n Hn. by apply elem_of_nil in Hn. }
  destruct (cmd.findInNode node targetPath) eqn:Hc; [done|].
  intros Hrest n Hn. unfold forestNodes in Hn. simpl in Hn.
  apply elem_of_app in Hn as [Hn|Hn].
  - exact (Hnode node Hc n Hn).
  - by eapply IH.
Qed.

Lemma labelOf_withChildren node children :
  labelOf (cmd.withChildren node children) = labelOf node.
Proof. reflexivity. Qed.

Lemma forestLabels_insert nodes i node node' extra :
  nodes !! i = Some node →
  labelOf node' = labelOf node →
  forestLabels (Children node') ≡ₚ forestLabels (Children node) ++ extra →
  forestLabels (<[i := node']> nodes) ≡ₚ forestLabels nodes ++ extra.
Proof.
  intros Hi Hlabel Hchildren.
  rewrite insert_take_drop by (by eapply lookup_lt_Some).
  rewrite <- (take_drop_middle nodes i node Hi) at 3.
  rewrite !forestLabels_app, !forestLabels_cons, Hlabel, Hchildren.
  rewrite <- !app_assoc, <- !app_comm_cons. apply Permutation_app_head.
  constructor. rewrite <- !app_assoc. apply Permutation_app_head.
  apply Permutation_app_comm.
Qed.

Lemma appendChild_labels new addr :
  ∀ nodes parent,
    cmd.nodeAt nodes addr = Some parent →
    forestLabels (cmd.appendChild nodes addr new)
    ≡ₚ forestLabels nodes ++ forestLabels [new].
Proof.
  induction addr as [|i addr IH]; intros nodes parent; [done|].
  rewrite nodeAt_cons. simpl.
  destruct (nodes !! i) as [node|] eqn:Hi; [|done]. simpl.
  destruct addr as [|j addr'].
  - intros [= <-].
    eapply forestLabels_insert; [exact Hi | done |]. simpl.
    by rewrite forestLabels_app.
  - intros Hat.
    eapply forestLabels_insert; [exact Hi | done |]. simpl.
    by eapply IH.
Qed.

Lemma appendChild_nodeAt new addr :
  ∀ nodes parent,
    cmd.nodeAt nodes addr = Some parent →
    cmd.nodeAt (cmd.appendChild nodes addr new) addr
    = Some (cmd.withChildren parent (Children parent ++ [new])).
Proof.
  induction addr as [|i addr IH]; intros nodes parent; [done|].
  rewrite nodeAt_cons.
  destruct (nodes !! i) as [node|] eqn:Hi; [|done]. simpl.
  rewrite Hi. pose proof (lookup_lt_Some _ _ _ Hi) as Hlt.
  destruct addr as [|j addr'].
  - intros [= <-]. by rewrite list_lookup_insert_eq.
  - intros Hat. rewrite list_lookup_insert_eq by done. simpl.
    by eapply IH.
Qed.
End new_local.

Section new_local_files.
Context {R : GoRuntime} {L : GoRuntimeLaws R}.

Lemma matchesDir_spec node targetPath :
  cmd.matchesDir node targetPath = true ↔
  Path node ≠ "" ∧ filepath_Dir (Path node) = targetPath.
Proof.
  unfold cmd.matchesDir. rewrite andb_true_iff, !bool_decide_eq_true. done.
Qed.

Definition newLabel (entry : string * markdown.MarkdownFile)
    : string * string * ArticleStatus * string :=
  labelOf (cmd.newLocalNode entry.1 entry.2).

Lemma forestLabels_leaf node :
  Children node = [] → forestLabels [node] = [labelOf node].
Proof.
  intros H. rewrite forestLabels_cons, H. done.
Qed.

(** One round of the loop adds exactly the new node, whatever it
    finds. *)
Lemma addNewLocal_labels rootNodes entry :
  forestLabels (cmd.addNewLocal rootNodes entry)
  ≡ₚ forestLabels rootNodes ++ [newLabel entry].
Proof.
  destruct entry as [path md]. unfold cmd.addNewLocal, newLabel. simpl.
  assert (Hleaf : forestLabels [cmd.newLocalNode path md]
                  = [labelOf (cmd.newLocalNode path md)])
    by (by apply forestLabels_leaf).
  case_bool_decide.
  { by rewrite forestLabels_app, Hleaf. }
  destruct (cmd.findNodeByPath rootNodes _) as [addr|] eqn:Hfind.
  - apply find_sound in Hfind as (k & rest & parent & -> & Hat & _).
    rewrite <- Hleaf. by eapply appendChild_labels.
  - by rewrite forestLabels_app, Hleaf.
Qed.

Lemma addNewLocal_fold_labels entries rootNodes :
  forestLabels (fold_left cmd.addNewLocal entries rootNodes)
  ≡ₚ forestLabels rootNodes ++ (newLabel <$> entries).
Proof.
  revert rootNodes. induction entries as [|e l IH]; intros rootNodes; simpl.
  { by rewrite app_nil_r. }
  rewrite IH, addNewLocal_labels, <- app_assoc. done.
Qed.

Lemma addNewLocals_labels rootNodes localByPath :
  forestLabels (cmd.addNewLocals rootNodes localByPath)
  ≡ₚ forestLabels rootNodes ++ (newLabel <$> map_to_list localByPath).
Proof.
  unfold cmd.addNewLocals. rewrite addNewLocal_fold_labels.
  by rewrite range_map_perm.
Qed.

(** *** The files without identifier *)

Lemma loadLocalStep_snd w acc filePath :
  (cmd.loadLocalStep w acc filePath).2
  = match decodeFile w filePath with
    | Some md => if bool_decide (fileID md ≠ "") then acc.2
                 else <[filePath := md]> acc.2
    | None => acc.2
    end.
Proof.
  unfold cmd.loadLocalStep, decodeFile, fileID. destruct acc as [[lb lp] lq]. simpl.
  destruct (ReadMarkdownFile w filePath); [|done].
  destruct (markdown_codec.ParseMarkdown _); [|done].
  by case_bool_decide.
Qed.

Lemma localByPath_fresh w localFiles acc path :
  path ∉ localFiles →
  (fold_left (cmd.loadLocalStep w) localFiles acc).2 !! path = acc.2 !! path.
Proof.
  revert acc. induction localFiles as [|f l IH]; intros acc Hp; simpl; [done|].
  apply not_elem_of_cons in Hp as [Hf Hl].
  rewrite IH by done. rewrite loadLocalStep_snd.
  destruct (decodeFile w f); [|done].
  case_bool_decide; [done|]. by rewrite lookup_insert_ne.
Qed.

Lemma localByPath_fold_lookup w localFiles acc path md :
  (fold_left (cmd.loadLocalStep w) localFiles acc).2 !! path = Some md →
  (path ∈ localFiles ∧ decodeFile w path = Some md ∧ fileID md = "")
  ∨ acc.2 !! path = Some md.
Proof.
  revert acc. induction localFiles as [|f l IH]; intros acc H; simpl in *; [by right|].
  apply IH in H as [(Hin & Hdec & Hid)|H].
  { left. split_and!; try done. by right. }
  rewrite loadLocalStep_snd in H.
  destruct (decodeFile w f) as [md'|] eqn:Hdec; [|by right].
  case_bool_decide as Hid; [by right|].
  rewrite lookup_insert in H. case_decide as Hf; [|by right].
  injection H as ->. subst f. left.
  split; [by left|]. split; [done|].
  destruct (decide (fileID md = "")) as [Hempty|Hne]; [done | by destruct Hid].
Qed.

Lemma localByPath_fold_insert w localFiles acc path md :
  path ∈ localFiles → decodeFile w path = Some md → fileID md = "" →
  (fold_left (cmd.loadLocalStep w) localFiles acc).2 !! path = Some md.
Proof.
  revert acc. induction localFiles as [|f l IH]; intros acc Hin Hdec Hid; simpl.
  { by apply elem_of_nil in Hin. }
  destruct (decide (path ∈ l)) as [Hl|Hl]; [by apply IH|].
  apply elem_of_cons in Hin as [->|Hin]; [|done].
  rewrite localByPath_fresh by done. rewrite loadLocalStep_snd, Hdec.
  rewrite bool_decide_false by (intros Hne; by apply Hne).
  by rewrite lookup_insert_eq.
Qed.

(** The map [localByPath] of [runDiff] holds exactly the decoded files
    without identifier. *)
Lemma localByPath_spec w localFiles path md :
  (cmd.loadLocal w localFiles).2 !! path = Some md ↔
  path ∈ localFiles ∧ decodeFile w path = Some md ∧ fileID md = "".
Proof.
  split.
  - intros H. apply localByPath_fold_lookup in H as [H|H]; [done|].
    simpl in H. by rewrite lookup_empty in H.
  - intros (Hin & Hdec & Hid). by apply localByPath_fold_insert.
Qed.
End new_local_files.

(** C4. One round of the insertion loop makes one node for the file, with
    status [new-local], no identifier, the title of the file and its path.
    When the directory of the file is the sync root the node is appended to
    the roots. Otherwise the forest as it stands is searched, and when the
    search returns a node, that node has a file path whose directory is the
    directory of the file, and the new node becomes its last child; when the
    search returns nothing, no node of the forest has such a path, and the
    new node is appended to the roots. In every case the forest afterwards
    shows what it showed before plus the new node, and after the whole loop
    it shows what it showed before plus one node for every entry of the
    map of files without identifier, which holds exactly the decoded files
    whose frontmatter has no identifier. The insertion is a total
    function. *)
Theorem C4_new_local_insertion
    {R : GoRuntime} {L : GoRuntimeLaws R}
    (rootNodes : list ArticleNode) (path : string) (md : markdown.MarkdownFile) :
  let node := cmd.newLocalNode path md in
  let dir := filepath_Dir path in
  let rootNodes' := cmd.addNewLocal rootNodes (path, md) in
  labelOf node
  = ("", markdown.Title (markdown.Frontmatter_ md), StatusNewLocal, path)
  ∧ (dir = "." → rootNodes' = rootNodes ++ [node])
  ∧ (dir ≠ "." →
     ∀ addr, cmd.findNodeByPath rootNodes dir = Some addr →
       ∃ parent,
         cmd.nodeAt rootNodes addr = Some parent
         ∧ Path parent ≠ "" ∧ filepath_Dir (Path parent) = dir
         ∧ rootNodes' = cmd.appendChild rootNodes addr node
         ∧ cmd.nodeAt rootNodes' addr
           = Some (cmd.withChildren parent (Children parent ++ [node])))
  ∧ (dir ≠ "." →
     cmd.findNodeByPath rootNodes dir = None →
     (∀ n, n ∈ forestNodes rootNodes →
           ¬ (Path n ≠ "" ∧ filepath_Dir (Path n) = dir))
     ∧ rootNodes' = rootNodes ++ [node])
  ∧ forestLabels rootNodes' ≡ₚ forestLabels rootNodes ++ [labelOf node]
  ∧ (∀ localByPath,
       forestLabels (cmd.addNewLocals rootNodes localByPath)
       ≡ₚ forestLabels rootNodes ++ (newLabel <$> map_to_list localByPath))
  ∧ (∀ w localFiles filePath file,
       (cmd.loadLocal w localFiles).2 !! filePath = Some file ↔
       filePath ∈ localFiles ∧ decodeFile w filePath = Some file ∧ fileID file = "").
Proof.
  intros node dir rootNodes'. split_and!.
  - reflexivity.
  - intros Hdir. unfold rootNodes', cmd.addNewLocal. fold dir.
    by rewrite bool_decide_true.
  - intros Hdir addr Hfind. unfold rootNodes', cmd.addNewLocal. fold dir node.
    rewrite bool_decide_false by done. rewrite Hfind.
    apply find_sound in Hfind as (k & rest & parent & Haddr & Hat & Hm).
    simpl in Haddr. subst addr.
    apply matchesDir_spec in Hm as [Hpath Hpdir].
    exists parent. split_and!; try done.
    by apply appendChild_nodeAt.
  - intros Hdir Hfind. split.
    + intros n Hn Hmatch. apply matchesDir_spec in Hmatch.
      by rewrite (find_complete _ _ _ Hfind n Hn) in Hmatch.
    + unfold rootNodes', cmd.addNewLocal. fold dir node.
      rewrite bool_decide_false by done. by rewrite Hfind.
  - apply (addNewLocal_labels rootNodes (path, md)).
  - apply addNewLocals_labels.
  - apply localByPath_spec.
Qed.

Lemma C4_witness :
  let setup :=
    {| ID := "A-2"; Title := "Setup"; Status := StatusModified;
       Children := []; Path := "Intro/Setup.md" |} in
  let intro :=
    {| ID := "A-1"; Title := "Intro"; Status := StatusUnchanged;
       Children := [setup]; Path := "Intro.md" |} in
  let draft :=
    {| markdown.Frontmatter_ :=
         {| markdown.ID := ""; markdown.Title := "Draft"; markdown.URL := "" |};
       markdown.Content := "d" |} in
  cmd.findNodeByPath (R := GoModel.runtime) [intro] "Intro" = Some [0; 0]
  ∧ ∃ parent,
      cmd.nodeAt [intro] [0; 0] = Some parent
      ∧ filepath_Dir (GoRuntime := GoModel.runtime) (Path parent) = "Intro"
      ∧ cmd.addNewLocal (R := GoModel.runtime) [intro] ("Intro/Draft.md", draft)
        = cmd.appendChild [intro] [0; 0] (cmd.newLocalNode "Intro/Draft.md" draft).
Proof.
  intros setup intro draft.
  assert (Hfind : cmd.findNodeByPath (R := GoModel.runtime) [intro] "Intro"
                  = Some [0; 0]) by by_vm.
  split; [exact Hfind|].
  pose proof (@C4_new_local_insertion GoModel.runtime GoModel_laws
                [intro] "Intro/Draft.md" draft) as H.
  cbv zeta in H. destruct H as (_ & _ & Hfound & _).
  assert (Hdir : filepath_Dir (GoRuntime := GoModel.runtime) "Intro/Draft.md" = "Intro")
    by by_vm.
  rewrite Hdir in Hfound.
  destruct (Hfound ltac:(discriminate) [0; 0] Hfind)
    as (parent & Hat & _ & Hpdir & Hnew & _).
  exists parent. split; [exact Hat|]. split; [exact Hpdir | exact Hnew].
Defined.

(** The draft next to [Intro/Setup.md] becomes a child of the node that the
    search finds first among those whose file is in [Intro]: the node of
    [Intro/Setup.md] itself. *)
Example draft_inserted :
  cmd.runDiff (R := GoModel.runtime) 2 Examples.cfg (Examples.world "")
  = Some (Ok [ {| ID := "A-1"; Title := "Intro"; Status := StatusUnchanged;
                  Path := "Intro.md";
                  Children :=
                    [ {| ID := "A-2"; Title := "Setup"; Status := StatusModified;
                         Path := "Intro/Setup.md";
                         Children :=
                           [ {| ID := ""; Title := "Draft"; Status := StatusNewLocal;
                                Path := "Intro/Draft.md"; Children := [] |} ] |} ] |} ]).
Proof. by_vm. Qed.

(** ** The markdown codec: documents that decode *)

Section delimiter_facts.
Implicit Types (s t pre : string).

Import markdown_codec.

Lemma upto_all s : strings.upto (String.length s) s = s.
Proof. induction s as [|c s IH]; simpl; [done|]. by rewrite IH. Qed.

Lemma from_all s t : strings.from (String.length s) (s +:+ t) = t.
Proof. induction s as [|c s IH]; simpl; [by destruct t | done]. Qed.

Lemma upto_from s n : strings.upto n s +:+ strings.from n s = s.
Proof.
  revert s. induction n as [|n IH]; intros [|c s]; simpl; try done.
  change (String c (strings.upto n s +:+ strings.from n s) = String c s).
  by rewrite IH.
Qed.

Lemma upto_length s n :
  n ≤ String.length s → String.length (strings.upto n s) = n.
Proof.
  revert s. induction n as [|n IH]; intros [|c s] Hlen; simpl in *; try done; try lia.
  rewrite IH; lia.
Qed.

Lemma string_app_assoc s t u : (s +:+ t) +:+ u = s +:+ (t +:+ u).
Proof.
  induction s as [|c s IH]; [done|].
  change (String c ((s +:+ t) +:+ u) = String c (s +:+ t +:+ u)). by rewrite IH.
Qed.

(** A string that starts with the delimiter is at least four bytes long,
    and a shorter one does not become a match by text put after it: the
    newline of the delimiter is its last byte only. *)
Lemma HasPrefix_delimiter_app s t :
  s ≠ "" →
  strings.HasPrefix (s +:+ delimiter +:+ t) delimiter = strings.HasPrefix s delimiter.
Proof.
  intros Hs.
  destruct (decide (4 ≤ String.length s)) as [Hlong|Hshort].
  { by apply HasPrefix_app. }
  destruct s as [|c1 [|c2 [|c3 [|c4 s]]]]; simpl in Hshort; try lia; done.
Qed.

(** In [s] followed by the delimiter, the first delimiter is the one that
    follows [s], when [s] holds none. *)
Lemma Index_delimiter_after s t :
  strings.Index s delimiter = None →
  strings.Index (s +:+ delimiter +:+ t) delimiter = Some (String.length s).
Proof.
  induction s as [|c s IH]; [done|].
  rewrite Index_unfold.
  destruct (strings.HasPrefix (String c s) delimiter) eqn:Hp; [done|].
  destruct (strings.Index s delimiter) as [j|] eqn:Hj; [done|]. intros _.
  rewrite Index_unfold, HasPrefix_delimiter_app, Hp by done.
  change (String c s +:+ delimiter +:+ t) with (String c (s +:+ delimiter +:+ t)).
  cbv beta iota. by rewrite IH.
Qed.

Lemma HasPrefix_upto s pre n :
  strings.HasPrefix (strings.upto n s) pre = true → strings.HasPrefix s pre = true.
Proof.
  intros H. rewrite <- (upto_from s n).
  rewrite HasPrefix_app; [done|]. by apply HasPrefix_length.
Qed.

(** The text before the first occurrence holds no occurrence. *)
Lemma Index_upto s i :
  strings.Index s delimiter = Some i →
  strings.Index (strings.upto i s) delimiter = None.
Proof.
  revert i. induction s as [|c s IH]; intros i; rewrite Index_unfold.
  - by destruct i.
  - destruct (strings.HasPrefix (String c s) delimiter) eqn:Hp.
    + by intros [= <-].
    + destruct (strings.Index s delimiter) as [j|] eqn:Hj; [|done].
      intros [= <-].
      change (strings.upto (S j) (String c s)) with (String c (strings.upto j s)).
      rewrite Index_unfold.
      destruct (strings.HasPrefix (String c (strings.upto j s)) delimiter) eqn:Hq.
      * apply (HasPrefix_upto (String c s) _ (S j)) in Hq. congruence.
      * by rewrite (IH j).
Qed.

Lemma HasPrefix_split s pre :
  strings.HasPrefix s pre = true → s = pre +:+ strings.from (String.length pre) s.
Proof.
  revert s. induction pre as [|c pre IH]; intros s; [by destruct s|].
  destruct s as [|d s]; simpl; [done|].
  destruct (Ascii.eqb_spec c d) as [->|]; [|done]. intros H.
  change (String d s = String d (pre +:+ strings.from (String.length pre) s)).
  f_equal. by apply IH.
Qed.

(** A string is cut in three by the first occurrence of the delimiter. *)
Lemma Index_split s i :
  strings.Index s delimiter = Some i →
  s = strings.upto i s +:+ delimiter +:+ strings.from (i + 4) s.
Proof.
  revert i. induction s as [|c s IH]; intros i; rewrite Index_unfold.
  - destruct (strings.HasPrefix "" delimiter) eqn:Hp; done.
  - destruct (strings.HasPrefix (String c s) delimiter) eqn:Hp.
    + intros [= <-]. by apply HasPrefix_split in Hp.
    + destruct (strings.Index s delimiter) as [j|] eqn:Hj; [|done].
      intros [= <-]. simpl.
      change (String c s
              = String c (strings.upto j s +:+ delimiter +:+ strings.from (j + 4) s)).
      f_equal. by apply IH.
Qed.
End delimiter_facts.

Section framed.
Context {R : GoRuntime}.
Import markdown_codec.

(** What the decoder makes of a text, a delimiter, a block, a delimiter and
    a body, when neither the text nor the block holds the delimiter. *)
Lemma ParseMarkdown_framed pre text body :
  strings.Index pre delimiter = None →
  strings.Index text delimiter = None →
  ParseMarkdown (pre +:+ delimiter +:+ text +:+ delimiter +:+ body)
  = match yaml_Unmarshal text with
    | Err e => Err ("failed to parse frontmatter: " +:+ e)
    | Ok frontmatter =>
        Ok {| markdown.Frontmatter_ := frontmatter; markdown.Content := body |}
    end.
Proof.
  intros Hpre Htext.
  set (rest := text +:+ delimiter +:+ body).
  set (doc := pre +:+ delimiter +:+ rest).
  assert (Hstart : strings.Index doc delimiter = Some (String.length pre)).
  { by apply Index_delimiter_after. }
  assert (Hrest : strings.from (String.length pre + 4) doc = rest).
  { unfold doc. rewrite <- string_app_assoc.
    replace (String.length pre + 4) with (String.length (pre +:+ delimiter))
      by (by rewrite string_length_app).
    apply from_all. }
  assert (Hend : strings.Index rest delimiter = Some (String.length text)).
  { by apply Index_delimiter_after. }
  assert (Hlen : String.length doc
                 = String.length pre + 4 + String.length text + 4 + String.length body).
  { unfold doc, rest. rewrite !string_length_app.
    change (String.length delimiter) with 4. lia. }
  assert (Hbody : strings.from (String.length pre + 4 + String.length text + 4) doc
                  = body).
  { unfold doc, rest.
    rewrite <- (string_app_assoc text), <- (string_app_assoc pre).
    rewrite <- (string_app_assoc (pre +:+ delimiter)).
    replace (String.length pre + 4 + String.length text + 4)
      with (String.length ((pre +:+ delimiter) +:+ text +:+ delimiter))
      by (rewrite !string_length_app; change (String.length delimiter) with 4; lia).
    apply from_all. }
  unfold ParseMarkdown. rewrite Hstart. cbv beta iota zeta.
  unfold strings.slice. rewrite Hrest, Hend. cbv beta iota zeta.
  replace (String.length pre + 4 + String.length text - (String.length pre + 4))
    with (String.length text) by lia.
  unfold rest at 1. rewrite upto_app, upto_all by lia.
  destruct (yaml_Unmarshal text) as [frontmatter|e]; [|done].
  rewrite Hlen, Hbody.
  destruct (String.length pre + 4 + String.length text + 4
            <? String.length pre + 4 + String.length text + 4 + String.length body)
    eqn:Hlt; [done|].
  apply Nat.ltb_ge in Hlt. destruct body; [done | simpl in Hlt; lia].
Qed.

(** A text that decodes is such a framed text. *)
Lemma ParseMarkdown_frame content md :
  ParseMarkdown content = Ok md →
  ∃ pre text,
    content = pre +:+ delimiter +:+ text +:+ delimiter +:+ markdown.Content md
    ∧ strings.Index pre delimiter = None
    ∧ strings.Index text delimiter = None
    ∧ yaml_Unmarshal text = Ok (markdown.Frontmatter_ md).
Proof.
  intros Hparse. pose proof Hparse as Hraw. unfold ParseMarkdown in Hraw.
  destruct (strings.Index content delimiter) as [i|] eqn:Hi; [|done].
  destruct (strings.Index (strings.from (i + 4) content) delimiter) as [j|] eqn:Hj;
    [|done].
  clear Hraw.
  set (rest := strings.from (i + 4) content) in *.
  pose proof (Index_split _ _ Hi) as Hdoc. fold rest in Hdoc.
  pose proof (Index_split _ _ Hj) as Hrest.
  pose proof (Index_upto _ _ Hi) as Hpre.
  pose proof (Index_upto _ _ Hj) as Htext.
  exists (strings.upto i content), (strings.upto j rest).
  assert (Hshape : content
                   = strings.upto i content +:+ delimiter +:+ strings.upto j rest
                     +:+ delimiter +:+ strings.from (j + 4) rest).
  { rewrite <- Hrest. exact Hdoc. }
  rewrite Hshape in Hparse.
  rewrite (ParseMarkdown_framed _ _ _ Hpre Htext) in Hparse.
  destruct (yaml_Unmarshal (strings.upto j rest)) as [frontmatter|e]; [|done].
  injection Hparse as <-. simpl. done.
Qed.

(** A document with one delimiter only. *)
Lemma ParseMarkdown_unclosed pre rest :
  strings.Index pre delimiter = None →
  strings.Index rest delimiter = None →
  ParseMarkdown (pre +:+ delimiter +:+ rest)
  = Err "invalid frontmatter: no closing delimiter".
Proof.
  intros Hpre Hrest. unfold ParseMarkdown.
  rewrite (Index_delimiter_after _ _ Hpre). cbv beta iota zeta.
  replace (strings.from (String.length pre + 4) (pre +:+ delimiter +:+ rest))
    with rest; [by rewrite Hrest|].
  rewrite <- string_app_assoc.
  replace (String.length pre + 4) with (String.length (pre +:+ delimiter))
    by (by rewrite string_length_app).
  by rewrite from_all.
Qed.
End framed.

(** X1. Encoding a frontmatter and a body and decoding the result gives
    both back, whenever the block [yaml.Marshal] writes for the frontmatter
    does not hold the delimiter text (three dashes and a newline) and
    [yaml.Unmarshal] reads the block back as the frontmatter. The body is
    arbitrary: it may hold delimiters of its own or be empty. *)
Theorem WriteMarkdown_ParseMarkdown
    {R : GoRuntime} (fm : markdown.Frontmatter) (body yamlData : string) :
  yaml_Marshal fm = Ok yamlData →
  strings.Index yamlData markdown_codec.delimiter = None →
  yaml_Unmarshal yamlData = Ok fm →
  ∃ doc,
    markdown_codec.WriteMarkdown fm body = Ok doc
    ∧ markdown_codec.ParseMarkdown doc
      = Ok {| markdown.Frontmatter_ := fm; markdown.Content := body |}.
Proof.
  intros Hm Hfree Hu. eexists. split.
  - unfold markdown_codec.WriteMarkdown. by rewrite Hm.
  - change (markdown_codec.delimiter +:+ yamlData +:+ markdown_codec.delimiter +:+ body)
      with ("" +:+ markdown_codec.delimiter +:+ yamlData
            +:+ markdown_codec.delimiter +:+ body).
    rewrite ParseMarkdown_framed by done. by rewrite Hu.
Qed.

Definition intro_frontmatter : markdown.Frontmatter :=
  {| markdown.ID := "A-1"; markdown.Title := "Intro";
     markdown.URL := "https://yt.example/articles/A-1" |}.

Lemma X1_witness :
  ∃ doc,
    markdown_codec.WriteMarkdown (R := GoModel.runtime) intro_frontmatter
      ("---" +:+ nl +:+ "two") = Ok doc
    ∧ markdown_codec.ParseMarkdown (R := GoModel.runtime) doc
      = Ok {| markdown.Frontmatter_ := intro_frontmatter;
              markdown.Content := "---" +:+ nl +:+ "two" |}.
Proof.
  assert (Hm : yaml_Marshal (GoRuntime := GoModel.runtime) intro_frontmatter
               = Ok ("id: A-1" +:+ nl +:+ "title: Intro" +:+ nl
                     +:+ "url: https://yt.example/articles/A-1" +:+ nl)) by by_vm.
  assert (Hfree : strings.Index ("id: A-1" +:+ nl +:+ "title: Intro" +:+ nl
                                 +:+ "url: https://yt.example/articles/A-1" +:+ nl)
                    markdown_codec.delimiter = None) by by_vm.
  assert (Hu : yaml_Unmarshal (GoRuntime := GoModel.runtime)
                 ("id: A-1" +:+ nl +:+ "title: Intro" +:+ nl
                  +:+ "url: https://yt.example/articles/A-1" +:+ nl)
               = Ok intro_frontmatter) by by_vm.
  exact (@WriteMarkdown_ParseMarkdown GoModel.runtime intro_frontmatter
           ("---" +:+ nl +:+ "two") _ Hm Hfree Hu).
Defined.

(** X2. The decoder accepts exactly the texts made of: any text without
    delimiter, a delimiter, a block without delimiter that [yaml.Unmarshal]
    reads, a delimiter, and a body. It returns what [yaml.Unmarshal] makes
    of the block, and the body byte for byte; what stands before the first
    delimiter is dropped. *)
Theorem ParseMarkdown_accepts
    {R : GoRuntime} (content : string) (md : markdown.MarkdownFile) :
  markdown_codec.ParseMarkdown content = Ok md ↔
  ∃ pre text,
    content = pre +:+ markdown_codec.delimiter +:+ text
              +:+ markdown_codec.delimiter +:+ markdown.Content md
    ∧ strings.Index pre markdown_codec.delimiter = None
    ∧ strings.Index text markdown_codec.delimiter = None
    ∧ yaml_Unmarshal text = Ok (markdown.Frontmatter_ md).
Proof.
  split; [apply ParseMarkdown_frame|].
  intros (pre & text & -> & Hpre & Htext & Hu).
  rewrite ParseMarkdown_framed by done. rewrite Hu. by destruct md.
Qed.

Lemma X2_witness :
  markdown_codec.ParseMarkdown (R := GoModel.runtime)
    ("# note" +:+ nl +:+ "---" +:+ nl +:+ "title: Draft" +:+ nl +:+ "---" +:+ nl +:+ "d")
  = Ok {| markdown.Frontmatter_ :=
            {| markdown.ID := ""; markdown.Title := "Draft"; markdown.URL := "" |};
          markdown.Content := "d" |}.
Proof.
  apply (proj2 (@ParseMarkdown_accepts GoModel.runtime _ _)).
  exists ("# note" +:+ nl), ("title: Draft" +:+ nl).
  split; [reflexivity|]. split; [by_vm|]. split; by_vm.
Defined.

(** X3. The two ways a text fails to decode before its block is read: with
    no delimiter at all it is "no frontmatter found", and with a single
    delimiter it is "no closing delimiter" — wherever the delimiter stands,
    so a text that ends in its opening delimiter, or has a body but no
    block, is rejected and never read as an empty block. *)
Theorem ParseMarkdown_rejects {R : GoRuntime} (pre rest : string) :
  strings.Index pre markdown_codec.delimiter = None →
  strings.Index rest markdown_codec.delimiter = None →
  markdown_codec.ParseMarkdown pre = Err "no frontmatter found"
  ∧ markdown_codec.ParseMarkdown (pre +:+ markdown_codec.delimiter +:+ rest)
    = Err "invalid frontmatter: no closing delimiter".
Proof.
  intros Hpre Hrest. split.
  - unfold markdown_codec.ParseMarkdown. by rewrite Hpre.
  - by apply ParseMarkdown_unclosed.
Qed.

Lemma X3_witness :
  markdown_codec.ParseMarkdown (R := GoModel.runtime) "plain text"
  = Err "no frontmatter found"
  ∧ markdown_codec.ParseMarkdown (R := GoModel.runtime)
      ("plain text" +:+ markdown_codec.delimiter +:+ "title: Draft" +:+ nl)
    = Err "invalid frontmatter: no closing delimiter".
Proof.
  apply (@ParseMarkdown_rejects GoModel.runtime "plain text" ("title: Draft" +:+ nl));
    by_vm.
Defined.

(** X4. [UpdateFrontmatterID] touches the file with one write at most, its
    last step: when the file cannot be read, when what was read cannot be
    decoded, or when the new frontmatter cannot be encoded, the file is
    read and nothing is written, and the error returned is the error of
    that step as it is. When it returns
    no error, the file was read and decoded and then written once, with the
    encoding of the decoded title and URL under the new identifier followed
    by the decoded body; any text that stood before the opening delimiter
    is gone. Decoding the new file gives the new identifier with the old
    title, URL and body whenever the block written holds no delimiter and
    is read back by [yaml.Unmarshal]. *)
Theorem UpdateFrontmatterID_rewrites
    {R : GoRuntime}
    (os_ReadFile : string → result string)
    (os_WriteFile : string → string → option error)
    (filePath articleID : string) (ev : list event) (err : option error) :
  markdown_files.UpdateFrontmatterID os_ReadFile os_WriteFile filePath articleID
  = (ev, err) →
  (fileWrites ev = []
   ∨ ∃ newContent, fileWrites ev = [FsWrite filePath newContent]
                   ∧ err = os_WriteFile filePath newContent)
  ∧ (err = None →
     ∃ content md yamlData,
       let frontmatter :=
         {| markdown.ID := articleID;
            markdown.Title := markdown.Title (markdown.Frontmatter_ md);
            markdown.URL := markdown.URL (markdown.Frontmatter_ md) |} in
       let newContent :=
         markdown_codec.delimiter +:+ yamlData +:+ markdown_codec.delimiter
         +:+ markdown.Content md in
       os_ReadFile filePath = Ok content
       ∧ markdown_codec.ParseMarkdown content = Ok md
       ∧ yaml_Marshal frontmatter = Ok yamlData
       ∧ ev = [FsRead filePath; FsWrite filePath newContent]
       ∧ (strings.Index yamlData markdown_codec.delimiter = None →
          yaml_Unmarshal yamlData = Ok frontmatter →
          markdown_codec.ParseMarkdown newContent
          = Ok {| markdown.Frontmatter_ := frontmatter;
                  markdown.Content := markdown.Content md |}))
  ∧ (∀ e, os_ReadFile filePath = Err e →
          ev = [FsRead filePath] ∧ err = Some e)
  ∧ (∀ content e,
       os_ReadFile filePath = Ok content →
       markdown_codec.ParseMarkdown content = Err e →
       ev = [FsRead filePath] ∧ err = Some e)
  ∧ (∀ content md e,
       os_ReadFile filePath = Ok content →
       markdown_codec.ParseMarkdown content = Ok md →
       yaml_Marshal {| markdown.ID := articleID;
                       markdown.Title := markdown.Title (markdown.Frontmatter_ md);
                       markdown.URL := markdown.URL (markdown.Frontmatter_ md) |}
       = Err e →
       ev = [FsRead filePath] ∧ err = Some e)
  ∧ (fileWrites ev = [] →
     ev = [FsRead filePath]
     ∧ ∃ e, err = Some e
            ∧ (os_ReadFile filePath = Err e
               ∨ ∃ content,
                   os_ReadFile filePath = Ok content
                   ∧ (markdown_codec.ParseMarkdown content = Err e
                      ∨ ∃ md,
                          markdown_codec.ParseMarkdown content = Ok md
                          ∧ yaml_Marshal
                              {| markdown.ID := articleID;
                                 markdown.Title :=
                                   markdown.Title (markdown.Frontmatter_ md);
                                 markdown.URL :=
                                   markdown.URL (markdown.Frontmatter_ md) |}
                            = Err e))).
Proof.
  unfold markdown_files.UpdateFrontmatterID, markdown_files.readFile,
    markdown_files.writeFile, markdown_codec.WriteMarkdown.
  destruct (os_ReadFile filePath) as [content|e] eqn:Hread.
  2:{ intros [= <- <-]. split_and!.
      - by left.
      - done.
      - by intros e' [= <-].
      - by intros c e' [=].
      - by intros c m e' [=].
      - intros _. split; [done|]. exists e. split; [done | by left]. }
  destruct (markdown_codec.ParseMarkdown content) as [md|e] eqn:Hparse.
  2:{ intros [= <- <-]. split_and!.
      - by left.
      - done.
      - by intros e' [=].
      - intros c e' [= <-] He. rewrite Hparse in He. by injection He as <-.
      - intros c m e' [= <-] Hp. by rewrite Hparse in Hp.
      - intros _. split; [done|]. exists e. split; [done|]. right.
        exists content. split; [done | by left]. }
  destruct (yaml_Marshal _) as [yamlData|e] eqn:Hm.
  2:{ intros [= <- <-]. split_and!.
      - by left.
      - done.
      - by intros e' [=].
      - intros c e' [= <-] He. by rewrite Hparse in He.
      - intros c m e' [= <-] Hp He. rewrite Hparse in Hp. injection Hp as <-.
        rewrite Hm in He. by injection He as <-.
      - intros _. split; [done|]. exists e. split; [done|]. right.
        exists content. split; [done|]. right. by exists md. }
  intros [= <- <-]. split_and!.
  - right. by eexists.
  - intros Hok. exists content, md, yamlData. cbv zeta.
    split_and!; try done.
    intros Hfree Hu.
    change (markdown_codec.delimiter +:+ yamlData +:+ markdown_codec.delimiter
            +:+ markdown.Content md)
      with ("" +:+ markdown_codec.delimiter +:+ yamlData
            +:+ markdown_codec.delimiter +:+ markdown.Content md).
    rewrite ParseMarkdown_framed by done. by rewrite Hu.
  - by intros e' [=].
  - intros c e [= <-] He. by rewrite Hparse in He.
  - intros c m e [= <-] Hp He. rewrite Hparse in Hp. injection Hp as <-.
    by rewrite Hm in He.
  - by intros Hw.
Qed.

Lemma X4_witness :
  ∃ newContent,
    markdown_files.UpdateFrontmatterID (R := GoModel.runtime)
      (λ _, Ok ("# note" +:+ nl +:+ "---" +:+ nl +:+ "title: Draft" +:+ nl
                +:+ "---" +:+ nl +:+ "d"))
      (λ _ _, None) "Draft.md" "A-9"
    = ([FsRead "Draft.md"; FsWrite "Draft.md" newContent], None)
    ∧ markdown_codec.ParseMarkdown (R := GoModel.runtime) newContent
      = Ok {| markdown.Frontmatter_ :=
                {| markdown.ID := "A-9"; markdown.Title := "Draft";
                   markdown.URL := "" |};
              markdown.Content := "d" |}
    ∧ markdown_files.UpdateFrontmatterID (R := GoModel.runtime)
        (λ _, Ok "no frontmatter here") (λ _ _, None) "Draft.md" "A-9"
      = ([FsRead "Draft.md"], Some "no frontmatter found").
Proof.
  set (old := "# note" +:+ nl +:+ "---" +:+ nl +:+ "title: Draft" +:+ nl
              +:+ "---" +:+ nl +:+ "d").
  set (new := "---" +:+ nl +:+ "id: A-9" +:+ nl +:+ "title: Draft" +:+ nl
              +:+ "---" +:+ nl +:+ "d").
  assert (Hrun : markdown_files.UpdateFrontmatterID (R := GoModel.runtime)
                   (λ _, Ok old) (λ _ _, None) "Draft.md" "A-9"
                 = ([FsRead "Draft.md"; FsWrite "Draft.md" new], None)) by by_vm.
  exists new. split; [exact Hrun|]. split; cycle 1.
  { destruct (markdown_files.UpdateFrontmatterID (R := GoModel.runtime)
                (λ _, Ok "no frontmatter here") (λ _ _, None) "Draft.md" "A-9")
      as [ev err] eqn:Hfail.
    assert (Hbad : markdown_codec.ParseMarkdown (R := GoModel.runtime)
                     "no frontmatter here" = Err "no frontmatter found") by by_vm.
    destruct (proj1 (proj2 (proj2 (proj2
                (@UpdateFrontmatterID_rewrites GoModel.runtime _ _ _ _ _ _ Hfail))))
                "no frontmatter here" "no frontmatter found" eq_refl Hbad)
      as [-> ->].
    reflexivity. }
  destruct (proj1 (proj2 (@UpdateFrontmatterID_rewrites GoModel.runtime
                            _ _ _ _ _ _ Hrun)) eq_refl)
    as (content & md & yamlData & Hread & Hparse & Hm & Hev & Hback).
  injection Hread as <-.
  assert (Hmd : markdown_codec.ParseMarkdown (R := GoModel.runtime) old
                = Ok {| markdown.Frontmatter_ :=
                          {| markdown.ID := ""; markdown.Title := "Draft";
                             markdown.URL := "" |};
                        markdown.Content := "d" |}) by by_vm.
  rewrite Hmd in Hparse. injection Hparse as <-.
  cbn [markdown.Title markdown.URL markdown.Content markdown.Frontmatter_] in *.
  assert (Hy : yaml_Marshal (GoRuntime := GoModel.runtime)
                 {| markdown.ID := "A-9"; markdown.Title := "Draft"; markdown.URL := "" |}
               = Ok ("id: A-9" +:+ nl +:+ "title: Draft" +:+ nl)) by by_vm.
  rewrite Hy in Hm. injection Hm as <-.
  apply Hback.
  - by_vm.
  - by_vm.
Defined.

(** ** File names *)

Section sanitize.

Fixpoint bytesOf (s : string) : list ascii :=
  match s with
  | EmptyString => []
  | String c s' => c :: bytesOf s'
  end.

Lemma bytesOf_mapBytes f s : bytesOf (mapBytes f s) = f <$> bytesOf s.
Proof. induction s as [|c s IH]; simpl; [done|]. by rewrite IH. Qed.

Lemma mapBytes_length f s : String.length (mapBytes f s) = String.length s.
Proof. induction s as [|c s IH]; simpl; [done|]. by rewrite IH. Qed.

Lemma sanitizeByte_valid c : sanitizeByte c ∉ filesystem.invalidChars.
Proof.
  unfold sanitizeByte. case_bool_decide as Hc; [|done].
  apply (bool_decide_unpack _). vm_compute. exact I.
Qed.

Lemma sanitizeByte_fixes c : c ∉ filesystem.invalidChars → sanitizeByte c = c.
Proof. intros Hc. unfold sanitizeByte. by rewrite bool_decide_false. Qed.

Lemma mapBytes_fixes f s :
  Forall (λ c, f c = c) (bytesOf s) → mapBytes f s = s.
Proof.
  induction s as [|c s IH]; simpl; [done|].
  intros H. apply Forall_cons in H as [Hc Hs]. by rewrite Hc, IH.
Qed.
End sanitize.

(** X5. [SanitizeFilename] keeps the length of the name; its result holds
    none of the nine bytes of [invalidChars]; a name that holds none of
    them is returned as it is; so sanitizing twice is sanitizing once. *)
Theorem SanitizeFilename_safe (name : string) :
  String.length (filesystem.SanitizeFilename name) = String.length name
  ∧ Forall (λ c, c ∉ filesystem.invalidChars)
           (bytesOf (filesystem.SanitizeFilename name))
  ∧ (Forall (λ c, c ∉ filesystem.invalidChars) (bytesOf name) →
     filesystem.SanitizeFilename name = name)
  ∧ filesystem.SanitizeFilename (filesystem.SanitizeFilename name)
    = filesystem.SanitizeFilename name.
Proof.
  assert (Hvalid : ∀ s, Forall (λ c, c ∉ filesystem.invalidChars)
                          (bytesOf (filesystem.SanitizeFilename s))).
  { intros s. rewrite SanitizeFilename_bytes, bytesOf_mapBytes.
    apply Forall_fmap, Forall_forall. intros c _. apply sanitizeByte_valid. }
  assert (Hfix : ∀ s, Forall (λ c, c ∉ filesystem.invalidChars) (bytesOf s) →
                      filesystem.SanitizeFilename s = s).
  { intros s Hs. rewrite SanitizeFilename_bytes. apply mapBytes_fixes.
    eapply Forall_impl; [exact Hs|]. intros c Hc. by apply sanitizeByte_fixes. }
  split_and!.
  - by rewrite SanitizeFilename_bytes, mapBytes_length.
  - apply Hvalid.
  - apply Hfix.
  - apply Hfix, Hvalid.
Qed.

Lemma X5_witness :
  filesystem.SanitizeFilename "release notes (v2).final"
  = "release notes (v2).final".
Proof.
  apply (proj1 (proj2 (proj2 (SanitizeFilename_safe "release notes (v2).final")))).
  apply (bool_decide_unpack _). vm_compute. exact I.
Defined.

(** ** The listing, as a selection of the response *)

Section listing.

(** The project filter of [ListArticles]. *)
Definition inKnowledgeBase (cfg : api.Config) (ar : api.ArticleResponse) : bool :=
  bool_decide (api.KBKey cfg = "")
  || bool_decide (api.rProjectID ar = api.KBKey cfg)
  || bool_decide (api.rProjectName ar = api.KBKey cfg).

(** The article made of one element of the response. *)
Definition articleOf (baseURL : string) (ar : api.ArticleResponse) : api.Article :=
  {| api.ID := api.rID ar;
     api.Title := api.rSummary ar;
     api.Content := api.rContent ar;
     api.ParentID :=
       match api.rParent ar with
       | Some pid => if bool_decide (pid = "") then None else Some pid
       | None => None
       end;
     api.Order := 0%Z;
     api.URL := baseURL +:+ "/articles/" +:+ api.rID ar |}.

Lemma convert_selects cfg baseURL ar :
  api.convert cfg baseURL ar
  = if inKnowledgeBase cfg ar then Some (articleOf baseURL ar) else None.
Proof.
  unfold api.convert, inKnowledgeBase, articleOf.
  destruct (decide (api.KBKey cfg = "")) as [Hk|Hk].
  { rewrite (bool_decide_false (_ ≠ "")) by tauto.
    rewrite (bool_decide_true (_ = "")) by done. simpl.
    destruct (api.rParent ar) as [pid|]; [|done].
    by destruct (decide (pid = "")); [rewrite bool_decide_false, bool_decide_true by tauto
                                     |rewrite bool_decide_true, bool_decide_false by tauto]. }
  rewrite (bool_decide_true (_ ≠ "")) by done.
  rewrite (bool_decide_false (api.KBKey cfg = "")) by done. simpl.
  destruct (decide (api.rProjectID ar = api.KBKey cfg)) as [Hi|Hi].
  { rewrite (bool_decide_false (_ ≠ _)) by tauto.
    rewrite (bool_decide_true (api.rProjectID ar = _)) by done. simpl.
    destruct (api.rParent ar) as [pid|]; [|done].
    by destruct (decide (pid = "")); [rewrite bool_decide_false, bool_decide_true by tauto
                                     |rewrite bool_decide_true, bool_decide_false by tauto]. }
  rewrite (bool_decide_true (api.rProjectID ar ≠ _)) by done.
  rewrite (bool_decide_false (api.rProjectID ar = _)) by done. simpl.
  destruct (decide (api.rProjectName ar = api.KBKey cfg)) as [Hn|Hn].
  { rewrite (bool_decide_false (_ ≠ _)) by tauto.
    rewrite (bool_decide_true (api.rProjectName ar = _)) by done.
    destruct (api.rParent ar) as [pid|]; [|done].
    by destruct (decide (pid = "")); [rewrite bool_decide_false, bool_decide_true by tauto
                                     |rewrite bool_decide_true, bool_decide_false by tauto]. }
  rewrite (bool_decide_true (api.rProjectName ar ≠ _)) by done.
  by rewrite (bool_decide_false (api.rProjectName ar = _)) by done.
Qed.

Lemma convertAll_selects cfg baseURL ars :
  api.convertAll cfg baseURL ars
  = articleOf baseURL <$> filter (λ ar, inKnowledgeBase cfg ar = true) ars.
Proof.
  induction ars as [|ar ars IH]; [done|].
  simpl. rewrite convert_selects, filter_cons, IH.
  destruct (inKnowledgeBase cfg ar) eqn:Hin.
  - by rewrite decide_True by done.
  - by rewrite decide_False by done.
Qed.

End listing.

(** X6. What a successful [ListArticles] returns is a selection of the
    decoded response, in the order of the response: the elements whose
    project identifier or project name equals the configured key (all of
    them when the key is empty), each turned into an article with the
    summary as title, an empty parent identifier turned into no parent,
    order 0 and the URL made of the base URL, "/articles/" and the
    identifier. So no returned article has an empty parent reference, and
    with an empty key nothing is left out. *)
Theorem ListArticles_selects
    (cfg : api.Config) (http : string → api.Exchange)
    (articles : list api.Article) :
  api.ListArticles cfg http = Ok articles →
  ∃ resp ars,
    http (api.articlesURL (strings.TrimSuffixSlash (api.cfgURL cfg)))
    = api.Answered resp
    ∧ api.Decoded resp = Ok ars
    ∧ articles = articleOf (strings.TrimSuffixSlash (api.cfgURL cfg))
                   <$> filter (λ ar, inKnowledgeBase cfg ar = true) ars
    ∧ length articles ≤ length ars
    ∧ (api.KBKey cfg = "" → length articles = length ars)
    ∧ Forall (λ a, api.ParentID a ≠ Some ""
                   ∧ (cmd.isRoot a = true ↔ api.ParentID a = None)) articles.
Proof.
  intros H. apply ListArticles_Ok in H as (resp & ars & Hhttp & _ & Hdec & ->).
  exists resp, ars. rewrite convertAll_selects.
  split_and!; try done.
  - rewrite length_fmap. apply length_filter.
  - intros Hkey. rewrite length_fmap. f_equal.
    assert (Hall : Forall (λ ar, inKnowledgeBase cfg ar = true) ars).
    { apply Forall_forall. intros ar _. unfold inKnowledgeBase.
      by rewrite bool_decide_true. }
    clear Hdec. induction Hall as [|ar ars Har _ IH]; [done|].
    rewrite filter_cons, decide_True by done. by rewrite IH.
  - apply Forall_fmap, Forall_forall. intros ar _. simpl.
    unfold cmd.isRoot. simpl.
    destruct (api.rParent ar) as [pid|]; [|done].
    case_bool_decide as Hp; [done|]. split; [congruence|].
    split; [|done]. intros Hroot. by apply bool_decide_eq_true in Hroot.
Qed.

Lemma X6_witness :
  ∃ ars,
    Examples.articles
    = articleOf "https://yt.example"
        <$> filter (λ ar, inKnowledgeBase Examples.cfg ar = true) ars
    ∧ length Examples.articles ≤ length ars.
Proof.
  destruct (ListArticles_selects Examples.cfg Examples.http Examples.articles eq_refl)
    as (resp & ars & _ & _ & Hsel & Hlen & _).
  exists ars. split; [exact Hsel | exact Hlen].
Defined.

(** ** Looking for the parent of a file *)

Section parent_lookup.
Context {R : GoRuntime}.
Import filesystem_dirs.

Lemma HasSuffix_spec s suffix :
  HasSuffix s suffix = true ↔ ∃ stem, s = stem +:+ suffix.
Proof.
  unfold HasSuffix. rewrite andb_true_iff, Nat.leb_le, bool_decide_eq_true. split.
  - intros [Hlen Hfrom].
    exists (strings.upto (String.length s - String.length suffix) s).
    pose proof (upto_from s (String.length s - String.length suffix)) as Hcut.
    rewrite Hfrom in Hcut. done.
  - intros [stem ->]. rewrite string_length_app. split; [lia|].
    replace (String.length stem + String.length suffix - String.length suffix)
      with (String.length stem) by lia.
    apply from_all.
Qed.

(** The entries [findMarkdownInDirectory] passes over. *)
Definition notMarkdown (entry : DirEntry) : Prop :=
  IsDir entry = true ∨ HasSuffix (Name entry) ".md" = false.

Lemma firstMarkdown_spec dirPath entries :
  (Forall notMarkdown entries ∧ firstMarkdown dirPath entries = "")
  ∨ ∃ before entry after,
      entries = before ++ entry :: after
      ∧ Forall notMarkdown before
      ∧ IsDir entry = false
      ∧ HasSuffix (Name entry) ".md" = true
      ∧ firstMarkdown dirPath entries = filepath_Join dirPath (Name entry).
Proof.
  induction entries as [|entry rest IH]; [left; by split|].
  simpl. destruct (IsDir entry) eqn:Hdir; simpl.
  - destruct IH as [[Hall Hres]|(before & found & after & -> & Hb & Hd & Hs & Hres)].
    + left. split; [constructor; [by left | done] | done].
    + right. exists (entry :: before), found, after.
      split_and!; try done. constructor; [by left | done].
  - destruct (HasSuffix (Name entry) ".md") eqn:Hmd.
    + right. exists [], entry, rest. split_and!; try done.
    + destruct IH as [[Hall Hres]|(before & found & after & -> & Hb & Hd & Hs & Hres)].
      * left. split; [constructor; [by right | done] | done].
      * right. exists (entry :: before), found, after.
        split_and!; try done. constructor; [by right | done].
Qed.
End parent_lookup.

(** X7. [findMarkdownInDirectory] answers with the first entry of the
    directory, in the order [os.ReadDir] gives them, that is not a
    directory and whose name ends in ".md", joined to the directory path;
    it answers with the empty string when there is no such entry or the
    directory cannot be read. Its caller [GetParentIDFromPath] makes
    nothing of the answer: it returns nil for every path and every map. *)
Theorem findMarkdownInDirectory_first
    {R : GoRuntime}
    (os_ReadDir : string → result (list filesystem_dirs.DirEntry))
    (dirPath : string) :
  match os_ReadDir dirPath with
  | Err _ => filesystem_dirs.findMarkdownInDirectory os_ReadDir dirPath = ""
  | Ok entries =>
      (Forall notMarkdown entries
       ∧ filesystem_dirs.findMarkdownInDirectory os_ReadDir dirPath = "")
      ∨ ∃ before entry after stem,
          entries = before ++ entry :: after
          ∧ Forall notMarkdown before
          ∧ filesystem_dirs.IsDir entry = false
          ∧ filesystem_dirs.Name entry = stem +:+ ".md"
          ∧ filesystem_dirs.findMarkdownInDirectory os_ReadDir dirPath
            = filepath_Join dirPath (filesystem_dirs.Name entry)
  end
  ∧ ∀ filePath articlesByPath,
      filesystem_dirs.GetParentIDFromPath os_ReadDir filePath articlesByPath = None.
Proof.
  split.
  - unfold filesystem_dirs.findMarkdownInDirectory.
    destruct (os_ReadDir dirPath) as [entries|e]; [|done].
    destruct (firstMarkdown_spec dirPath entries)
      as [H|(before & entry & after & Hentries & Hb & Hd & Hs & Hres)]; [by left|].
    right. apply HasSuffix_spec in Hs as [stem Hstem].
    by exists before, entry, after, stem.
  - intros filePath articlesByPath.
    unfold filesystem_dirs.GetParentIDFromPath.
    destruct (_ || _); [done|]. by case_bool_decide.
Qed.

Example findMarkdownInDirectory_skips :
  filesystem_dirs.findMarkdownInDirectory (R := GoModel.runtime)
    (λ _, Ok [ {| filesystem_dirs.Name := "Intro"; filesystem_dirs.IsDir := true |};
               {| filesystem_dirs.Name := "archive.md"; filesystem_dirs.IsDir := true |};
               {| filesystem_dirs.Name := "notes.txt"; filesystem_dirs.IsDir := false |};
               {| filesystem_dirs.Name := "Setup.md"; filesystem_dirs.IsDir := false |};
               {| filesystem_dirs.Name := "Usage.md"; filesystem_dirs.IsDir := false |} ])
    "Intro"
  = "Intro/Setup.md".
Proof. by_vm. Qed.

(** ** The diff command: what it prints and what it touches *)

Section display_facts.
Context {R : GoRuntime} {L : GoRuntimeLaws R}.

Lemma displayNode_unfold node prefix isLast isLastChild :
  cmd_display.displayNode node prefix isLast isLastChild
  = Stdout (prefix +:+ cmd_display.connector isLastChild
            +:+ cmd_display.icon (Status node) +:+ " " +:+ Title node +:+ nl)
    :: cmd_display.displayTree (Children node)
         (if negb isLast then prefix +:+ "│   " else prefix +:+ "    ")
         isLastChild.
Proof.
  destruct node as [id title status children path]. simpl. f_equal.
  induction children as [|child rest IH]; simpl; [done|]. by rewrite IH.
Qed.

(** Line [e] shows [node]: some indentation, a connector, the icon of the
    status, a blank and the title. *)
Definition shows (e : event) (node : ArticleNode) : Prop :=
  ∃ indent isLastChild,
    e = Stdout (indent +:+ cmd_display.connector isLastChild
                +:+ cmd_display.icon (Status node) +:+ " " +:+ Title node +:+ nl).

Lemma nodeList_unfold node :
  nodeList node = node :: forestNodes (Children node).
Proof. by destruct node. Qed.

Lemma forestNodes_step node nodes :
  forestNodes (node :: nodes) = nodeList node ++ forestNodes nodes.
Proof. reflexivity. Qed.

Lemma displayNode_shows node :
  ∀ prefix isLast isLastChild,
    Forall2 shows (cmd_display.displayNode node prefix isLast isLastChild)
                  (nodeList node).
Proof.
  induction node as [id title status children path IH] using ArticleNode_ind_nested.
  intros prefix isLast isLastChild.
  rewrite displayNode_unfold, nodeList_unfold. constructor; [by eexists _, _|].
  simpl. generalize (if negb isLast then prefix +:+ "│   " else prefix +:+ "    ").
  intros prefix'. clear prefix.
  induction IH as [|child rest Hchild _ IHrest]; [constructor|].
  rewrite forestNodes_step. simpl.
  apply Forall2_app; [apply Hchild | apply IHrest].
Qed.

Lemma displayTree_shows nodes prefix isLast :
  Forall2 shows (cmd_display.displayTree nodes prefix isLast) (forestNodes nodes).
Proof.
  induction nodes as [|node rest IH]; [constructor|].
  rewrite forestNodes_step. simpl.
  apply Forall2_app; [apply displayNode_shows | apply IH].
Qed.

Lemma displayTree_roots nodes prefix isLast e :
  cmd_display.displayTree nodes prefix isLast !! 0 = Some e →
  ∃ node rest, nodes = node :: rest
    ∧ e = Stdout (prefix +:+ cmd_display.connector (cmd_display.isLastOf rest)
                  +:+ cmd_display.icon (Status node) +:+ " " +:+ Title node +:+ nl).
Proof.
  destruct nodes as [|node rest]; [done|]. simpl.
  rewrite displayNode_unfold. simpl. intros [= <-]. by exists node, rest.
Qed.

(** The events of a command that only looks. *)
Definition looksOnly (e : event) : bool :=
  match e with
  | Stdout _ | FsWalk _ | FsRead _ | ApiListArticles => true
  | _ => false
  end.

Lemma displayTree_looksOnly nodes prefix isLast :
  Forall (λ e, looksOnly e = true) (cmd_display.displayTree nodes prefix isLast).
Proof.
  pose proof (displayTree_shows nodes prefix isLast) as H.
  induction H as [|e node es ns (indent & last & ->) _ IH]; constructor; done.
Qed.

Lemma reads_looksOnly (localFiles : list string) :
  Forall (λ e, looksOnly e = true) (FsRead <$> localFiles).
Proof.
  apply Forall_forall. intros e He.
  by apply list_elem_of_fmap in He as (path & -> & _).
Qed.

(** The printing command and the forest of [cmd.runDiff]. *)
Lemma runDiff_output fuel cfg w ev :
  cmd_display.runDiff fuel cfg w = Some (ev, None) →
  ∃ localFiles forest,
    FindMarkdownFiles w = Ok localFiles
    ∧ cmd.runDiff fuel cfg w = Some (Ok forest)
    ∧ ev = [Stdout ("Comparing local files with server..." +:+ nl);
            FsWalk "."; ApiListArticles]
           ++ (FsRead <$> localFiles)
           ++ [Stdout (nl +:+ "Article Tree:" +:+ nl)]
           ++ cmd_display.displayTree forest "" true.
Proof.
  unfold cmd_display.runDiff, cmd.runDiff.
  destruct (FindMarkdownFiles w) as [localFiles|e]; [|done].
  destruct (api.ListArticles cfg (http_get w)) as [serverArticles|e]; [|done].
  destruct (cmd.loadLocal w localFiles) as [[lb lp] lq].
  destruct (cmd.checkServerArticles lb lp _) as [[st ti] pa].
  destruct (cmd.buildRootNodes fuel serverArticles st ti pa) as [rootNodes|]; [|done].
  simpl. intros [= <-]. by eexists _, _.
Qed.

Lemma runDiff_looksOnly fuel cfg w ev err :
  cmd_display.runDiff fuel cfg w = Some (ev, err) →
  Forall (λ e, looksOnly e = true) ev.
Proof.
  unfold cmd_display.runDiff.
  destruct (FindMarkdownFiles w) as [localFiles|e];
    [|intros [= <- <-]; repeat constructor].
  destruct (api.ListArticles cfg (http_get w)) as [serverArticles|e];
    [|intros [= <- <-]; repeat constructor].
  destruct (cmd.loadLocal w localFiles) as [[lb lp] lq].
  destruct (cmd.checkServerArticles lb lp _) as [[st ti] pa].
  destruct (cmd.buildRootNodes fuel serverArticles st ti pa) as [rootNodes|]; [|done].
  simpl. intros [= <- <-].
  do 3 (constructor; [done|]).
  apply Forall_app; split; [apply reads_looksOnly|].
  constructor; [done|]. apply displayTree_looksOnly.
Qed.

Lemma runDiff_total fuel cfg w localFiles serverArticles :
  FindMarkdownFiles w = Ok localFiles →
  api.ListArticles cfg (http_get w) = Ok serverArticles →
  NoDup (api.ID <$> serverArticles) →
  (∀ a, a ∈ serverArticles → api.ID a ≠ "") →
  length serverArticles ≤ fuel →
  ∃ ev, cmd_display.runDiff fuel cfg w = Some (ev, None).
Proof.
  intros Hfind Hlist distinct named Hfuel.
  unfold cmd_display.runDiff. rewrite Hfind, Hlist.
  destruct (cmd.loadLocal w localFiles) as [[lb lp] lq].
  destruct (cmd.checkServerArticles lb lp _) as [[st ti] pa].
  rewrite buildRootNodes_callForest.
  destruct (callForest_total serverArticles distinct named fuel Hfuel) as [forest ->].
  simpl. by eexists.
Qed.
End display_facts.

(** X8. [displayTree] prints one line for every node of the forest it is
    given, in the order in which the nodes are met going down each tree
    before passing to the next one; the line of a node ends with the icon
    of its status, a blank and its title. The first line stands at the
    indentation the call was given. *)
Theorem displayTree_lines
    (nodes : list ArticleNode) (prefix : string) (isLast : bool) :
  Forall2 shows (cmd_display.displayTree nodes prefix isLast) (forestNodes nodes)
  ∧ length (cmd_display.displayTree nodes prefix isLast) = length (forestNodes nodes)
  ∧ ∀ e, cmd_display.displayTree nodes prefix isLast !! 0 = Some e →
         ∃ node rest,
           nodes = node :: rest
           ∧ e = Stdout (prefix +:+ cmd_display.connector (cmd_display.isLastOf rest)
                         +:+ cmd_display.icon (Status node) +:+ " "
                         +:+ Title node +:+ nl).
Proof.
  split_and!.
  - apply displayTree_shows.
  - eapply Forall2_length, displayTree_shows.
  - apply displayTree_roots.
Qed.

(** X9. The [diff] command only looks: whatever happens, every event it
    emits is a line on standard output, the walk of the directory, the
    listing of the articles or the read of a local file; nothing is written
    to a file, no article is created or updated, standard input is not
    read. When it returns no error, it has read every local file once and
    printed, after the heading, one line for every node of the forest of
    [cmd.runDiff], in walk order. It returns no error whenever the walk and
    the listing succeed, the identifiers listed are distinct and not empty
    and the recursion is given as many levels as there are articles:
    files that cannot be read or decoded are passed over in silence. *)
Theorem runDiff_looks_only
    {R : GoRuntime} {L : GoRuntimeLaws R}
    (fuel : nat) (cfg : api.Config) (w : World) :
  (∀ ev err, cmd_display.runDiff fuel cfg w = Some (ev, err) →
     Forall (λ e, looksOnly e = true) ev)
  ∧ (∀ ev, cmd_display.runDiff fuel cfg w = Some (ev, None) →
       ∃ localFiles forest lines,
         FindMarkdownFiles w = Ok localFiles
         ∧ cmd.runDiff fuel cfg w = Some (Ok forest)
         ∧ ev = [Stdout ("Comparing local files with server..." +:+ nl);
                 FsWalk "."; ApiListArticles]
                ++ (FsRead <$> localFiles)
                ++ [Stdout (nl +:+ "Article Tree:" +:+ nl)] ++ lines
         ∧ Forall2 shows lines (forestNodes forest))
  ∧ (∀ localFiles serverArticles,
       FindMarkdownFiles w = Ok localFiles →
       api.ListArticles cfg (http_get w) = Ok serverArticles →
       NoDup (api.ID <$> serverArticles) →
       (∀ a, a ∈ serverArticles → api.ID a ≠ "") →
       length serverArticles ≤ fuel →
       ∃ ev, cmd_display.runDiff fuel cfg w = Some (ev, None)).
Proof.
  split_and!.
  - apply runDiff_looksOnly.
  - intros ev Hrun.
    apply runDiff_output in Hrun as (localFiles & forest & Hfind & Hforest & ->).
    exists localFiles, forest, (cmd_display.displayTree forest "" true).
    split_and!; try done. apply displayTree_shows.
  - apply runDiff_total.
Qed.

Lemma X9_witness :
  ∃ ev,
    cmd_display.runDiff (R := GoModel.runtime) 2 Examples.cfg (Examples.world "")
    = Some (ev, None)
    ∧ Forall (λ e, looksOnly e = true) ev.
Proof.
  assert (Hnd : NoDup (api.ID <$> Examples.articles)) by by_evaluation.
  assert (Hnamed : ∀ a, a ∈ Examples.articles → api.ID a ≠ "").
  { intros a Ha. repeat (apply elem_of_cons in Ha as [->|Ha]); try discriminate.
    by apply elem_of_nil in Ha. }
  assert (Hfuel : length Examples.articles ≤ 2) by (simpl; lia).
  pose proof (@runDiff_looks_only GoModel.runtime GoModel_laws 2 Examples.cfg
                (Examples.world "")) as (Hlooks & _ & Htotal).
  destruct (Htotal local_files Examples.articles
              (proj1 (world_lists _)) (proj2 (world_lists _)) Hnd Hnamed Hfuel)
    as [ev Hrun].
  exists ev. split; [exact Hrun|]. exact (Hlooks ev None Hrun).
Defined.

(** The tree of the example: an unchanged root, its modified child, and
    the new file next to the child, hung below it. *)
Example runDiff_prints :
  ∃ ev,
    cmd_display.runDiff (R := GoModel.runtime) 2 Examples.cfg (Examples.world "")
    = Some (ev, None)
    ∧ drop 8 ev
      = [ Stdout ("└──  Intro" +:+ nl);
          Stdout ("    └── ✴️ Setup" +:+ nl);
          Stdout ("        └── ❇️ Draft" +:+ nl) ].
Proof.
  eexists. split.
  - by_vm.
  - by_vm.
Qed.

(** ** The diff forest as a whole *)

Section diff_whole.
Context {R : GoRuntime} {L : GoRuntimeLaws R}.

Lemma forestNodes_Permutation nodes nodes' :
  nodes ≡ₚ nodes' → forestNodes nodes ≡ₚ forestNodes nodes'.
Proof.
  induction 1 as [|n l l' _ IH|n1 n2 l|l1 l2 l3 _ IH1 _ IH2].
  - done.
  - rewrite !forestNodes_step. by apply Permutation_app_head.
  - rewrite !forestNodes_step, !app_assoc.
    apply Permutation_app_tail, Permutation_app_comm.
  - by rewrite IH1.
Qed.

Lemma forestLabels_Permutation nodes nodes' :
  nodes ≡ₚ nodes' → forestLabels nodes ≡ₚ forestLabels nodes'.
Proof. intros H. unfold forestLabels. by rewrite (forestNodes_Permutation _ _ H). Qed.

(** *** The two maps of the identified files go together *)

Definition paired (w : World) (localFiles : list string)
    (acc : gmap string markdown.MarkdownFile * gmap string string) : Prop :=
  ∀ id md, acc.1 !! id = Some md →
    ∃ filePath, acc.2 !! id = Some filePath ∧ filePath ∈ localFiles
                ∧ decodeFile w filePath = Some md ∧ fileID md = id ∧ id ≠ "".

Lemma loadByID_fold_paired w localFiles l acc :
  (∀ filePath, filePath ∈ l → filePath ∈ localFiles) →
  paired w localFiles acc →
  paired w localFiles (fold_left (cmd.loadByIDStep w) l acc).
Proof.
  revert acc. induction l as [|f l IH]; intros acc Hl Hacc; simpl; [done|].
  apply IH; [intros p Hp; apply Hl; by right|].
  rewrite loadByIDStep_decode.
  destruct (decodeFile w f) as [md'|] eqn:Hdec; [|done].
  case_bool_decide as Hid; [|done].
  intros id md. simpl. rewrite !lookup_insert. case_decide as Hk.
  - intros [= <-]. subst id. exists f. split_and!; try done. apply Hl. by left.
  - apply Hacc.
Qed.

Lemma loadByID_paired w localFiles :
  paired w localFiles (cmd.loadByID w localFiles).
Proof.
  apply loadByID_fold_paired; [done|]. intros id md H. simpl in H.
  by rewrite lookup_empty in H.
Qed.

Lemma loadLocal_fold_paths w l acc :
  (fold_left (cmd.loadLocalStep w) l acc).1.2
  = (fold_left (cmd.loadByIDStep w) l acc.1).2.
Proof.
  revert acc. induction l as [|f l IH]; intros acc; simpl; [done|].
  rewrite IH. f_equal. f_equal. apply loadLocalStep_fst.
Qed.

Lemma loadLocal_pair w localFiles :
  (cmd.loadLocal w localFiles).1 = cmd.loadByID w localFiles.
Proof. apply loadLocal_loadByID. Qed.

(** *** The paths [runDiff] gives to the article nodes *)

Lemma statusStep_paths localByID localPaths acc id article :
  (cmd.statusStep localByID localPaths acc (id, article)).2
  = match localByID !! id, localPaths !! id with
    | Some _, Some path => <[id := path]> acc.2
    | _, _ => acc.2
    end.
Proof.
  unfold cmd.statusStep. destruct acc as [[st ti] pa]; simpl.
  destruct (localByID !! id); [|done]. by destruct (localPaths !! id).
Qed.

Lemma paths_fold_lookup localByID localPaths l acc id path :
  (fold_left (cmd.statusStep localByID localPaths) l acc).2 !! id = Some path →
  (is_Some (localByID !! id) ∧ localPaths !! id = Some path)
  ∨ acc.2 !! id = Some path.
Proof.
  revert acc. induction l as [|[k a] l IH]; intros acc H; simpl in *; [by right|].
  apply IH in H as [H|H]; [by left|].
  rewrite statusStep_paths in H.
  destruct (localByID !! k) as [md|] eqn:Hmd; [|by right].
  destruct (localPaths !! k) as [p|] eqn:Hp; [|by right].
  rewrite lookup_insert in H. case_decide as Hk; [|by right].
  injection H as <-. subst k. left. by split.
Qed.

Lemma paths_fold_keep localByID localPaths l acc id path :
  localPaths !! id = Some path → acc.2 !! id = Some path →
  (fold_left (cmd.statusStep localByID localPaths) l acc).2 !! id = Some path.
Proof.
  intros Hp. revert acc. induction l as [|[k a] l IH]; intros acc H; simpl; [done|].
  apply IH. rewrite statusStep_paths.
  destruct (localByID !! k) as [md|]; [|done].
  destruct (localPaths !! k) as [p|] eqn:Hk; [|done].
  rewrite lookup_insert. case_decide as Hid; [|done]. subst k. congruence.
Qed.

Lemma paths_fold_insert localByID localPaths l acc id a md path :
  (id, a) ∈ l → localByID !! id = Some md → localPaths !! id = Some path →
  (fold_left (cmd.statusStep localByID localPaths) l acc).2 !! id = Some path.
Proof.
  intros Hin Hmd Hp. revert acc.
  induction l as [|[k b] l IH]; intros acc; [by apply elem_of_nil in Hin|].
  simpl. apply elem_of_cons in Hin as [[= <- <-]|Hin]; [|by apply IH].
  apply paths_fold_keep; [done|].
  rewrite statusStep_paths, Hmd, Hp. by rewrite lookup_insert_eq.
Qed.

Lemma checkServerArticles_paths localByID localPaths serverByID id a :
  serverByID !! id = Some a →
  (cmd.checkServerArticles localByID localPaths serverByID).2 !! id
  = match localByID !! id with
    | Some _ => localPaths !! id
    | None => None
    end.
Proof.
  intros Ha. unfold cmd.checkServerArticles.
  destruct (localByID !! id) as [md|] eqn:Hmd.
  - destruct (localPaths !! id) as [p|] eqn:Hp.
    + eapply paths_fold_insert; [by apply range_map_elem | done | done].
    + match goal with |- ?x = _ => destruct x as [q|] eqn:Hq; [|done] end.
      apply paths_fold_lookup in Hq as [[_ Hq]|Hq]; [congruence|].
      simpl in Hq. by rewrite lookup_empty in Hq.
  - match goal with |- ?x = _ => destruct x as [q|] eqn:Hq; [|done] end.
    apply paths_fold_lookup in Hq as [[[? Hq] _]|Hq]; [congruence|].
    simpl in Hq. by rewrite lookup_empty in Hq.
Qed.

(** *** What [runDiff] is made of *)

Lemma runDiff_parts fuel cfg w forest :
  cmd.runDiff fuel cfg w = Some (Ok forest) →
  ∃ localFiles serverArticles built,
    FindMarkdownFiles w = Ok localFiles
    ∧ api.ListArticles cfg (http_get w) = Ok serverArticles
    ∧ cmd.buildRootNodes fuel serverArticles
        (cmd.checkServerArticles (cmd.loadLocal w localFiles).1.1
           (cmd.loadLocal w localFiles).1.2 (cmd.indexByID serverArticles)).1.1
        (cmd.checkServerArticles (cmd.loadLocal w localFiles).1.1
           (cmd.loadLocal w localFiles).1.2 (cmd.indexByID serverArticles)).1.2
        (cmd.checkServerArticles (cmd.loadLocal w localFiles).1.1
           (cmd.loadLocal w localFiles).1.2 (cmd.indexByID serverArticles)).2
      = Some built
    ∧ forest = sort_Slice cmd.lessTitle
                 (cmd.addNewLocals built (cmd.loadLocal w localFiles).2).
Proof.
  unfold cmd.runDiff.
  destruct (FindMarkdownFiles w) as [localFiles|e] eqn:Hfind; [|done].
  destruct (api.ListArticles cfg (http_get w)) as [serverArticles|e] eqn:Hlist; [|done].
  intros Hrun. exists localFiles, serverArticles.
  destruct (cmd.loadLocal w localFiles) as [[lb lp] lq]. simpl.
  destruct (cmd.checkServerArticles lb lp _) as [[st ti] pa]. simpl.
  destruct (cmd.buildRootNodes fuel serverArticles st ti pa) as [built|] eqn:Hb; [|done].
  simpl in Hrun. injection Hrun as <-. by exists built.
Qed.

Lemma runDiff_labels fuel cfg w forest localFiles serverArticles :
  cmd.runDiff fuel cfg w = Some (Ok forest) →
  FindMarkdownFiles w = Ok localFiles →
  api.ListArticles cfg (http_get w) = Ok serverArticles →
  ∃ calls,
    callForest fuel serverArticles = Some calls
    ∧ forestLabels forest
      ≡ₚ ((λ a, (api.ID a, api.Title a,
                 diffStatus w localFiles serverArticles (api.ID a),
                 default "" ((cmd.checkServerArticles
                                (cmd.loadLocal w localFiles).1.1
                                (cmd.loadLocal w localFiles).1.2
                                (cmd.indexByID serverArticles)).2 !! api.ID a)))
            <$> articlesOf calls)
         ++ (newLabel <$> map_to_list (cmd.loadLocal w localFiles).2).
Proof.
  intros Hrun Hfind Hlist.
  apply runDiff_parts in Hrun as (files & arts & built & Hf & Hl & Hbuilt & ->).
  rewrite Hfind in Hf. injection Hf as <-.
  rewrite Hlist in Hl. injection Hl as <-.
  rewrite buildRootNodes_callForest in Hbuilt.
  destruct (callForest fuel serverArticles) as [calls|]; [|done].
  simpl in Hbuilt. injection Hbuilt as <-.
  exists calls. split; [done|].
  rewrite (forestLabels_Permutation _ _ (sort_Slice_perm _ _ _)).
  rewrite addNewLocals_labels. apply Permutation_app_tail.
  unfold forestLabels. rewrite forestNodes_nodeOf. unfold articlesOf.
  rewrite <- !list_fmap_compose.
  match goal with |- ?l ≡ₚ ?r => assert (l = r) as ->; [|done] end.
  apply list_fmap_ext. intros i t _. by destruct t.
Qed.
End diff_whole.

Section diff_nodes.
Context {R : GoRuntime} {L : GoRuntimeLaws R}.

(** What a node of the diff forest stands for, read off what it shows. *)
Definition standsFor (w : World) (localFiles : list string)
    (serverArticles : list api.Article)
    (label : string * string * ArticleStatus * string) : Prop :=
  let '(id, title, status, path) := label in
  match status with
  | StatusNewLocal =>
      id = "" ∧ path ∈ localFiles
      ∧ ∃ md, decodeFile w path = Some md ∧ fileID md = ""
              ∧ title = markdown.Title (markdown.Frontmatter_ md)
  | StatusDeleted =>
      path = ""
      ∧ (∃ a, a ∈ serverArticles ∧ api.ID a = id ∧ api.Title a = title)
      ∧ ∀ filePath md, filePath ∈ localFiles → decodeFile w filePath = Some md →
                       fileID md ≠ "" → fileID md ≠ id
  | _ =>
      id ≠ ""
      ∧ ∃ a md,
          a ∈ serverArticles ∧ api.ID a = id ∧ api.Title a = title
          ∧ path ∈ localFiles ∧ decodeFile w path = Some md ∧ fileID md = id
          ∧ (status = StatusUnchanged ↔
             strings_TrimSpace (markdown.Content md)
             = strings_TrimSpace (api.Content a))
  end.

Lemma article_label_standsFor w localFiles serverArticles a :
  NoDup (api.ID <$> serverArticles) → a ∈ serverArticles →
  standsFor w localFiles serverArticles
    (api.ID a, api.Title a, diffStatus w localFiles serverArticles (api.ID a),
     default "" ((cmd.checkServerArticles
                    (cmd.loadLocal w localFiles).1.1
                    (cmd.loadLocal w localFiles).1.2
                    (cmd.indexByID serverArticles)).2 !! api.ID a)).
Proof.
  intros Hnd Ha.
  pose proof (indexByID_NoDup _ _ Hnd Ha) as Hidx.
  assert (Hst : diffStatus w localFiles serverArticles (api.ID a)
                = classify (cmd.loadLocal w localFiles).1.1 (api.ID a) a).
  { unfold diffStatus. cbv zeta.
    by rewrite (checkServerArticles_lookup _ _ _ _ _ Hidx). }
  rewrite Hst, (checkServerArticles_paths _ _ _ _ _ Hidx).
  unfold classify. rewrite loadLocal_loadByID.
  destruct ((cmd.loadByID w localFiles).1 !! api.ID a) as [md|] eqn:Hmd.
  - destruct (loadByID_paired w localFiles _ _ Hmd)
      as (p & Hp & Hin & Hdec & Hfid & Hne).
    rewrite Hp. simpl.
    case_bool_decide as Hdiff; simpl.
    + split; [done|]. exists a, md. split_and!; try done.
    + split; [done|]. exists a, md. split_and!; try done.
  - simpl. split; [done|]. split; [by exists a|].
    intros p md Hin Hdec Hne Hid.
    destruct (loadByID_is_Some w localFiles (api.ID a) p md) as [md' Hmd']; try done.
    + by rewrite <- Hid.
    + congruence.
Qed.

Lemma new_label_standsFor w localFiles serverArticles entry :
  entry ∈ map_to_list (cmd.loadLocal w localFiles).2 →
  standsFor w localFiles serverArticles (newLabel entry).
Proof.
  destruct entry as [path md]. intros Hin.
  apply elem_of_map_to_list, localByPath_spec in Hin as (Hin & Hdec & Hid).
  simpl. split; [done|]. split; [done|]. by exists md.
Qed.

(** Every node of the forest of [runDiff] stands for an article or for a
    file without identifier. *)
Lemma runDiff_standsFor fuel cfg w forest localFiles serverArticles :
  cmd.runDiff fuel cfg w = Some (Ok forest) →
  FindMarkdownFiles w = Ok localFiles →
  api.ListArticles cfg (http_get w) = Ok serverArticles →
  NoDup (api.ID <$> serverArticles) →
  ∀ node, node ∈ forestNodes forest →
          standsFor w localFiles serverArticles (labelOf node).
Proof.
  intros Hrun Hfind Hlist Hnd node Hnode.
  destruct (runDiff_labels _ _ _ _ _ _ Hrun Hfind Hlist) as (calls & Hcalls & Hperm).
  assert (Hlabel : labelOf node ∈ forestLabels forest)
    by (by apply list_elem_of_fmap_2).
  rewrite Hperm in Hlabel. apply elem_of_app in Hlabel as [Hlabel|Hlabel].
  - apply list_elem_of_fmap in Hlabel as (a & -> & Ha).
    apply (forest_elem _ Hnd _ _ _ Hcalls) in Ha as [n Hlevel].
    apply article_label_standsFor; [done|]. by eapply level_in.
  - apply list_elem_of_fmap in Hlabel as (entry & -> & Hentry).
    by apply new_label_standsFor.
Qed.
End diff_nodes.

(** X10. The forest of [diff] shows exactly this, in some order: for every
    listed article whose chain of parent references ends at a root, one
    node with its identifier, its title, the status the reconciler gives it
    and a path, which is empty when the article is shown deleted and is
    otherwise the path of a local file that decodes to its identifier; and
    for every decoded local file without identifier, one node marked new
    with the title and the path of the file. Inserting the new nodes and
    sorting the roots by title neither loses nor repeats a node. (The
    listed identifiers are taken distinct and not empty.) *)
Theorem runDiff_forest_nodes
    {R : GoRuntime} {L : GoRuntimeLaws R}
    (fuel : nat) (cfg : api.Config) (w : World) (forest : list ArticleNode)
    (localFiles : list string) (serverArticles : list api.Article) :
  cmd.runDiff fuel cfg w = Some (Ok forest) →
  FindMarkdownFiles w = Ok localFiles →
  api.ListArticles cfg (http_get w) = Ok serverArticles →
  NoDup (api.ID <$> serverArticles) →
  (∀ a, a ∈ serverArticles → api.ID a ≠ "") →
  ∃ reached newFiles (pathOf : string → string),
    (λ node, (ID node, Title node, Status node, Path node)) <$> forestNodes forest
    ≡ₚ ((λ a, (api.ID a, api.Title a,
               diffStatus w localFiles serverArticles (api.ID a),
               pathOf (api.ID a))) <$> reached)
       ++ ((λ entry : string * markdown.MarkdownFile,
              ("", markdown.Title (markdown.Frontmatter_ entry.2), StatusNewLocal,
               entry.1))
             <$> newFiles)
    ∧ NoDup reached
    ∧ (∀ a, a ∈ reached ↔ ∃ n, level serverArticles a n)
    ∧ (∀ a, a ∈ reached →
            match diffStatus w localFiles serverArticles (api.ID a) with
            | StatusDeleted => pathOf (api.ID a) = ""
            | _ =>
                pathOf (api.ID a) ∈ localFiles
                ∧ ∃ md, decodeFile w (pathOf (api.ID a)) = Some md
                        ∧ fileID md = api.ID a
            end)
    ∧ NoDup newFiles.*1
    ∧ (∀ filePath md,
         (filePath, md) ∈ newFiles ↔
         filePath ∈ localFiles ∧ decodeFile w filePath = Some md ∧ fileID md = "").
Proof.
  intros Hrun Hfind Hlist Hnd Hnamed.
  destruct (runDiff_labels _ _ _ _ _ _ Hrun Hfind Hlist) as (calls & Hcalls & Hperm).
  exists (articlesOf calls), (map_to_list (cmd.loadLocal w localFiles).2),
    (λ id, default "" ((cmd.checkServerArticles
                          (cmd.loadLocal w localFiles).1.1
                          (cmd.loadLocal w localFiles).1.2
                          (cmd.indexByID serverArticles)).2 !! id)).
  split_and!.
  - exact Hperm.
  - exact (forest_NoDup _ Hnd Hnamed _ _ Hcalls).
  - intros a. exact (forest_elem _ Hnd _ _ a Hcalls).
  - intros a Ha.
    apply (forest_elem _ Hnd _ _ a Hcalls) in Ha as [n Hlevel].
    pose proof (article_label_standsFor w localFiles serverArticles a Hnd
                  (level_in _ _ _ Hlevel)) as Hstands.
    unfold standsFor in Hstands.
    destruct (diffStatus w localFiles serverArticles (api.ID a)).
    + destruct Hstands as (_ & b & md & _ & _ & _ & Hin & Hdec & Hid & _).
      split; [done | by exists md].
    + destruct Hstands as (_ & b & md & _ & _ & _ & Hin & Hdec & Hid & _).
      split; [done | by exists md].
    + destruct Hstands as (Hid & Hin & md & Hdec & Hfid & _).
      split; [done|]. exists md. split; [done|]. by rewrite Hid, Hfid.
    + by destruct Hstands as [Hpath _].
  - apply NoDup_fst_map_to_list.
  - intros filePath md. rewrite elem_of_map_to_list. apply localByPath_spec.
Qed.

(** X11. Every node of the forest of [diff] points to what it stands for. A
    node shown unchanged or modified carries the identifier and title of a
    listed article and the path of a local file that decodes to that
    identifier, and it is unchanged exactly when the trimmed content of
    that very file equals the trimmed remote content. A node shown deleted
    carries the identifier and title of a listed article, has no path, and
    no decoded local file carries its identifier. A node shown new has no
    identifier and carries the path and title of a decoded local file
    without identifier. *)
Theorem runDiff_nodes_point_to_files
    {R : GoRuntime} {L : GoRuntimeLaws R}
    (fuel : nat) (cfg : api.Config) (w : World) (forest : list ArticleNode)
    (localFiles : list string) (serverArticles : list api.Article) :
  cmd.runDiff fuel cfg w = Some (Ok forest) →
  FindMarkdownFiles w = Ok localFiles →
  api.ListArticles cfg (http_get w) = Ok serverArticles →
  NoDup (api.ID <$> serverArticles) →
  ∀ node, node ∈ forestNodes forest →
          standsFor w localFiles serverArticles
            (ID node, Title node, Status node, Path node).
Proof. apply runDiff_standsFor. Qed.

(** X12. A local file that decodes to an identifier which no listed
    article has is shown nowhere by [diff]: no node of the forest carries
    its path. (The bulk push lists the same file as new.) *)
Theorem runDiff_hides_unknown_identifier
    {R : GoRuntime} {L : GoRuntimeLaws R}
    (fuel : nat) (cfg : api.Config) (w : World) (forest : list ArticleNode)
    (localFiles : list string) (serverArticles : list api.Article)
    (filePath : string) (md : markdown.MarkdownFile) :
  cmd.runDiff fuel cfg w = Some (Ok forest) →
  FindMarkdownFiles w = Ok localFiles →
  api.ListArticles cfg (http_get w) = Ok serverArticles →
  NoDup (api.ID <$> serverArticles) →
  filePath ≠ "" →
  decodeFile w filePath = Some md →
  fileID md ≠ "" →
  fileID md ∉ api.ID <$> serverArticles →
  (∀ node, node ∈ forestNodes forest → Path node ≠ filePath)
  ∧ (filePath ∈ localFiles →
     filePath ∈ cmd.collectNewPages w localFiles (cmd.indexByID serverArticles)).
Proof.
  intros Hrun Hfind Hlist Hnd Hpath Hdec Hid Hunknown. split.
  - intros node Hnode Heq.
    pose proof (runDiff_standsFor _ _ _ _ _ _ Hrun Hfind Hlist Hnd node Hnode) as H.
    unfold labelOf, standsFor in H. rewrite Heq in H.
    destruct (Status node).
    + destruct H as (_ & a & md' & Ha & Haid & _ & _ & Hdec' & Hfid & _).
      rewrite Hdec in Hdec'. injection Hdec' as <-.
      apply Hunknown. rewrite Hfid, <- Haid. by apply list_elem_of_fmap_2.
    + destruct H as (_ & a & md' & Ha & Haid & _ & _ & Hdec' & Hfid & _).
      rewrite Hdec in Hdec'. injection Hdec' as <-.
      apply Hunknown. rewrite Hfid, <- Haid. by apply list_elem_of_fmap_2.
    + destruct H as (_ & _ & md' & Hdec' & Hfid & _).
      rewrite Hdec in Hdec'. injection Hdec' as <-. done.
    + by destruct H as [-> _].
  - intros Hin. eapply new_file_listed; [done | done | by right].
Qed.

(** ** Push: what the claims leave open *)

Section push_more.
Context {R : GoRuntime} {L : GoRuntimeLaws R}.

Ltac not_listed :=
  let Hin := fresh "Hin" in
  simpl; intros Hin;
  repeat (apply elem_of_cons in Hin as [Hin|Hin]; [discriminate|]);
  by apply elem_of_nil in Hin.

Lemma pushSinglePage_apiCalls w filePath ev err :
  cmd.pushSinglePage w filePath = (ev, err) →
  (apiCalls ev = [] ∨ ∃ id title content, apiCalls ev = [ApiUpdateArticle id title content])
  ∧ fileWrites ev = []
  ∧ StdinReadLine ∉ ev.
Proof.
  unfold cmd.pushSinglePage.
  destruct (ReadMarkdownFile w filePath) as [content|e].
  2:{ intros [= <- <-]. split_and!; [by left | done | not_listed]. }
  destruct (markdown_codec.ParseMarkdown content) as [md|e].
  2:{ intros [= <- <-]. split_and!; [by left | done | not_listed]. }
  case_bool_decide.
  { intros [= <- <-]. split_and!; [by left | done | not_listed]. }
  destruct (UpdateArticle w _ _ _) as [a|e]; intros [= <- <-].
  - split_and!; [right; by eexists _, _, _ | done | not_listed].
  - split_and!; [right; by eexists _, _, _ | done | not_listed].
Qed.

Lemma pushSinglePage_success w filePath ev :
  cmd.pushSinglePage w filePath = (ev, None) ↔
  ∃ content md a,
    ReadMarkdownFile w filePath = Ok content
    ∧ markdown_codec.ParseMarkdown content = Ok md
    ∧ fileID md ≠ ""
    ∧ UpdateArticle w (fileID md) (markdown.Title (markdown.Frontmatter_ md))
        (markdown.Content md) = Ok a
    ∧ ev = [ Stdout ("Pushing " +:+ filePath +:+ "..." +:+ nl); FsRead filePath;
             ApiUpdateArticle (fileID md) (markdown.Title (markdown.Frontmatter_ md))
               (markdown.Content md);
             Stdout ("Updated: " +:+ markdown.Title (markdown.Frontmatter_ md) +:+ nl) ].
Proof.
  unfold cmd.pushSinglePage, fileID. split.
  - destruct (ReadMarkdownFile w filePath) as [content|e] eqn:Hread; [|done].
    destruct (markdown_codec.ParseMarkdown content) as [md|e] eqn:Hparse; [|done].
    case_bool_decide as Hid; [done|].
    destruct (UpdateArticle w _ _ _) as [a|e] eqn:Hup; [|done].
    intros [= <-]. by exists content, md, a.
  - intros (content & md & a & -> & -> & Hid & -> & ->).
    by rewrite bool_decide_false.
Qed.

(** *** The plan of the bulk push *)

Lemma pageOf_id localPaths serverByID entry p :
  pageOf localPaths serverByID entry = Some p → cmd.page_id p = entry.1.
Proof.
  unfold pageOf. destruct (serverByID !! entry.1); [|done].
  case_bool_decide; [|done]. by intros [= <-].
Qed.

Lemma omap_pages_NoDup localPaths serverByID (l : list (string * markdown.MarkdownFile)) :
  NoDup l.*1 →
  NoDup (cmd.page_id <$> omap (pageOf localPaths serverByID) l).
Proof.
  induction l as [|entry l IH]; simpl; [constructor|].
  intros Hnd. apply NoDup_cons in Hnd as [Hfresh Hnd].
  destruct (pageOf localPaths serverByID entry) as [p|] eqn:Hp; [|by apply IH].
  rewrite fmap_cons. apply NoDup_cons. split; [|by apply IH].
  intros Hin. apply Hfresh.
  apply list_elem_of_fmap in Hin as (q & Hq & Hin).
  apply list_elem_of_omap in Hin as (entry' & Hin & Hq').
  apply pageOf_id in Hq'. apply pageOf_id in Hp.
  apply list_elem_of_fmap. exists entry'. split; [congruence | done].
Qed.

Lemma collectPages_NoDup localByID localPaths serverByID :
  NoDup (cmd.page_id <$> cmd.collectPages localByID localPaths serverByID).
Proof.
  rewrite collectPages_omap. apply omap_pages_NoDup, range_map_NoDup_keys.
Qed.

Lemma collectPages_filePath localByID localPaths serverByID p :
  p ∈ cmd.collectPages localByID localPaths serverByID →
  cmd.page_filePath p = default "" (localPaths !! cmd.page_id p).
Proof.
  rewrite collectPages_omap. intros Hp.
  apply list_elem_of_omap in Hp as ([id md] & _ & Hpage).
  unfold pageOf in Hpage. simpl in Hpage.
  destruct (serverByID !! id); [|done]. case_bool_decide; [|done].
  by injection Hpage as <-.
Qed.

Lemma planned_iff_modified w localFiles serverArticles id :
  NoDup (api.ID <$> serverArticles) →
  id ∈ api.ID <$> serverArticles →
  diffStatus w localFiles serverArticles id = StatusModified ↔
  id ∈ cmd.page_id <$> cmd.collectPages (cmd.loadByID w localFiles).1
                         (cmd.loadByID w localFiles).2
                         (cmd.indexByID serverArticles).
Proof.
  intros Hnd Hid. apply list_elem_of_fmap in Hid as (a & -> & Ha).
  pose proof (indexByID_NoDup _ _ Hnd Ha) as Hidx.
  assert (Hst : diffStatus w localFiles serverArticles (api.ID a)
                = classify (cmd.loadByID w localFiles).1 (api.ID a) a).
  { unfold diffStatus. cbv zeta.
    rewrite (checkServerArticles_lookup _ _ _ _ _ Hidx).
    by rewrite loadLocal_loadByID. }
  rewrite Hst. unfold classify. split.
  - destruct ((cmd.loadByID w localFiles).1 !! api.ID a) as [md|] eqn:Hmd; [|done].
    case_bool_decide as Hdiff; [|done]. intros _.
    destruct (collectPages_complete _ (cmd.loadByID w localFiles).2 _ _ _ _
                Hmd Hidx Hdiff) as (p & Hp & Hpid).
    apply list_elem_of_fmap. by exists p.
  - intros Hin. apply list_elem_of_fmap in Hin as (p & Hpid & Hp).
    apply collectPages_elem in Hp as (md & a' & Hmd & Ha' & Hdiff & _).
    rewrite <- Hpid in Hmd, Ha'. rewrite Hidx in Ha'. injection Ha' as <-.
    rewrite Hmd. by rewrite bool_decide_true.
Qed.
End push_more.

(** X13. A single-file push returns no error in one case only: the file
    was read and decoded, its frontmatter carries an identifier, and the
    one update sent for that identifier, with the title and content of the
    file, succeeded; the command then prints "Updated" with the title.
    Whatever happens, it makes at most one remote call, which is an update,
    it writes to no local file and it asks nothing on standard input. *)
Theorem pushSinglePage_outcomes
    {R : GoRuntime} (w : World) (filePath : string) (ev : list event)
    (err : option error) :
  cmd.pushSinglePage w filePath = (ev, err) →
  (err = None ↔
   ∃ content md a,
     ReadMarkdownFile w filePath = Ok content
     ∧ markdown_codec.ParseMarkdown content = Ok md
     ∧ fileID md ≠ ""
     ∧ UpdateArticle w (fileID md) (markdown.Title (markdown.Frontmatter_ md))
         (markdown.Content md) = Ok a
     ∧ ev = [ Stdout ("Pushing " +:+ filePath +:+ "..." +:+ nl); FsRead filePath;
              ApiUpdateArticle (fileID md) (markdown.Title (markdown.Frontmatter_ md))
                (markdown.Content md);
              Stdout ("Updated: " +:+ markdown.Title (markdown.Frontmatter_ md) +:+ nl) ])
  ∧ (apiCalls ev = []
     ∨ ∃ id title content, apiCalls ev = [ApiUpdateArticle id title content])
  ∧ fileWrites ev = []
  ∧ StdinReadLine ∉ ev.
Proof.
  intros Hrun. split; [|by eapply pushSinglePage_apiCalls].
  split.
  - intros ->. by apply pushSinglePage_success.
  - intros Hok. apply pushSinglePage_success in Hok. congruence.
Qed.

Lemma X13_witness :
  ∃ content md a,
    ReadMarkdownFile (Examples.world "") "Intro/Setup.md" = Ok content
    ∧ markdown_codec.ParseMarkdown (R := GoModel.runtime) content = Ok md
    ∧ fileID md ≠ ""
    ∧ UpdateArticle (Examples.world "") (fileID md)
        (markdown.Title (markdown.Frontmatter_ md)) (markdown.Content md) = Ok a
    ∧ [ Stdout ("Pushing Intro/Setup.md..." +:+ nl); FsRead "Intro/Setup.md";
        ApiUpdateArticle "A-2" "Setup" "z"; Stdout ("Updated: Setup" +:+ nl) ]
      = [ Stdout ("Pushing " +:+ "Intro/Setup.md" +:+ "..." +:+ nl);
          FsRead "Intro/Setup.md";
          ApiUpdateArticle (fileID md) (markdown.Title (markdown.Frontmatter_ md))
            (markdown.Content md);
          Stdout ("Updated: " +:+ markdown.Title (markdown.Frontmatter_ md) +:+ nl) ].
Proof.
  assert (Hrun : cmd.pushSinglePage (R := GoModel.runtime) (Examples.world "")
                   "Intro/Setup.md"
                 = ([ Stdout ("Pushing Intro/Setup.md..." +:+ nl);
                      FsRead "Intro/Setup.md";
                      ApiUpdateArticle "A-2" "Setup" "z";
                      Stdout ("Updated: Setup" +:+ nl) ], None)) by by_vm.
  exact (proj1 (proj1 (@pushSinglePage_outcomes GoModel.runtime _ _ _ _ Hrun)) eq_refl).
Defined.

(** X14. The plan of a bulk push names an identifier once at most, and it
    names exactly the identifiers that a decoded local file carries, that a
    listed article has, and for which the trimmed content of the file last
    indexed under the identifier differs from the trimmed remote content.
    The line of the plan shows the title and the path of that very file. *)
Theorem push_plan_exact
    {R : GoRuntime} {L : GoRuntimeLaws R}
    (w : World) (localFiles : list string) (serverArticles : list api.Article) :
  let localByID := (cmd.loadByID w localFiles).1 in
  let localPaths := (cmd.loadByID w localFiles).2 in
  let serverByID := cmd.indexByID serverArticles in
  let pagesToPush := cmd.collectPages localByID localPaths serverByID in
  NoDup (cmd.page_id <$> pagesToPush)
  ∧ (∀ id, id ∈ cmd.page_id <$> pagesToPush ↔
       ∃ md a, localByID !! id = Some md ∧ serverByID !! id = Some a
               ∧ strings_TrimSpace (markdown.Content md)
                 ≠ strings_TrimSpace (api.Content a))
  ∧ (∀ p, p ∈ pagesToPush →
       ∃ md, localByID !! cmd.page_id p = Some md
             ∧ cmd.page_filePath p ∈ localFiles
             ∧ decodeFile w (cmd.page_filePath p) = Some md
             ∧ fileID md = cmd.page_id p
             ∧ cmd.page_title p = markdown.Title (markdown.Frontmatter_ md)).
Proof.
  intros localByID localPaths serverByID pagesToPush. split_and!.
  - apply collectPages_NoDup.
  - intros id. split.
    + intros Hin. apply list_elem_of_fmap in Hin as (p & -> & Hp).
      apply collectPages_elem in Hp as (md & a & Hmd & Ha & Hdiff & _).
      by exists md, a.
    + intros (md & a & Hmd & Ha & Hdiff).
      destruct (collectPages_complete localByID localPaths serverByID id md a
                  Hmd Ha Hdiff) as (p & Hp & <-).
      by apply list_elem_of_fmap_2.
  - intros p Hp. pose proof (collectPages_filePath _ _ _ _ Hp) as Hpath.
    apply collectPages_elem in Hp as (md & a & Hmd & _ & _ & Htitle).
    destruct (loadByID_paired w localFiles _ _ Hmd)
      as (path & Hlp & Hin & Hdec & Hfid & _).
    fold localPaths in Hlp. rewrite Hlp in Hpath. simpl in Hpath.
    exists md. rewrite Hpath. done.
Qed.

(** X15. [diff] and the bulk push agree on what was modified: for listed
    articles with distinct identifiers, [diff] marks an article modified
    exactly when the bulk push, run on the same files and listing, plans an
    update for its identifier. *)
Theorem diff_modified_is_planned
    {R : GoRuntime} {L : GoRuntimeLaws R}
    (w : World) (localFiles : list string) (serverArticles : list api.Article)
    (id : string) :
  NoDup (api.ID <$> serverArticles) →
  id ∈ api.ID <$> serverArticles →
  diffStatus w localFiles serverArticles id = StatusModified ↔
  id ∈ cmd.page_id <$> cmd.collectPages (cmd.loadByID w localFiles).1
                         (cmd.loadByID w localFiles).2
                         (cmd.indexByID serverArticles).
Proof. apply planned_iff_modified. Qed.

(** ** Two new files in one directory *)

Section new_siblings.
Context {R : GoRuntime}.

Lemma findNodesFrom_app nodes1 nodes2 i targetPath :
  cmd.findNodesFrom (nodes1 ++ nodes2) i targetPath
  = match cmd.findNodesFrom nodes1 i targetPath with
    | Some addr => Some addr
    | None => cmd.findNodesFrom nodes2 (i + length nodes1) targetPath
    end.
Proof.
  revert i. induction nodes1 as [|node rest IH]; intros i; simpl.
  { by rewrite Nat.add_0_r. }
  destruct (cmd.findInNode node targetPath); [done|].
  rewrite IH. by replace (S i + length rest) with (i + S (length rest)) by lia.
Qed.

Lemma findNodesFrom_None_shift nodes i j targetPath :
  cmd.findNodesFrom nodes i targetPath = None →
  cmd.findNodesFrom nodes j targetPath = None.
Proof.
  revert i j. induction nodes as [|node rest IH]; intros i j; simpl; [done|].
  destruct (cmd.findInNode node targetPath); [done|]. apply IH.
Qed.

Lemma findNodeByPath_new rootNodes path md :
  path ≠ "" →
  cmd.findNodeByPath rootNodes (filepath_Dir path) = None →
  cmd.findNodeByPath (rootNodes ++ [cmd.newLocalNode path md]) (filepath_Dir path)
  = Some [length rootNodes].
Proof.
  intros Hpath Hnone. unfold cmd.findNodeByPath in *.
  assert (Hm : cmd.matchesDir (cmd.newLocalNode path md) (filepath_Dir path) = true).
  { unfold cmd.matchesDir. simpl. by rewrite !bool_decide_true. }
  assert (Hfound : cmd.findInNode (cmd.newLocalNode path md) (filepath_Dir path)
                   = Some []) by (by rewrite findInNode_unfold, Hm).
  rewrite findNodesFrom_app, Hnone. cbn [cmd.findNodesFrom]. by rewrite Hfound.
Qed.

Lemma appendChild_last rootNodes node new :
  cmd.appendChild (rootNodes ++ [node]) [length rootNodes] new
  = rootNodes ++ [cmd.withChildren node (Children node ++ [new])].
Proof.
  simpl. rewrite lookup_app_r by lia. rewrite Nat.sub_diag. simpl.
  rewrite insert_app_r_alt by lia. by rewrite Nat.sub_diag.
Qed.
End new_siblings.

(** X16. Two files without identifier that lie in the same directory, in
    which no file of a node already in the forest lies, do not end up side
    by side: the one the insertion loop meets first becomes a root, and the
    other becomes its child, since the search takes a node whose own file
    lies in the wanted directory. Which of the two is met first is the
    order in which the map of such files is ranged over. *)
Theorem new_files_in_one_directory
    {R : GoRuntime} (rootNodes : list ArticleNode)
    (path1 path2 : string) (md1 md2 : markdown.MarkdownFile) :
  filepath_Dir path2 = filepath_Dir path1 →
  filepath_Dir path1 ≠ "." →
  path1 ≠ "" →
  cmd.findNodeByPath rootNodes (filepath_Dir path1) = None →
  cmd.addNewLocal (cmd.addNewLocal rootNodes (path1, md1)) (path2, md2)
  = rootNodes
    ++ [ {| ID := ""; Title := markdown.Title (markdown.Frontmatter_ md1);
            Status := StatusNewLocal; Path := path1;
            Children :=
              [ {| ID := ""; Title := markdown.Title (markdown.Frontmatter_ md2);
                   Status := StatusNewLocal; Path := path2; Children := [] |} ] |} ].
Proof.
  intros Hdir Hroot Hpath Hnone.
  unfold cmd.addNewLocal at 2. rewrite bool_decide_false by done. rewrite Hnone.
  unfold cmd.addNewLocal. rewrite Hdir, bool_decide_false by done.
  rewrite findNodeByPath_new by done.
  by rewrite appendChild_last.
Qed.

Lemma X16_witness :
  cmd.addNewLocal (R := GoModel.runtime)
    (cmd.addNewLocal (R := GoModel.runtime) []
       ("drafts/a.md",
        {| markdown.Frontmatter_ :=
             {| markdown.ID := ""; markdown.Title := "A"; markdown.URL := "" |};
           markdown.Content := "" |}))
    ("drafts/b.md",
     {| markdown.Frontmatter_ :=
          {| markdown.ID := ""; markdown.Title := "B"; markdown.URL := "" |};
        markdown.Content := "" |})
  = [ {| ID := ""; Title := "A"; Status := StatusNewLocal; Path := "drafts/a.md";
         Children :=
           [ {| ID := ""; Title := "B"; Status := StatusNewLocal;
                Path := "drafts/b.md"; Children := [] |} ] |} ].
Proof.
  apply (@new_files_in_one_directory GoModel.runtime [] "drafts/a.md" "drafts/b.md").
  - by_vm.
  - assert (Hd : filepath_Dir (GoRuntime := GoModel.runtime) "drafts/a.md" = "drafts")
      by by_vm.
    rewrite Hd. discriminate.
  - discriminate.
  - reflexivity.
Defined.

(** ** Download: failures and counts *)

Section download_more.
Context {R : GoRuntime} {L : GoRuntimeLaws R}.

(** Event [e] writes the encoded article of [file] to the path of [file],
    and the write succeeds. *)
Definition stored (w : World) (e : event) (file : string * api.Article) : Prop :=
  ∃ content,
    markdown_codec.WriteMarkdown (frontmatterOf file.2) (api.Content file.2)
    = Ok content
    ∧ e = FsWrite file.1 content
    ∧ WriteMarkdownFile w file.1 content = None.

(** The walk [files] was cut short with error [e]: the files before
    [failed] were stored, [failed] could not be encoded or could not be
    written, and the files after it were not tried. *)
Definition cutShort (w : World) (writes : list event)
    (files : list (string * api.Article)) (e : error) : Prop :=
  ∃ stored_files failed rest,
    files = stored_files ++ failed :: rest
    ∧ ((∃ e', markdown_codec.WriteMarkdown (frontmatterOf failed.2)
                (api.Content failed.2) = Err e'
              ∧ e = "failed to write markdown: " +:+ e'
              ∧ Forall2 (stored w) writes stored_files)
       ∨ (∃ content e' before,
            markdown_codec.WriteMarkdown (frontmatterOf failed.2)
              (api.Content failed.2) = Ok content
            ∧ WriteMarkdownFile w failed.1 content = Some e'
            ∧ e = "failed to write file " +:+ failed.1 +:+ ": " +:+ e'
            ∧ writes = before ++ [FsWrite failed.1 content]
            ∧ Forall2 (stored w) before stored_files)).

Lemma cutShort_after w writes files e more :
  cutShort w writes files e → cutShort w writes (files ++ more) e.
Proof.
  intros (done & failed & rest & -> & H).
  exists done, failed, (rest ++ more). split; [|done].
  by rewrite <- app_assoc.
Qed.

Lemma cutShort_before w before_writes before_files writes files e :
  Forall2 (stored w) before_writes before_files →
  cutShort w writes files e →
  cutShort w (before_writes ++ writes) (before_files ++ files) e.
Proof.
  intros Hbefore (done & failed & rest & -> & H).
  exists (before_files ++ done), failed, rest. split; [by rewrite <- app_assoc|].
  destruct H as [(e' & Henc & -> & Hdone)|(content & e' & b & Henc & Hw & -> & -> & Hdone)].
  - left. exists e'. split_and!; try done. by apply Forall2_app.
  - right. exists content, e', (before_writes ++ b).
    split_and!; try done; [by rewrite <- app_assoc | by apply Forall2_app].
Qed.

Lemma forEach_failure {A} (body : A → option (list event * option error)) l ev e :
  cmd.forEach body l = Some (ev, Some e) →
  ∃ l1 x l2 evs evx,
    l = l1 ++ x :: l2
    ∧ Forall2 (λ y ey, body y = Some (ey, None)) l1 evs
    ∧ body x = Some (evx, Some e)
    ∧ ev = concat evs ++ evx.
Proof.
  revert ev. induction l as [|y l IH]; intros ev; simpl; [done|].
  destruct (body y) as [[ey [err|]]|] eqn:Hy; [| |done].
  - intros [= <- <-]. exists [], y, l, [], ey. split_and!; first [done | constructor].
  - destruct (cmd.forEach body l) as [[ev' r]|] eqn:Hrest; [|done].
    intros [= <- ->].
    destruct (IH ev' eq_refl) as (l1 & x & l2 & evs & evx & -> & Hl1 & Hx & ->).
    exists (y :: l1), x, l2, (ey :: evs), evx.
    split_and!; try done; [by constructor | simpl; by rewrite app_assoc].
Qed.

Lemma download_stored fuel w stack article basePath articlesByID ev :
  cmd.downloadArticleRecursive fuel w stack article basePath articlesByID
  = Some (ev, None) →
  ∃ t, callTree fuel stack article articlesByID = Some t
       ∧ Forall2 (stored w) (fileWrites ev) (treeFiles basePath t).
Proof.
  revert stack article basePath ev.
  induction fuel as [|fuel IH]; intros stack article basePath ev; [done|].
  simpl. fold (frontmatterOf article).
  destruct (markdown_codec.WriteMarkdown _ _) as [content|] eqn:Hdoc; [|done].
  destruct (WriteMarkdownFile w _ content) eqn:Hwrite; [done|].
  set (here := api.ID article :: stack).
  set (children := cmd.sortedChildren here article articlesByID).
  set (dir := filepath_Join basePath (filesystem.SanitizeFilename (api.Title article))).
  set (path := filepath_Join basePath
                 (filesystem.SanitizeFilename (api.Title article) +:+ ".md")) in *.
  assert (Hfile : stored w (FsWrite path content) (path, article)).
  { by exists content. }
  destruct (0 <? length children) eqn:Hlen.
  - destruct (cmd.forEach _ children) as [[ev' r]|] eqn:Hloop; [|done].
    intros [= <- ->].
    apply forEach_success in Hloop as (evs & Hevs & ->).
    assert (Hts : ∃ ts,
               Forall2 (λ c t, callTree fuel here c articlesByID = Some t) children ts
               ∧ Forall2 (Forall2 (stored w)) (fileWrites <$> evs)
                         (treeFiles dir <$> ts)).
    { clear Hlen. induction Hevs as [|c e cs es Hc _ (ts & Hts & Hws)].
      - exists []. split; constructor.
      - apply IH in Hc as (t & Ht & Hw). exists (t :: ts).
        split; constructor; done. }
    destruct Hts as (ts & Hts & Hws).
    exists (RNode article ts). split.
    + by rewrite (mapM_Some_2 _ _ _ Hts).
    + rewrite fileWrites_Stdout, fileWrites_FsWrite, fileWrites_Stdout.
      rewrite fileWrites_concat.
      change (treeFiles basePath (RNode article ts))
        with ((path, article) :: concat (treeFiles dir <$> ts)).
      constructor; [exact Hfile|]. by apply Forall2_concat.
  - intros [= <-].
    assert (Hnil : children = []).
    { destruct children; [done|]. simpl in Hlen. done. }
    rewrite Hnil. exists (RNode article []). split; [done|].
    rewrite fileWrites_Stdout, fileWrites_FsWrite.
    constructor; [exact Hfile | constructor].
Qed.

Lemma download_cutShort fuel w stack article basePath articlesByID ev e t :
  cmd.downloadArticleRecursive fuel w stack article basePath articlesByID
  = Some (ev, Some e) →
  callTree fuel stack article articlesByID = Some t →
  cutShort w (fileWrites ev) (treeFiles basePath t) e.
Proof.
  revert stack article basePath ev t.
  induction fuel as [|fuel IH]; intros stack article basePath ev t; [done|].
  intros Hrun Ht.
  apply callTree_inv in Ht as (fuel' & ts & [= <-] & -> & Hts).
  simpl in Hrun. fold (frontmatterOf article) in Hrun.
  set (here := api.ID article :: stack) in *.
  set (children := cmd.sortedChildren here article articlesByID) in *.
  set (dir := filepath_Join basePath (filesystem.SanitizeFilename (api.Title article)))
    in *.
  set (path := filepath_Join basePath
                 (filesystem.SanitizeFilename (api.Title article) +:+ ".md")) in *.
  change (treeFiles basePath (RNode article ts))
    with ((path, article) :: concat (treeFiles dir <$> ts)).
  destruct (markdown_codec.WriteMarkdown _ _) as [content|e'] eqn:Hdoc.
  2:{ injection Hrun as <- <-.
      exists [], (path, article), (concat (treeFiles dir <$> ts)).
      split; [done|]. left. exists e'. split_and!; first [done | constructor]. }
  destruct (WriteMarkdownFile w path content) as [e'|] eqn:Hwrite.
  { injection Hrun as <- <-.
    exists [], (path, article), (concat (treeFiles dir <$> ts)).
    split; [done|]. right. exists content, e', [].
    split_and!; first [done | constructor]. }
  destruct (0 <? length children); [|done].
  destruct (cmd.forEach _ children) as [[ev' r]|] eqn:Hloop; [|done].
  injection Hrun as <- ->.
  apply forEach_failure in Hloop
    as (cs1 & x & cs2 & evs & evx & Hchildren & Hcs1 & Hx & ->).
  rewrite Hchildren in Hts.
  apply Forall2_app_inv_l in Hts as (ts1 & ts' & Hts1 & Hts' & ->).
  apply Forall2_cons_inv_l in Hts' as (tx & ts2 & Htx & Hts2 & ->).
  rewrite fileWrites_Stdout, fileWrites_FsWrite, fileWrites_Stdout.
  rewrite fileWrites_app, fileWrites_concat.
  rewrite fmap_app, concat_app, fmap_cons. simpl concat.
  assert (Hstored1 : Forall2 (stored w) (concat (fileWrites <$> evs))
                       (concat (treeFiles dir <$> ts1))).
  { apply Forall2_concat. clear Hchildren.
    revert ts1 Hts1. induction Hcs1 as [|c ec cs es Hc _ IHcs]; intros ts1 Hts1.
    - apply Forall2_nil_inv_l in Hts1 as ->. constructor.
    - apply Forall2_cons_inv_l in Hts1 as (t1 & ts1' & Ht1 & Hts1' & ->).
      rewrite !fmap_cons. constructor; [|by apply IHcs].
      apply download_stored in Hc as (t1' & Ht1' & Hw).
      rewrite Ht1 in Ht1'. by injection Ht1' as <-. }
  change ((path, article)
          :: concat (treeFiles dir <$> ts1) ++ treeFiles dir tx
             ++ concat (treeFiles dir <$> ts2))
    with (([(path, article)] ++ concat (treeFiles dir <$> ts1))
          ++ (treeFiles dir tx ++ concat (treeFiles dir <$> ts2))).
  change (FsWrite path content :: concat (fileWrites <$> evs) ++ fileWrites evx)
    with (([FsWrite path content] ++ concat (fileWrites <$> evs)) ++ fileWrites evx).
  apply cutShort_before.
  - apply Forall2_app; [|done]. constructor; [by exists content | constructor].
  - apply cutShort_after. by eapply IH.
Qed.

Lemma downloadArticles_cutShort fuel w articles ev e forest :
  cmd.downloadArticles fuel w articles = Some (ev, Some e) →
  callForest fuel articles = Some forest →
  cutShort w (fileWrites ev) (forestFiles forest) e.
Proof.
  unfold cmd.downloadArticles. case_bool_decide; [done|].
  destruct (cmd.forEach _ _) as [[ev' [e'|]]|] eqn:Hloop; [|done|done].
  intros [= <- <-] Hf.
  apply forEach_failure in Hloop
    as (rs1 & x & rs2 & evs & evx & Hroots & Hrs1 & Hx & ->).
  pose proof (mapM_Some_1 _ _ _ Hf) as Hts. rewrite Hroots in Hts.
  apply Forall2_app_inv_l in Hts as (ts1 & ts' & Hts1 & Hts' & ->).
  apply Forall2_cons_inv_l in Hts' as (tx & ts2 & Htx & Hts2 & ->).
  rewrite fileWrites_Stdout, fileWrites_app, fileWrites_concat.
  unfold forestFiles. rewrite fmap_app, concat_app, fmap_cons. simpl concat.
  apply cutShort_before.
  - apply Forall2_concat. clear Hroots Hf.
    revert ts1 Hts1. induction Hrs1 as [|c ec cs es Hc _ IHcs]; intros ts1 Hts1.
    + apply Forall2_nil_inv_l in Hts1 as ->. constructor.
    + apply Forall2_cons_inv_l in Hts1 as (t1 & ts1' & Ht1 & Hts1' & ->).
      rewrite !fmap_cons. constructor; [|by apply IHcs].
      apply download_stored in Hc as (t1' & Ht1' & Hw).
      rewrite Ht1 in Ht1'. by injection Ht1' as <-.
  - apply cutShort_after. by eapply download_cutShort.
Qed.

(** *** How many files a download writes *)

Lemma treeFiles_articles basePath t : (treeFiles basePath t).*2 = treeArticles t.
Proof.
  revert basePath. induction t as [a ts IH] using rtree_ind_nested. intros basePath.
  rewrite treeArticles_RNode.
  change (treeFiles basePath (RNode a ts))
    with ((filepath_Join basePath (filesystem.SanitizeFilename (api.Title a) +:+ ".md"), a)
          :: concat (treeFiles (filepath_Join basePath
                                  (filesystem.SanitizeFilename (api.Title a))) <$> ts)).
  rewrite fmap_cons. simpl. f_equal.
  rewrite fmap_concat. f_equal. rewrite <- list_fmap_compose.
  apply Forall_fmap_ext_1. eapply Forall_impl; [exact IH|].
  intros t Ht. apply Ht.
Qed.

Lemma forestFiles_articles forest : (forestFiles forest).*2 = articlesOf forest.
Proof.
  unfold forestFiles. rewrite articlesOf_concat, fmap_concat. f_equal.
  rewrite <- list_fmap_compose. apply list_fmap_ext.
  intros i t _. apply treeFiles_articles.
Qed.

Lemma downloadArticles_last fuel w articles ev :
  articles ≠ [] →
  cmd.downloadArticles fuel w articles = Some (ev, None) →
  last ev = Some (Stdout ("Downloaded " +:+ pretty (length articles)
                          +:+ " articles." +:+ nl)).
Proof.
  intros Hne. unfold cmd.downloadArticles.
  rewrite bool_decide_false by (by destruct articles).
  destruct (cmd.forEach _ _) as [[ev' [e|]]|]; [done| |done].
  intros [= <-]. simpl. rewrite app_comm_cons. apply last_snoc.
Qed.
End download_more.

(** X17. A download that returns an error stopped at the first article
    that could not be encoded or written: the files that come before it in
    the walk were written, with success; the failing file is named by the
    error (for a write that failed) and nothing that comes after it in the
    walk was tried. When the listing itself fails, no file is written. *)
Theorem runDownload_stops_at_first_failure
    {R : GoRuntime} (fuel : nat) (cfg : api.Config) (w : World)
    (ev : list event) (e : error) :
  cmd.runDownload fuel cfg w = Some (ev, Some e) →
  match api.ListArticles cfg (http_get w) with
  | Err e' => e = "failed to list articles: " +:+ e' ∧ fileWrites ev = []
  | Ok articles =>
      ∀ forest, callForest fuel articles = Some forest →
                cutShort w (fileWrites ev) (forestFiles forest) e
  end.
Proof.
  unfold cmd.runDownload.
  destruct (api.ListArticles cfg (http_get w)) as [articles|e'].
  - destruct (cmd.downloadArticles fuel w articles) as [[ev' r]|] eqn:Hrun; [|done].
    intros [= <- ->] forest Hf.
    rewrite fileWrites_Stdout. unfold fileWrites. rewrite filter_cons. simpl.
    by eapply downloadArticles_cutShort.
  - by intros [= <- <-].
Qed.

Module Faulty.
(** The scenario on a disk that refuses the second file. *)
Definition http (url : string) : api.Exchange :=
  if bool_decide (url = api.articlesURL "https://yt.example")
  then api.Answered
         {| api.StatusCode := 200; api.Body := "";
            api.Decoded :=
              Ok [ {| api.rID := "A"; api.rSummary := "Intro"; api.rContent := "";
                      api.rParent := None;
                      api.rProjectID := "KB"; api.rProjectName := "Docs" |};
                   {| api.rID := "B"; api.rSummary := "Setup"; api.rContent := "";
                      api.rParent := Some "A";
                      api.rProjectID := "KB"; api.rProjectName := "Docs" |};
                   {| api.rID := "D"; api.rSummary := "Orphan"; api.rContent := "";
                      api.rParent := Some "gone";
                      api.rProjectID := "KB"; api.rProjectName := "Docs" |} ] |}
  else api.DoFailed "no such host".

Definition world (refused : string) : World :=
  {| FindMarkdownFiles := Ok [];
     ReadMarkdownFile := λ _, Err "no such file";
     WriteMarkdownFile := λ path _,
       if bool_decide (path = refused) then Some "disk full" else None;
     http_get := http;
     UpdateArticle := λ _ _ _, Err "offline";
     Stdin := "" |}.

Definition articles : list api.Article :=
  [ {| api.ID := "A"; api.Title := "Intro"; api.Content := "";
       api.ParentID := None; api.Order := 0%Z;
       api.URL := "https://yt.example/articles/A" |};
    {| api.ID := "B"; api.Title := "Setup"; api.Content := "";
       api.ParentID := Some "A"; api.Order := 0%Z;
       api.URL := "https://yt.example/articles/B" |};
    {| api.ID := "D"; api.Title := "Orphan"; api.Content := "";
       api.ParentID := Some "gone"; api.Order := 0%Z;
       api.URL := "https://yt.example/articles/D" |} ].
End Faulty.

Lemma Faulty_lists refused :
  api.ListArticles Examples.cfg (http_get (Faulty.world refused)) = Ok Faulty.articles.
Proof. reflexivity. Qed.

Lemma X17_witness :
  ∃ ev forest,
    cmd.runDownload (R := GoModel.runtime) 3 Examples.cfg (Faulty.world "Intro/Setup.md")
    = Some (ev, Some "failed to write file Intro/Setup.md: disk full")
    ∧ callForest (R := GoModel.runtime) 3 Faulty.articles = Some forest
    ∧ cutShort (R := GoModel.runtime) (Faulty.world "Intro/Setup.md")
        (fileWrites ev) (forestFiles (R := GoModel.runtime) forest)
        "failed to write file Intro/Setup.md: disk full".
Proof.
  assert (Hrun : ∃ ev,
             cmd.runDownload (R := GoModel.runtime) 3 Examples.cfg
               (Faulty.world "Intro/Setup.md")
             = Some (ev, Some "failed to write file Intro/Setup.md: disk full")).
  { eexists. by_vm. }
  destruct Hrun as [ev Hrun].
  assert (Hforest : ∃ forest,
             callForest (R := GoModel.runtime) 3 Faulty.articles = Some forest).
  { eexists. by_vm. }
  destruct Hforest as [forest Hforest].
  exists ev, forest. split; [exact Hrun|]. split; [exact Hforest|].
  pose proof (@runDownload_stops_at_first_failure GoModel.runtime 3 Examples.cfg
                (Faulty.world "Intro/Setup.md") ev _ Hrun) as H.
  rewrite Faulty_lists in H. exact (H forest Hforest).
Defined.

(** X18. A download that succeeds on a listing with distinct identifiers,
    none of them empty, writes one file for every article whose chain of
    parent references ends at a root and for no other: never more files
    than the listing has articles, and as many only when every article is
    reached. Its last line, "Downloaded n articles.", gives the length of
    the listing all the same. On an empty listing it writes nothing. *)
Theorem runDownload_counts
    {R : GoRuntime} {L : GoRuntimeLaws R}
    (fuel : nat) (cfg : api.Config) (w : World)
    (ev : list event) (articles : list api.Article) :
  api.ListArticles cfg (http_get w) = Ok articles →
  NoDup (api.ID <$> articles) →
  (∀ a, a ∈ articles → api.ID a ≠ "") →
  cmd.runDownload fuel cfg w = Some (ev, None) →
  (articles = [] → fileWrites ev = [])
  ∧ (articles ≠ [] →
     (∃ reached,
        Forall2 written (fileWrites ev) reached
        ∧ NoDup reached.*2
        ∧ ∀ a, a ∈ reached.*2 ↔ ∃ n, level articles a n)
     ∧ length (fileWrites ev) ≤ length articles
     ∧ (length (fileWrites ev) = length articles ↔
        ∀ a, a ∈ articles → ∃ n, level articles a n)
     ∧ last ev = Some (Stdout ("Downloaded " +:+ pretty (length articles)
                               +:+ " articles." +:+ nl))).
Proof.
  intros Hlist Hnd Hnamed. unfold cmd.runDownload. rewrite Hlist.
  destruct (cmd.downloadArticles fuel w articles) as [[ev' r]|] eqn:Hrun; [|done].
  intros [= <- ->].
  assert (Hwrites : fileWrites
                      (Stdout ("Downloading knowledge base articles..." +:+ nl)
                       :: ApiListArticles :: ev') = fileWrites ev') by done.
  rewrite Hwrites. split.
  - intros ->. by injection Hrun as <-.
  - intros Hne.
    destruct (downloadArticles_callForest fuel w articles ev' Hne Hrun)
      as (forest & Hf & Hw).
    pose proof (forest_NoDup _ Hnd Hnamed _ _ Hf) as Hfnd.
    pose proof (Forall2_length _ _ _ Hw) as Hlen.
    assert (Hcount : length (forestFiles forest) = length (articlesOf forest)).
    { by rewrite <- forestFiles_articles, length_fmap. }
    assert (Hsub : articlesOf forest ⊆+ articles).
    { apply NoDup_submseteq; [done|]. intros a Ha.
      apply (forest_elem _ Hnd _ _ _ Hf) in Ha as [n Hl]. by eapply level_in. }
    split_and!.
    + exists (forestFiles forest). rewrite forestFiles_articles.
      split_and!; try done. intros a. exact (forest_elem _ Hnd _ _ a Hf).
    + rewrite Hlen, Hcount. by apply submseteq_length.
    + rewrite Hlen, Hcount. split.
      * intros Heq a Ha. apply (forest_elem _ Hnd _ _ _ Hf).
        rewrite (submseteq_length_Permutation _ _ Hsub); [done|]. lia.
      * intros Hall. apply Permutation_length, NoDup_Permutation; try done.
        { by eapply NoDup_fmap_1. }
        intros a. rewrite (forest_elem _ Hnd _ _ _ Hf). split.
        -- intros [n Hl]. by eapply level_in.
        -- apply Hall.
    + by rewrite !last_cons, (downloadArticles_last _ _ _ _ Hne Hrun).
Qed.

Lemma X18_witness :
  ∃ ev,
    cmd.runDownload (R := GoModel.runtime) 3 Examples.cfg (Faulty.world "")
    = Some (ev, None)
    ∧ length (fileWrites ev) ≤ 3
    ∧ length (fileWrites ev) = 2
    ∧ last ev = Some (Stdout ("Downloaded 3 articles." +:+ nl)).
Proof.
  assert (Hrun : ∃ ev,
             cmd.runDownload (R := GoModel.runtime) 3 Examples.cfg (Faulty.world "")
             = Some (ev, None) ∧ length (fileWrites ev) = 2).
  { eexists. split.
    - by_vm.
    - by_vm. }
  destruct Hrun as (ev & Hrun & Htwo).
  assert (Hnd : NoDup (api.ID <$> Faulty.articles)) by by_evaluation.
  assert (Hnamed : ∀ a, a ∈ Faulty.articles → api.ID a ≠ "").
  { intros a Ha. repeat (apply elem_of_cons in Ha as [->|Ha]); try discriminate.
    by apply elem_of_nil in Ha. }
  destruct (@runDownload_counts GoModel.runtime GoModel_laws 3 Examples.cfg
              (Faulty.world "") ev Faulty.articles (Faulty_lists _) Hnd Hnamed Hrun)
    as [_ Hsome].
  destruct (Hsome ltac:(discriminate)) as (_ & Hle & _ & Hlast).
  exists ev. split; [exact Hrun|]. split; [exact Hle|]. split; [exact Htwo | exact Hlast].
Defined.

(** ** The example worlds, looked at by the theorems above *)

Definition example_forest : list ArticleNode :=
  [ {| ID := "A-1"; Title := "Intro"; Status := StatusUnchanged;
       Path := "Intro.md";
       Children :=
         [ {| ID := "A-2"; Title := "Setup"; Status := StatusModified;
              Path := "Intro/Setup.md";
              Children :=
                [ {| ID := ""; Title := "Draft"; Status := StatusNewLocal;
                     Path := "Intro/Draft.md"; Children := [] |} ] |} ] |} ].

Lemma example_runDiff :
  cmd.runDiff (R := GoModel.runtime) 2 Examples.cfg (Examples.world "")
  = Some (Ok example_forest).
Proof. by_vm. Qed.

Lemma example_distinct : NoDup (api.ID <$> Examples.articles).
Proof. by_evaluation. Qed.

Lemma example_named a : a ∈ Examples.articles → api.ID a ≠ "".
Proof.
  intros Ha. repeat (apply elem_of_cons in Ha as [->|Ha]); try discriminate.
  by apply elem_of_nil in Ha.
Qed.

Lemma X10_witness :
  ∃ reached newFiles (pathOf : string → string),
    (λ node, (ID node, Title node, Status node, Path node))
      <$> forestNodes example_forest
    ≡ₚ ((λ a, (api.ID a, api.Title a,
               diffStatus (R := GoModel.runtime) (Examples.world "") local_files
                 Examples.articles (api.ID a),
               pathOf (api.ID a))) <$> reached)
       ++ ((λ entry : string * markdown.MarkdownFile,
              ("", markdown.Title (markdown.Frontmatter_ entry.2), StatusNewLocal,
               entry.1))
             <$> newFiles)
    ∧ NoDup reached ∧ NoDup newFiles.*1
    ∧ ("Intro/Draft.md",
       {| markdown.Frontmatter_ :=
            {| markdown.ID := ""; markdown.Title := "Draft"; markdown.URL := "" |};
          markdown.Content := "d" |}) ∈ newFiles.
Proof.
  destruct (@runDiff_forest_nodes GoModel.runtime GoModel_laws 2 Examples.cfg
              (Examples.world "") example_forest local_files Examples.articles
              example_runDiff (proj1 (world_lists _)) (proj2 (world_lists _))
              example_distinct example_named)
    as (reached & newFiles & pathOf & Hperm & Hnd & _ & _ & Hnew & Hfiles).
  exists reached, newFiles, pathOf.
  split; [exact Hperm|]. split; [exact Hnd|]. split; [exact Hnew|].
  apply Hfiles. split; [by_evaluation|]. split; by_vm.
Defined.

Lemma X11_witness :
  standsFor (R := GoModel.runtime) (Examples.world "") local_files Examples.articles
    ("A-2", "Setup", StatusModified, "Intro/Setup.md").
Proof.
  apply (@runDiff_nodes_point_to_files GoModel.runtime GoModel_laws 2 Examples.cfg
           (Examples.world "") example_forest local_files Examples.articles
           example_runDiff (proj1 (world_lists _)) (proj2 (world_lists _))
           example_distinct
           {| ID := "A-2"; Title := "Setup"; Status := StatusModified;
              Path := "Intro/Setup.md";
              Children :=
                [ {| ID := ""; Title := "Draft"; Status := StatusNewLocal;
                     Path := "Intro/Draft.md"; Children := [] |} ] |}).
  unfold example_forest, forestNodes. simpl. right. left.
Defined.

Module Strays.
(** A directory with a file whose identifier the server does not know. *)
Definition disk (path : string) : result string :=
  if bool_decide (path = "Intro.md")
  then Ok (Examples.file "A-1" "Intro" (Examples.line "x"))
  else if bool_decide (path = "Old.md") then Ok (Examples.file "Z-9" "Old" "o")
  else Err "no such file".

Definition files : list string := ["Intro.md"; "Old.md"].

Definition world : World :=
  {| FindMarkdownFiles := Ok files;
     ReadMarkdownFile := disk;
     WriteMarkdownFile := λ _ _, None;
     http_get := Examples.http;
     UpdateArticle := λ _ _ _, Err "offline";
     Stdin := "" |}.

Definition forest : list ArticleNode :=
  [ {| ID := "A-1"; Title := "Intro"; Status := StatusUnchanged;
       Path := "Intro.md";
       Children :=
         [ {| ID := "A-2"; Title := "Setup"; Status := StatusDeleted;
              Path := ""; Children := [] |} ] |} ].
End Strays.

Lemma X12_witness :
  cmd.runDiff (R := GoModel.runtime) 2 Examples.cfg Strays.world = Some (Ok Strays.forest)
  ∧ (∀ node, node ∈ forestNodes Strays.forest → Path node ≠ "Old.md")
  ∧ "Old.md" ∈ cmd.collectNewPages (R := GoModel.runtime) Strays.world Strays.files
                 (cmd.indexByID Examples.articles).
Proof.
  assert (Hrun : cmd.runDiff (R := GoModel.runtime) 2 Examples.cfg Strays.world
                 = Some (Ok Strays.forest)) by by_vm.
  assert (Hdec : decodeFile (R := GoModel.runtime) Strays.world "Old.md"
                 = Some {| markdown.Frontmatter_ :=
                             {| markdown.ID := "Z-9"; markdown.Title := "Old";
                                markdown.URL := "" |};
                           markdown.Content := "o" |}) by by_vm.
  assert (Hunknown : "Z-9" ∉ api.ID <$> Examples.articles) by by_evaluation.
  assert (Hin : "Old.md" ∈ Strays.files) by by_evaluation.
  destruct (@runDiff_hides_unknown_identifier GoModel.runtime GoModel_laws 2
              Examples.cfg Strays.world Strays.forest Strays.files Examples.articles
              "Old.md" _ Hrun eq_refl eq_refl example_distinct
              ltac:(discriminate) Hdec ltac:(discriminate) Hunknown)
    as [Hhidden Hnew].
  split; [exact Hrun|]. split; [exact Hhidden | exact (Hnew Hin)].
Defined.

Lemma X14_witness :
  NoDup (cmd.page_id
           <$> cmd.collectPages (R := GoModel.runtime)
                 (cmd.loadByID (Examples.world "") local_files).1
                 (cmd.loadByID (Examples.world "") local_files).2
                 (cmd.indexByID Examples.articles)).
Proof.
  pose proof (@push_plan_exact GoModel.runtime GoModel_laws (Examples.world "")
                local_files Examples.articles) as H.
  cbv zeta in H. exact (proj1 H).
Defined.

Lemma X15_witness :
  "A-2" ∈ cmd.page_id
            <$> cmd.collectPages (R := GoModel.runtime)
                  (cmd.loadByID (Examples.world "") local_files).1
                  (cmd.loadByID (Examples.world "") local_files).2
                  (cmd.indexByID Examples.articles).
Proof.
  assert (Hid : "A-2" ∈ api.ID <$> Examples.articles) by by_evaluation.
  assert (Hst : diffStatus (R := GoModel.runtime) (Examples.world "") local_files
                  Examples.articles "A-2" = StatusModified) by by_vm.
  exact (proj1 (@diff_modified_is_planned GoModel.runtime GoModel_laws
                  (Examples.world "") local_files Examples.articles "A-2"
                  example_distinct Hid) Hst).
Defined.

(** ** Choosing the knowledge base *)

Section knowledge_bases.
Context {R : GoRuntime}.
Variable range_projects : gmap string string → list (string * string).
Hypothesis range_projects_perm : ∀ m, range_projects m ≡ₚ map_to_list m.

Lemma projects_fold_lookup articles m k n :
  fold_left config.projectStep articles m !! k = Some n →
  (k ≠ "" ∧ n ≠ ""
   ∧ ∃ a, a ∈ articles ∧ config.pID a = k ∧ config.pName a = n)
  ∨ m !! k = Some n.
Proof.
  revert m. induction articles as [|a l IH]; intros m H; simpl in *; [by right|].
  apply IH in H as [(Hk & Hn & b & Hb & Hid & Hname)|H].
  { left. split_and!; try done. exists b. split; [by right | done]. }
  unfold config.projectStep in H.
  case_bool_decide as Hid; simpl in H; [|by right].
  case_bool_decide as Hname; simpl in H; [|by right].
  rewrite lookup_insert in H. case_decide as Hk; [|by right].
  injection H as <-. subst k. left. split_and!; try done.
  exists a. split; [by left | done].
Qed.

Lemma projects_fold_keeps articles m k :
  is_Some (m !! k) → is_Some (fold_left config.projectStep articles m !! k).
Proof.
  revert m. induction articles as [|a l IH]; intros m H; simpl; [done|].
  apply IH. unfold config.projectStep.
  destruct (_ && _); [|done].
  rewrite lookup_insert. case_decide; [by eexists | done].
Qed.

Lemma projects_fold_holds articles m a :
  a ∈ articles → config.pID a ≠ "" → config.pName a ≠ "" →
  is_Some (fold_left config.projectStep articles m !! config.pID a).
Proof.
  intros Ha Hid Hname. revert m.
  induction articles as [|b l IH]; intros m; [by apply elem_of_nil in Ha|].
  simpl. apply elem_of_cons in Ha as [<-|Ha]; [|by apply IH].
  apply projects_fold_keeps. unfold config.projectStep.
  rewrite !bool_decide_true by done. simpl. rewrite lookup_insert_eq. by eexists.
Qed.

Lemma fallback_bases articles :
  let bases := (λ entry : string * string,
                  {| config.Key := entry.1; config.Name := entry.2 |})
                 <$> range_projects (fold_left config.projectStep articles ∅) in
  NoDup (config.Key <$> bases)
  ∧ (∀ b, b ∈ bases →
       config.Key b ≠ "" ∧ config.Name b ≠ ""
       ∧ ∃ a, a ∈ articles ∧ config.pID a = config.Key b
              ∧ config.pName a = config.Name b)
  ∧ (∀ a, a ∈ articles → config.pID a ≠ "" → config.pName a ≠ "" →
          config.pID a ∈ config.Key <$> bases).
Proof.
  intros bases. subst bases.
  set (m := fold_left config.projectStep articles ∅).
  assert (Hkeys : config.Key
                    <$> ((λ entry : string * string,
                            {| config.Key := entry.1; config.Name := entry.2 |})
                           <$> range_projects m)
                  = (range_projects m).*1).
  { rewrite <- list_fmap_compose. done. }
  split_and!.
  - rewrite Hkeys, range_projects_perm. apply NoDup_fst_map_to_list.
  - intros b Hb. apply list_elem_of_fmap in Hb as ([k n] & -> & Hkn). simpl.
    rewrite range_projects_perm in Hkn. apply elem_of_map_to_list in Hkn.
    apply projects_fold_lookup in Hkn as [H|H]; [done|].
    by rewrite lookup_empty in H.
  - intros a Ha Hid Hname.
    destruct (projects_fold_holds articles ∅ a Ha Hid Hname) as [n Hn].
    rewrite Hkeys. apply list_elem_of_fmap. exists (config.pID a, n).
    split; [done|]. rewrite range_projects_perm. by apply elem_of_map_to_list.
Qed.
End knowledge_bases.

(** X19. When the endpoint of the knowledge bases does not answer with
    status 200 and the articles endpoint does, [ListKnowledgeBases] of
    package [config] returns one knowledge base for every project
    identifier that some article of the response carries together with a
    name, both not empty, and nothing else: no key occurs twice, and every
    key comes with a name that an article gives to that project. *)
Theorem ListKnowledgeBases_fallback
    (range_projects : gmap string string → list (string * string))
    (cfg : api.Config) (http : string → config.Exchange)
    (first second : config.Response) (articles : list config.Project) :
  (∀ m, range_projects m ≡ₚ map_to_list m) →
  http (strings.TrimSuffixSlash (api.cfgURL cfg) +:+ "/api/knowledgeBases")
  = config.Answered first →
  config.StatusCode first ≠ 200 →
  http (strings.TrimSuffixSlash (api.cfgURL cfg)
        +:+ "/api/articles?fields=project(id,name)&$top=1000")
  = config.Answered second →
  config.StatusCode second = 200 →
  config.DecodedProjects second = Ok articles →
  ∃ bases,
    config.ListKnowledgeBases range_projects cfg http = Ok bases
    ∧ NoDup (config.Key <$> bases)
    ∧ (∀ b, b ∈ bases →
         config.Key b ≠ "" ∧ config.Name b ≠ ""
         ∧ ∃ a, a ∈ articles ∧ config.pID a = config.Key b
                ∧ config.pName a = config.Name b)
    ∧ (∀ a, a ∈ articles → config.pID a ≠ "" → config.pName a ≠ "" →
            config.pID a ∈ config.Key <$> bases).
Proof.
  intros Hrange Hfirst Hcode1 Hsecond Hcode2 Hdec.
  eexists. split.
  - unfold config.ListKnowledgeBases. rewrite Hfirst.
    rewrite bool_decide_false by done. rewrite Hsecond.
    rewrite bool_decide_false by (intros H; by apply H). by rewrite Hdec.
  - apply (fallback_bases range_projects Hrange articles).
Qed.

Section selection.
Context {R : GoRuntime}.
Variable range_projects : gmap string string → list (string * string).
Variable fmt_Sscanf_int : string → result Z.
Variable os_WriteFile : string → string → option error.

Lemma fileWrites_snoc_output ev e :
  isOutput e = true → fileWrites (ev ++ [e]) = fileWrites ev.
Proof.
  intros He. rewrite fileWrites_app. unfold fileWrites at 2.
  rewrite filter_cons, filter_nil.
  destruct e; simpl in *; try done; by rewrite app_nil_r.
Qed.

Lemma saveKBKey_spec before cfg kbKey ev cfg' err :
  config.saveKBKey os_WriteFile before cfg kbKey = (ev, cfg', err) →
  cfg' = config.withKBKey cfg kbKey
  ∧ fileWrites ev = fileWrites before ++ [FsWrite ".env" ("KB_KEY=" +:+ kbKey +:+ nl)]
  ∧ (err = None → last ev = Some (Stdout ("KB_KEY saved to .env" +:+ nl))).
Proof.
  unfold config.saveKBKey.
  destruct (os_WriteFile ".env" _) as [e|]; intros [= <- <- <-].
  - split_and!; try done. by rewrite fileWrites_app.
  - split_and!; try done.
    + by rewrite fileWrites_app.
    + intros _. by rewrite last_app.
Qed.

Lemma promptForKBKey_spec before cfg stdin ev cfg' err :
  fileWrites before = [] →
  config.promptForKBKey os_WriteFile before cfg stdin = (ev, cfg', err) →
  match strings.ReadString stdin with
  | (_, Some e) => cfg' = cfg ∧ fileWrites ev = [] ∧ err = Some ("failed to read KB_KEY: " +:+ e)
  | (line, None) =>
      cfg' = config.withKBKey cfg (strings_TrimSpace line)
      ∧ fileWrites ev
        = [FsWrite ".env" ("KB_KEY=" +:+ strings_TrimSpace line +:+ nl)]
      ∧ (err = None → last ev = Some (Stdout ("KB_KEY saved to .env" +:+ nl)))
  end.
Proof.
  intros Hbefore. unfold config.promptForKBKey.
  destruct (strings.ReadString stdin) as [line [e|]].
  - intros [= <- <- <-]. split_and!; try done.
    rewrite fileWrites_app, Hbefore. done.
  - intros Hsave. apply saveKBKey_spec in Hsave as (-> & Hw & Hlast).
    split_and!; try done. rewrite Hw, fileWrites_app, Hbefore. done.
Qed.

Lemma baseLines_fileWrites i bases : fileWrites (config.baseLines i bases) = [].
Proof. revert i. induction bases as [|kb l IH]; intros i; [done|]. apply IH. Qed.
End selection.

(** X20. [selectKnowledgeBaseInteractive] never indexes the list of
    knowledge bases out of range, leaves token and URL as they are, and
    writes to no file but [.env], once at most. When it returns no error,
    the key it left in the configuration is the key it wrote to [.env].
    With a list that is not empty, a line that [Sscanf] reads as a number
    between 1 and the length of the list chooses the key of the knowledge
    base at that position; any other line, trimmed, is taken as the key
    itself, be it a number out of range or the empty line. When the list
    cannot be had or is empty, the trimmed line is the key. *)
Theorem selectKnowledgeBaseInteractive_saves
    {R : GoRuntime}
    (range_projects : gmap string string → list (string * string))
    (fmt_Sscanf_int : string → result Z)
    (os_WriteFile : string → string → option error)
    (cfg : api.Config) (http : string → config.Exchange) (stdin : string) :
  ∃ ev cfg' err,
    config.selectKnowledgeBaseInteractive range_projects fmt_Sscanf_int os_WriteFile
      cfg http stdin = Some (ev, cfg', err)
    ∧ api.Token cfg' = api.Token cfg ∧ api.cfgURL cfg' = api.cfgURL cfg
    ∧ (fileWrites ev = []
       ∨ fileWrites ev = [FsWrite ".env" ("KB_KEY=" +:+ api.KBKey cfg' +:+ nl)])
    ∧ (err = None →
       fileWrites ev = [FsWrite ".env" ("KB_KEY=" +:+ api.KBKey cfg' +:+ nl)]
       ∧ last ev = Some (Stdout ("KB_KEY saved to .env" +:+ nl)))
    ∧ ∀ line, strings.ReadString stdin = (line, None) →
        let input := strings_TrimSpace line in
        match config.ListKnowledgeBases range_projects cfg http with
        | Ok (kb0 :: rest) =>
            match fmt_Sscanf_int input with
            | Ok num =>
                if decide (0 < num ≤ Z.of_nat (length (kb0 :: rest)))%Z
                then ∃ kb, (kb0 :: rest) !! Z.to_nat (num - 1) = Some kb
                           ∧ api.KBKey cfg' = config.Key kb
                else api.KBKey cfg' = input
            | Err _ => api.KBKey cfg' = input
            end
        | _ => api.KBKey cfg' = input
        end.
Proof.
  unfold config.selectKnowledgeBaseInteractive.
  set (start := [Stdout (".env file not found. Let's select a knowledge base." +:+ nl);
                 ApiListKnowledgeBases]).
  assert (Hprompt : ∀ before,
            fileWrites before = [] →
            ∃ ev cfg' err,
              config.promptForKBKey os_WriteFile before cfg stdin = (ev, cfg', err)
              ∧ api.Token cfg' = api.Token cfg ∧ api.cfgURL cfg' = api.cfgURL cfg
              ∧ (fileWrites ev = []
                 ∨ fileWrites ev
                   = [FsWrite ".env" ("KB_KEY=" +:+ api.KBKey cfg' +:+ nl)])
              ∧ (err = None →
                 fileWrites ev
                 = [FsWrite ".env" ("KB_KEY=" +:+ api.KBKey cfg' +:+ nl)]
                 ∧ last ev = Some (Stdout ("KB_KEY saved to .env" +:+ nl)))
              ∧ ∀ line, strings.ReadString stdin = (line, None) →
                        api.KBKey cfg' = strings_TrimSpace line).
  { intros before Hbefore.
    destruct (config.promptForKBKey os_WriteFile before cfg stdin)
      as [[ev cfg'] err] eqn:Hrun.
    exists ev, cfg', err. split; [done|].
    apply promptForKBKey_spec in Hrun; [|done].
    destruct (strings.ReadString stdin) as [line [e|]].
    - destruct Hrun as (-> & Hw & ->). split_and!; try done. by left.
    - destruct Hrun as (-> & Hw & Hlast).
      split_and!; try done; try (by right); try (by intros l [= <-]).
      intros Hok. split; [done | by apply Hlast]. }
  assert (Hsave : ∀ before kbKey,
            fileWrites before = [] →
            ∃ ev cfg' err,
              config.saveKBKey os_WriteFile before cfg kbKey = (ev, cfg', err)
              ∧ api.Token cfg' = api.Token cfg ∧ api.cfgURL cfg' = api.cfgURL cfg
              ∧ fileWrites ev = [FsWrite ".env" ("KB_KEY=" +:+ api.KBKey cfg' +:+ nl)]
              ∧ (err = None → last ev = Some (Stdout ("KB_KEY saved to .env" +:+ nl)))
              ∧ api.KBKey cfg' = kbKey).
  { intros before kbKey Hbefore.
    destruct (config.saveKBKey os_WriteFile before cfg kbKey)
      as [[ev cfg'] err] eqn:Hrun.
    exists ev, cfg', err. split; [done|].
    apply saveKBKey_spec in Hrun as (-> & Hw & Hlast).
    rewrite Hw, Hbefore. done. }
  destruct (config.ListKnowledgeBases range_projects cfg http) as [bases|e].
  2:{ destruct (Hprompt (start ++ [Stdout ("Could not list knowledge bases: " +:+ e +:+ nl);
                                   Stdout ("Please enter KB_KEY manually." +:+ nl)])
                  eq_refl) as (ev & cfg' & err & -> & H).
      exists ev, cfg', err. split; [done|]. destruct H as (? & ? & ? & ? & Hkey).
      split_and!; try done. }
  destruct bases as [|kb0 rest].
  { destruct (Hprompt (start ++ [Stdout ("No knowledge bases found." +:+ nl)]) eq_refl)
      as (ev & cfg' & err & Hrun & H).
    exists ev, cfg', err. rewrite bool_decide_true by done. rewrite Hrun.
    split; [done|].
    destruct H as (? & ? & ? & ? & Hkey). split_and!; try done. }
  rewrite bool_decide_false by done.
  set (bases := kb0 :: rest).
  set (asked := start ++ [Stdout (nl +:+ "Available knowledge bases:" +:+ nl)]
                ++ config.baseLines 0 bases
                ++ [Stdout (nl +:+ "Enter number or KB_KEY: "); StdinReadLine]).
  assert (Hasked : fileWrites asked = []).
  { unfold asked. rewrite !fileWrites_app, baseLines_fileWrites. done. }
  destruct (strings.ReadString stdin) as [line [e|]].
  { exists asked, cfg, (Some ("failed to read input: " +:+ e)).
    split_and!; try done; try (by left). }
  destruct (fmt_Sscanf_int (strings_TrimSpace line)) as [num|e] eqn:Hscan.
  2:{ destruct (Hsave asked (strings_TrimSpace line) Hasked)
        as (ev & cfg' & err & -> & ? & ? & Hw & Hlast & Hkey).
      exists ev, cfg', err.
      split_and!; try done; try (by right);
        try (intros Hok; split; [done | by apply Hlast]).
      intros l [= <-]. cbv zeta. by rewrite Hscan. }
  destruct (decide (0 < num ≤ Z.of_nat (length bases))%Z) as [Hin|Hout].
  - rewrite !bool_decide_true by lia. simpl.
    destruct (bases !! Z.to_nat (num - 1)) as [kb|] eqn:Hkb.
    2:{ apply lookup_ge_None in Hkb. lia. }
    simpl.
    destruct (Hsave asked (config.Key kb) Hasked)
      as (ev & cfg' & err & -> & ? & ? & Hw & Hlast & Hkey).
    exists ev, cfg', err.
      split_and!; try done; try (by right);
        try (intros Hok; split; [done | by apply Hlast]).
    intros l [= <-]. cbv zeta. rewrite Hscan, decide_True by done. by exists kb.
  - assert (Hb : bool_decide (0 < num)%Z
                 && bool_decide (num ≤ Z.of_nat (length bases))%Z = false).
    { apply andb_false_iff. rewrite !bool_decide_eq_false. lia. }
    rewrite Hb.
    destruct (Hsave asked (strings_TrimSpace line) Hasked)
      as (ev & cfg' & err & -> & ? & ? & Hw & Hlast & Hkey).
    exists ev, cfg', err.
      split_and!; try done; try (by right);
        try (intros Hok; split; [done | by apply Hlast]).
    intros l [= <-]. cbv zeta. by rewrite Hscan, decide_False by done.
Qed.

Module Bases.
(** A server without the endpoint of the knowledge bases: three articles in
    two projects, and one article whose project has no name. *)
Definition projects : list config.Project :=
  [ {| config.pID := "0-1"; config.pName := "Docs" |};
    {| config.pID := "0-2"; config.pName := "Ops" |};
    {| config.pID := "0-1"; config.pName := "Docs" |};
    {| config.pID := "0-3"; config.pName := "" |} ].

Definition http (url : string) : config.Exchange :=
  if bool_decide (url = "https://yt.example/api/knowledgeBases")
  then config.Answered
         {| config.StatusCode := 404; config.Body := "";
            config.DecodedBases := Err "EOF"; config.DecodedProjects := Err "EOF" |}
  else config.Answered
         {| config.StatusCode := 200; config.Body := "";
            config.DecodedBases := Err "cannot unmarshal";
            config.DecodedProjects := Ok projects |}.

Definition range (m : gmap string string) : list (string * string) := map_to_list m.

(** [Sscanf] on the lines of the example. *)
Definition scan (s : string) : result Z :=
  if bool_decide (s = "2") then Ok 2%Z
  else if bool_decide (s = "7") then Ok 7%Z
  else Err "expected integer".
End Bases.

Lemma X19_witness :
  ∃ bases,
    config.ListKnowledgeBases Bases.range Examples.cfg Bases.http = Ok bases
    ∧ NoDup (config.Key <$> bases)
    ∧ "0-2" ∈ config.Key <$> bases.
Proof.
  destruct (ListKnowledgeBases_fallback Bases.range Examples.cfg Bases.http _ _
              Bases.projects (λ m, reflexivity _) eq_refl ltac:(discriminate)
              eq_refl eq_refl eq_refl)
    as (bases & Hrun & Hnd & _ & Hall).
  exists bases. split; [exact Hrun|]. split; [exact Hnd|].
  apply (Hall {| config.pID := "0-2"; config.pName := "Ops" |}).
  - unfold Bases.projects. right. left.
  - discriminate.
  - discriminate.
Defined.

(** The second knowledge base is chosen by its number; a number that is out
    of range is stored as if it were a key. *)
Example selectKnowledgeBaseInteractive_by_number :
  (∃ ev cfg',
     config.selectKnowledgeBaseInteractive (R := GoModel.runtime)
       Bases.range Bases.scan (λ _ _, None) Examples.cfg Bases.http (" 2 " +:+ nl)
     = Some (ev, cfg', None)
     ∧ api.KBKey cfg' = "0-2"
     ∧ fileWrites ev = [FsWrite ".env" ("KB_KEY=0-2" +:+ nl)])
  ∧ (∃ ev cfg',
       config.selectKnowledgeBaseInteractive (R := GoModel.runtime)
         Bases.range Bases.scan (λ _ _, None) Examples.cfg Bases.http ("7" +:+ nl)
       = Some (ev, cfg', None)
       ∧ api.KBKey cfg' = "7").
Proof.
  split.
  - eexists _, _. split; [by_vm|]. split; by_vm.
  - eexists _, _. split; by_vm.
Qed.

(** ** When the order of siblings is determined *)

Section sorted_unique.
Context {A : Type} (key : A → Z).

(** A list sorted by a key that tells its elements apart is the only
    sorted rearrangement of itself. *)
Lemma sorted_by_key_unique (l1 l2 : list A) :
  StronglySorted (λ x y, (key x ≤ key y)%Z) l1 →
  StronglySorted (λ x y, (key x ≤ key y)%Z) l2 →
  l1 ≡ₚ l2 →
  (∀ x y, x ∈ l1 → y ∈ l1 → key x = key y → x = y) →
  l1 = l2.
Proof.
  revert l2. induction l1 as [|x l1 IH]; intros l2 Hs1 Hs2 Hperm Hinj.
  { by apply Permutation_nil in Hperm. }
  destruct l2 as [|y l2]; [by apply Permutation_nil_r in Hperm|].
  apply StronglySorted_cons in Hs1 as [Hx Hs1].
  apply StronglySorted_cons in Hs2 as [Hy Hs2].
  rewrite Forall_forall in Hx, Hy.
  assert (Hxy : x = y).
  { assert (Hx2 : x ∈ y :: l2) by (rewrite <- Hperm; by left).
    assert (Hy1 : y ∈ x :: l1) by (rewrite Hperm; by left).
    apply elem_of_cons in Hx2 as [?|Hx2]; [done|].
    apply elem_of_cons in Hy1 as [?|Hy1]; [done|].
    apply Hinj; [by left | by right|].
    pose proof (Hx y Hy1). pose proof (Hy x Hx2). lia. }
  subst y. f_equal. apply IH; try done.
  - by apply Permutation_cons_inv in Hperm.
  - intros a b Ha Hb. apply Hinj; by right.
Qed.
End sorted_unique.

Section determined.
Context (R1 R2 : GoRuntime) {L1 : GoRuntimeLaws R1} {L2 : GoRuntimeLaws R2}.
Variable articles : list api.Article.

Let m := cmd.indexByID articles.

(** Articles that the walk takes together have different [Order]. *)
Hypothesis roots_apart :
  ∀ x y, x ∈ articles → y ∈ articles →
         cmd.isRoot x = true → cmd.isRoot y = true →
         api.Order x = api.Order y → x = y.
Hypothesis siblings_apart :
  ∀ p x y, x ∈ snd <$> map_to_list m → y ∈ snd <$> map_to_list m →
           cmd.isChildOf p x = true → cmd.isChildOf p y = true →
           api.Order x = api.Order y → x = y.

Lemma sortedRoots_determined :
  cmd.sortedRoots (R := R1) articles = cmd.sortedRoots (R := R2) articles.
Proof.
  apply (sorted_by_key_unique api.Order).
  - apply (sortedRoots_sorted (R := R1)).
  - apply (sortedRoots_sorted (R := R2)).
  - by rewrite !sortedRoots_perm.
  - intros x y Hx Hy. rewrite sortedRoots_perm in Hx, Hy.
    apply list_elem_of_filter in Hx as [Hrx Hx].
    apply list_elem_of_filter in Hy as [Hry Hy].
    by apply roots_apart.
Qed.

Lemma sortedChildren_determined stack1 stack2 a :
  cmd.sortedChildren (R := R1) stack1 a m = cmd.sortedChildren (R := R2) stack2 a m.
Proof.
  apply (sorted_by_key_unique api.Order).
  - apply (sortedChildren_sorted (R := R1)).
  - apply (sortedChildren_sorted (R := R2)).
  - by rewrite !sortedChildren_perm.
  - intros x y Hx Hy. rewrite sortedChildren_perm in Hx, Hy.
    apply list_elem_of_filter in Hx as [Hcx Hx].
    apply list_elem_of_filter in Hy as [Hcy Hy].
    by apply (siblings_apart a).
Qed.

Lemma callTree_determined fuel stack a :
  callTree (R := R1) fuel stack a m = callTree (R := R2) fuel stack a m.
Proof.
  revert stack a. induction fuel as [|fuel IH]; intros stack a; [done|].
  simpl. rewrite (sortedChildren_determined (api.ID a :: stack) (api.ID a :: stack)).
  by rewrite (mapM_ext _ (λ child, callTree (R := R2) fuel (api.ID a :: stack) child m))
    by (intros child; apply IH).
Qed.

Lemma callForest_determined fuel :
  callForest (R := R1) fuel articles = callForest (R := R2) fuel articles.
Proof.
  unfold callForest. rewrite sortedRoots_determined.
  apply mapM_ext. intros a. apply callTree_determined.
Qed.
End determined.

(** X21. When the roots have pairwise different [Order] and so have the
    children of every article, the walk of the listing is the same on every
    runtime: neither the order in which the map of articles is ranged over
    nor what [sort.Slice] does with equal keys can change it. The forest
    [diff] builds from the listing is then the same as well. *)
Theorem walk_determined_by_order
    (R1 R2 : GoRuntime) {L1 : GoRuntimeLaws R1} {L2 : GoRuntimeLaws R2}
    (fuel : nat) (articles : list api.Article)
    (articleStatus : gmap string ArticleStatus)
    (articleTitles articlePaths : gmap string string) :
  (∀ x y, x ∈ articles → y ∈ articles →
          cmd.isRoot x = true → cmd.isRoot y = true →
          api.Order x = api.Order y → x = y) →
  (∀ p x y, x ∈ snd <$> map_to_list (cmd.indexByID articles) →
            y ∈ snd <$> map_to_list (cmd.indexByID articles) →
            cmd.isChildOf p x = true → cmd.isChildOf p y = true →
            api.Order x = api.Order y → x = y) →
  callForest (R := R1) fuel articles = callForest (R := R2) fuel articles
  ∧ cmd.buildRootNodes (R := R1) fuel articles articleStatus articleTitles articlePaths
    = cmd.buildRootNodes (R := R2) fuel articles articleStatus articleTitles
        articlePaths.
Proof.
  intros Hroots Hsiblings.
  pose proof (callForest_determined R1 R2 articles Hroots Hsiblings fuel) as Hwalk.
  split; [exact Hwalk|].
  by rewrite !buildRootNodes_callForest, Hwalk.
Qed.

(** A runtime that ranges over a map the other way round. *)
Module Backwards.
Definition runtime : GoRuntime := {|
  strings_TrimSpace := GoModel.TrimSpace;
  strings_ToLower := GoModel.ToLower;
  filepath_Dir := GoModel.Dir;
  filepath_Join := GoModel.Join;
  yaml_Marshal := GoModel.Marshal;
  yaml_Unmarshal := GoModel.Unmarshal;
  sort_Slice := @GoModel.insertionSort;
  range_map := λ V _ m, reverse (map_to_list m)
|}.
End Backwards.

Lemma Backwards_laws : GoRuntimeLaws Backwards.runtime.
Proof.
  split.
  - intros V s m. apply reverse_Permutation.
  - intros A less l. apply insertionSort_perm.
  - intros A key l. apply (insertionSort_sorted key).
Qed.

Lemma X21_witness :
  callForest (R := Backwards.runtime) 3 Scenario.articles
  = callForest (R := GoModel.runtime) 3 Scenario.articles.
Proof.
  assert (Hidx : snd <$> map_to_list (cmd.indexByID Scenario.articles)
                 ≡ₚ Scenario.articles).
  { apply NoDup_Permutation.
    - apply index_values_NoDup.
    - by_evaluation.
    - intros a. apply index_values. by_evaluation. }
  assert (Hcases : ∀ x, x ∈ Scenario.articles →
                        x = Scenario.intro ∨ x = Scenario.setup
                        ∨ x = Scenario.advanced).
  { intros x Hx. repeat (apply elem_of_cons in Hx as [->|Hx]); auto.
    by apply elem_of_nil in Hx. }
  apply (@walk_determined_by_order Backwards.runtime GoModel.runtime
           Backwards_laws GoModel_laws 3 Scenario.articles ∅ ∅ ∅).
  - intros x y Hx Hy Hrx Hry _.
    destruct (Hcases x Hx) as [->|[->| ->]], (Hcases y Hy) as [->|[->| ->]];
      done.
  - intros p x y Hx Hy Hcx Hcy Ho. rewrite Hidx in Hx, Hy.
    destruct (Hcases x Hx) as [->|[->| ->]], (Hcases y Hy) as [->|[->| ->]];
      try done;
      unfold cmd.isChildOf in *; apply bool_decide_eq_true in Hcx, Hcy; done.
Defined.

(** With the orders the adapter delivers the two runtimes part ways. *)
Example ties_depend_on_runtime :
  callForest (R := GoModel.runtime) 3 Ties.articles
  = Some [RNode Ties.intro [RNode Ties.advanced []; RNode Ties.setup []]]
  ∧ callForest (R := Backwards.runtime) 3 Ties.articles
    = Some [RNode Ties.intro [RNode Ties.setup []; RNode Ties.advanced []]].
Proof. split; by_vm. Qed.
